(** * Position store and animation manager of typhonjs-fvtt-svelte

    A shallow embedding of
      - [src/application/position/Position.js]  (class [Position]:
        constructor, [set], [#updatePosition], [#updateSubscribers],
        [#updateElementNew], [animateTo], [reset], [get], [save], [getSave],
        [toJSON], [remove], [restore], [subscribe] and the function it
        returns, the setters [parent] and [transformOrigin])
      - [position/animation/AnimationManager.js] (second revision, the one
        with [finished] and [cancelAll]: [add], the body of the [animate]
        loop, [cancelAll])
    and the properties of the positional data engine checked against it.

    Conventions of the embedding.
      - A JavaScript number is a [num]: NaN, the two infinities, or a finite
        value held as a rational.  Every finite double is a rational and the
        only arithmetic the modelled code performs on position fields is
        [Math.round], [Math.min], [Math.max] and comparison, which are exact;
        the subtraction and division of frame times in [animate] round their
        exact result to the nearest double ([Num.binary64]).  Negative zero
        is not distinguished from zero.
      - A plain object is an [obj]: the list of its own properties in
        insertion order, restricted to the seventeen position keys.  Other
        keys are carried along by [get] and never read by the code below.
      - Objects that the code shares by reference live in heaps indexed by
        [nat]: Position instances, DOM elements and animation tasks.
      - The private [#transforms] mirror of the rotate / scale / translate
        fields and the readable [transform] store are left out: class
        [Transforms] is not among the sources and nothing below reads it.
      - The writable stores of [#stores] come from the store package; the
        one [restore] reaches through the setter [transformOrigin] is a
        parameter of its section. *)

From Stdlib Require Import ZArith QArith Qround Bool List String Lia.
From stdpp Require Import base decidable option list gmap strings.
Import ListNotations.

Local Open Scope string_scope.
Local Open Scope nat_scope.

(** ** JavaScript numbers and values *)

Inductive num : Type :=
| NaN
| PosInf
| NegInf
| Fin (q : Q).

Module Num.

Definition isFinite (n : num) : bool :=
  match n with Fin _ => true | _ => false end.

Definition isNaN (n : num) : bool :=
  match n with NaN => true | _ => false end.

(** [Number.isInteger] on a number. *)
Definition isInteger (n : num) : bool :=
  match n with
  | Fin q => Qeq_bool q (inject_Z (Qfloor q))
  | _ => false
  end.

(** [Math.round]: nearest integer, ties towards +Infinity. *)
Definition round (n : num) : num :=
  match n with
  | Fin q => Fin (inject_Z (Qfloor (q + (1 # 2))))
  | _ => n
  end.

(** [a === b] on numbers: NaN differs from everything. *)
Definition eqb (a b : num) : bool :=
  match a, b with
  | Fin x, Fin y => Qeq_bool x y
  | PosInf, PosInf => true
  | NegInf, NegInf => true
  | _, _ => false
  end.

(** [a < b]. *)
Definition ltb (a b : num) : bool :=
  match a, b with
  | NaN, _ | _, NaN => false
  | _, NegInf => false
  | NegInf, _ => true
  | PosInf, _ => false
  | Fin _, PosInf => true
  | Fin x, Fin y => negb (Qle_bool y x)
  end.

(** [a >= b]. *)
Definition geb (a b : num) : bool :=
  match a, b with
  | NaN, _ | _, NaN => false
  | _, NegInf => true
  | NegInf, _ => false
  | PosInf, _ => true
  | Fin _, PosInf => false
  | Fin x, Fin y => Qle_bool y x
  end.

(** [a <= b]. *)
Definition leb (a b : num) : bool := geb b a.

(** [Math.min(a, b)] and [Math.max(a, b)]: NaN when either is NaN. *)
Definition min (a b : num) : num :=
  match a, b with
  | NaN, _ | _, NaN => NaN
  | _, _ => if ltb b a then b else a
  end.

Definition max (a b : num) : num :=
  match a, b with
  | NaN, _ | _, NaN => NaN
  | _, _ => if ltb a b then b else a
  end.

(** The double nearest to a rational, ties to the even significand: IEEE
    754 binary64 in round-to-nearest mode, which is what [-] and [/] make
    of their exact result.  A double has 53 significant bits; its last
    place is at least 2^-1074, and from 2^1024 on the result is an
    infinity. *)
Definition binary64 (q : Q) : num :=
  let n := Z.abs (Qnum q) in
  let d := Z.pos (Qden q) in
  if (n =? 0)%Z then Fin 0
  else
    (* 2^e0 <= |q| < 2^(e0+1); the last place of the result is 2^e *)
    let k := (Z.log2 n - Z.log2 d)%Z in
    let e0 := if (n * 2 ^ Z.max 0 (- k) <? d * 2 ^ Z.max 0 k)%Z
              then (k - 1)%Z else k in
    let e := Z.max (e0 - 52) (-1074) in
    (* |q| / 2^e = num / den, rounded to the integer m *)
    let num := (n * 2 ^ Z.max 0 (- e))%Z in
    let den := (d * 2 ^ Z.max 0 e)%Z in
    let m0 := (num / den)%Z in
    let r := (num mod den)%Z in
    let m := if (2 * r <? den)%Z then m0
             else if (den <? 2 * r)%Z then (m0 + 1)%Z
             else if Z.even m0 then m0 else (m0 + 1)%Z in
    if (2 ^ 1024 <=? m * 2 ^ Z.max 0 e)%Z
    then (if (Qnum q <? 0)%Z then NegInf else PosInf)
    else Fin (Qred (Qmake (Z.sgn (Qnum q) * m * 2 ^ Z.max 0 e)
                          (Z.to_pos (2 ^ Z.max 0 (- e))))).

(** [a - b]. *)
Definition sub (a b : num) : num :=
  match a, b with
  | NaN, _ | _, NaN => NaN
  | PosInf, PosInf | NegInf, NegInf => NaN
  | PosInf, _ | _, NegInf => PosInf
  | NegInf, _ | _, PosInf => NegInf
  | Fin x, Fin y => binary64 (x - y)
  end.

(** [a / b]. *)
Definition div (a b : num) : num :=
  match a, b with
  | NaN, _ | _, NaN => NaN
  | (PosInf | NegInf), (PosInf | NegInf) => NaN
  | PosInf, Fin y => if Qle_bool 0 y then PosInf else NegInf
  | NegInf, Fin y => if Qle_bool 0 y then NegInf else PosInf
  | Fin _, (PosInf | NegInf) => Fin 0
  | Fin x, Fin y =>
      if Qeq_bool y 0
      then (if Qeq_bool x 0 then NaN
            else if Qle_bool 0 x then PosInf else NegInf)
      else binary64 (x / y)
  end.

Definition zero : num := Fin 0.
Definition one : num := Fin 1.
Definition of_Z (z : Z) : num := Fin (inject_Z z).

End Num.

(** A JavaScript value.  [VObj i] is any other object or function, known
    only by its identity. *)
Inductive value : Type :=
| VUndefined
| VNull
| VBool (b : bool)
| VNum (n : num)
| VStr (s : string)
| VObj (identity : nat).

Module Js.

(** [a === b]. *)
Definition strict_eq (a b : value) : bool :=
  match a, b with
  | VUndefined, VUndefined => true
  | VNull, VNull => true
  | VBool x, VBool y => Bool.eqb x y
  | VNum x, VNum y => Num.eqb x y
  | VStr x, VStr y => String.eqb x y
  | VObj x, VObj y => Nat.eqb x y
  | _, _ => false
  end.

(** [a !== b]. *)
Definition strict_ne (a b : value) : bool := negb (strict_eq a b).

(** [typeof v === 'number']. *)
Definition is_number (v : value) : bool :=
  match v with VNum _ => true | _ => false end.

(** [typeof v === 'string']. *)
Definition is_string (v : value) : bool :=
  match v with VStr _ => true | _ => false end.

(** [v === null]. *)
Definition is_null (v : value) : bool :=
  match v with VNull => true | _ => false end.

(** [v === 'auto']. *)
Definition is_auto (v : value) : bool :=
  match v with VStr s => String.eqb s "auto" | _ => false end.

(** [Number.isFinite(v)]: false on every non-number. *)
Definition isFinite (v : value) : bool :=
  match v with VNum n => Num.isFinite n | _ => false end.

(** [Number.isInteger(v)]. *)
Definition isInteger (v : value) : bool :=
  match v with VNum n => Num.isInteger n | _ => false end.

(** [Math.round(v)] for a value already known to be a number. *)
Definition round (v : value) : value :=
  match v with VNum n => VNum (Num.round n) | _ => VNum NaN end.

(** [Math.max(0, Math.min(v, 1000))] for a number [v]. *)
Definition clamp_scale (v : value) : value :=
  match v with
  | VNum n => VNum (Num.max Num.zero (Num.min n (Num.of_Z 1000)))
  | _ => VNum NaN
  end.

(** Truthiness, [a ?? b] and [a || b]. *)
Definition truthy (v : value) : bool :=
  match v with
  | VUndefined | VNull => false
  | VBool b => b
  | VNum NaN => false
  | VNum (Fin q) => negb (Qeq_bool q 0)
  | VNum _ => true
  | VStr s => negb (String.eqb s "")
  | VObj _ => true
  end.

Definition nullish (a b : value) : value :=
  match a with VUndefined | VNull => b | _ => a end.

Definition or (a b : value) : value := if truthy a then a else b.

End Js.

(** Outcome of a call: normal completion or a thrown exception. *)
Inductive error : Type :=
| TypeError (message : string)
| Error (message : string).

Inductive completion (A : Type) : Type :=
| Normal (a : A)
| Throw (e : error).
Arguments Normal {A} a.
Arguments Throw {A} e.

(** ** Position keys, [PositionData] and plain objects *)

(** The seventeen fields of [PositionData], in the order the constructor of
    [Position] goes through them. *)
Inductive key : Type :=
| K_height | K_left | K_maxHeight | K_maxWidth | K_minHeight | K_minWidth
| K_rotateX | K_rotateY | K_rotateZ | K_scale | K_top | K_transformOrigin
| K_translateX | K_translateY | K_translateZ | K_width | K_zIndex.

#[global] Instance key_eq_dec : EqDecision key.
Proof. solve_decision. Defined.

Definition all_keys : list key :=
  [K_height; K_left; K_maxHeight; K_maxWidth; K_minHeight; K_minWidth;
   K_rotateX; K_rotateY; K_rotateZ; K_scale; K_top; K_transformOrigin;
   K_translateX; K_translateY; K_translateZ; K_width; K_zIndex].

(** [constants.transformOrigins] and [constants.transformOriginDefault]
    (src/application/internal/position/constants.js). *)
Definition transformOrigins : list string :=
  ["top left"; "top center"; "top right"; "center left"; "center";
   "center right"; "bottom left"; "bottom center"; "bottom right"].

Definition transformOriginDefault : string := "top left".

(** [constants.transformOrigins.includes(v)]. *)
Definition transformOrigins_includes (v : value) : bool :=
  match v with
  | VStr s => existsb (String.eqb s) transformOrigins
  | _ => false
  end.

Record PositionData : Type := mkPositionData {
  d_height : value;
  d_left : value;
  d_maxHeight : value;
  d_maxWidth : value;
  d_minHeight : value;
  d_minWidth : value;
  d_rotateX : value;
  d_rotateY : value;
  d_rotateZ : value;
  d_scale : value;
  d_top : value;
  d_transformOrigin : value;
  d_translateX : value;
  d_translateY : value;
  d_translateZ : value;
  d_width : value;
  d_zIndex : value
}.

(** Modelled from the spec: class [PositionData] (PositionData.js is not
    among the sources).  Section 3 gives the fields; each starts as [null]
    except [transformOrigin], whose default is ['top left']. *)
Definition PositionData_new : PositionData :=
  {| d_height := VNull; d_left := VNull; d_maxHeight := VNull;
     d_maxWidth := VNull; d_minHeight := VNull; d_minWidth := VNull;
     d_rotateX := VNull; d_rotateY := VNull; d_rotateZ := VNull;
     d_scale := VNull; d_top := VNull;
     d_transformOrigin := VStr transformOriginDefault;
     d_translateX := VNull; d_translateY := VNull; d_translateZ := VNull;
     d_width := VNull; d_zIndex := VNull |}.

(** [data[k]] *)
Definition getf (d : PositionData) (k : key) : value :=
  match k with
  | K_height => d_height d | K_left => d_left d
  | K_maxHeight => d_maxHeight d | K_maxWidth => d_maxWidth d
  | K_minHeight => d_minHeight d | K_minWidth => d_minWidth d
  | K_rotateX => d_rotateX d | K_rotateY => d_rotateY d
  | K_rotateZ => d_rotateZ d | K_scale => d_scale d
  | K_top => d_top d | K_transformOrigin => d_transformOrigin d
  | K_translateX => d_translateX d | K_translateY => d_translateY d
  | K_translateZ => d_translateZ d | K_width => d_width d
  | K_zIndex => d_zIndex d
  end.

(** [data[k] = v] *)
Definition setf (k : key) (v : value) (d : PositionData) : PositionData :=
  let f k' := if decide (k' = k) then v else getf d k' in
  {| d_height := f K_height; d_left := f K_left;
     d_maxHeight := f K_maxHeight; d_maxWidth := f K_maxWidth;
     d_minHeight := f K_minHeight; d_minWidth := f K_minWidth;
     d_rotateX := f K_rotateX; d_rotateY := f K_rotateY;
     d_rotateZ := f K_rotateZ; d_scale := f K_scale; d_top := f K_top;
     d_transformOrigin := f K_transformOrigin;
     d_translateX := f K_translateX; d_translateY := f K_translateY;
     d_translateZ := f K_translateZ; d_width := f K_width;
     d_zIndex := f K_zIndex |}.

(** A plain object: own properties in insertion order, keys unique. *)
Definition obj : Type := list (key * value).

Module Obj.

Fixpoint lookup (o : obj) (k : key) : option value :=
  match o with
  | [] => None
  | (k', v) :: rest => if decide (k' = k) then Some v else lookup rest k
  end.

(** [o[k]]: [undefined] when the property is absent. *)
Definition read (o : obj) (k : key) : value :=
  match lookup o k with Some v => v | None => VUndefined end.

(** [k in o] for own properties. *)
Definition has (o : obj) (k : key) : bool :=
  match lookup o k with Some _ => true | None => false end.

(** [o[k] = v]: overwrite in place, or append a new property. *)
Fixpoint put (k : key) (v : value) (o : obj) : obj :=
  match o with
  | [] => [(k, v)]
  | (k', v') :: rest =>
      if decide (k' = k) then (k, v) :: rest else (k', v') :: put k v rest
  end.

(** [delete o[k]]. *)
Fixpoint del (k : key) (o : obj) : obj :=
  match o with
  | [] => []
  | (k', v') :: rest =>
      if decide (k' = k) then del k rest else (k', v') :: del k rest
  end.

(** [Object.keys(o)] and the order of [for (const k in o)]. *)
Definition keys (o : obj) : list key := map fst o.

(** [Object.assign(target, source)]. *)
Definition assign (target source : obj) : obj :=
  fold_left (fun t kv => put (fst kv) (snd kv) t) source target.

(** The own properties of a [PositionData] instance. *)
Definition of_data (d : PositionData) : obj :=
  map (fun k => (k, getf d k)) all_keys.

End Obj.

(** ** PositionChangeSet *)

Inductive csbit : Type :=
| CS_left | CS_top | CS_width | CS_height | CS_maxWidth | CS_maxHeight
| CS_minWidth | CS_minHeight | CS_zIndex | CS_transform | CS_transformOrigin.

#[global] Instance csbit_eq_dec : EqDecision csbit.
Proof. solve_decision. Defined.

Record PositionChangeSet : Type := mkChangeSet {
  cs_left : bool;
  cs_top : bool;
  cs_width : bool;
  cs_height : bool;
  cs_maxWidth : bool;
  cs_maxHeight : bool;
  cs_minWidth : bool;
  cs_minHeight : bool;
  cs_zIndex : bool;
  cs_transform : bool;
  cs_transformOrigin : bool
}.

Module ChangeSet.

(** Modelled from the spec: class [PositionChangeSet]
    (PositionChangeSet.js is not among the sources).  Section 3: one
    boolean per field [left, top, width, height, maxWidth, maxHeight,
    minWidth, minHeight, zIndex, transform, transformOrigin], an aggregate
    "has any change" query, and a reset of all flags; [set(b)] writes [b]
    to every flag. *)
Definition set (b : bool) : PositionChangeSet :=
  mkChangeSet b b b b b b b b b b b.

Definition get (c : PositionChangeSet) (b : csbit) : bool :=
  match b with
  | CS_left => cs_left c | CS_top => cs_top c
  | CS_width => cs_width c | CS_height => cs_height c
  | CS_maxWidth => cs_maxWidth c | CS_maxHeight => cs_maxHeight c
  | CS_minWidth => cs_minWidth c | CS_minHeight => cs_minHeight c
  | CS_zIndex => cs_zIndex c | CS_transform => cs_transform c
  | CS_transformOrigin => cs_transformOrigin c
  end.

(** [changeSet.b = true] *)
Definition flag (b : csbit) (c : PositionChangeSet) : PositionChangeSet :=
  let f b' := if decide (b' = b) then true else get c b' in
  mkChangeSet (f CS_left) (f CS_top) (f CS_width) (f CS_height)
              (f CS_maxWidth) (f CS_maxHeight) (f CS_minWidth)
              (f CS_minHeight) (f CS_zIndex) (f CS_transform)
              (f CS_transformOrigin).

Definition hasChange (c : PositionChangeSet) : bool :=
  cs_left c || cs_top c || cs_width c || cs_height c || cs_maxWidth c
  || cs_maxHeight c || cs_minWidth c || cs_minHeight c || cs_zIndex c
  || cs_transform c || cs_transformOrigin c.

End ChangeSet.


(** ** The environment of a Position: elements, parent, validators *)

(** What [set] reads from an [HTMLElement]: connection state, the inline
    style texts it tests against [''], the measured box, and the computed
    style values kept by the style cache. *)
Record Element : Type := mkElement {
  el_isConnected : bool;
  el_style_left : string;
  el_style_top : string;
  el_style_width : string;
  el_style_height : string;
  el_offsetWidth : Z;
  el_offsetHeight : Z;
  el_marginLeft : value;
  el_marginTop : value;
  el_maxHeight : value;
  el_maxWidth : value;
  el_minHeight : value;
  el_minWidth : value
}.

(** The [parent] handed to a Position: nothing, an [HTMLElement] itself, or
    a host object with [options.positionable], [elementTarget] (present only
    when it is an [HTMLElement]), [reactive.minimized] and possibly a
    [maximize] method. *)
Inductive Parent : Type :=
| ParentUndefined
| ParentHTMLElement (el : nat)
| ParentObject (positionable : option bool) (elementTarget : option nat)
               (minimized : bool) (maximize : bool).

Record InitialHelper : Type := mkInitialHelper {
  getLeft : value -> value;
  getTop : value -> value
}.

(** [ValidationData] as filled in by [#updatePosition] (the [computed] and
    [transforms] entries are left out). *)
Record ValidationData : Type := mkValidationData {
  vd_position : obj;
  vd_parent : Parent;
  vd_el : nat;
  vd_height : value;
  vd_width : value;
  vd_marginLeft : value;
  vd_marginTop : value;
  vd_maxHeight : value;
  vd_maxWidth : value;
  vd_minHeight : value;
  vd_minWidth : value
}.

(** A validator returns adjusted position data, or [None] for [null]. *)
Record ValidatorEntry : Type := mkValidatorEntry {
  ve_id : value;
  ve_validator : ValidationData -> option obj;
  ve_weight : Q
}.

Module StyleCache.

(** Modelled from the spec: class [StyleCache] (StyleCache.js is not among
    the sources).  Section 2: it memoizes computed styles (margins, min/max
    constraints) for a target element and is invalidated when the element
    identity changes. *)
Record t : Type := mk {
  el : option nat;
  marginLeft : value;
  marginTop : value;
  maxHeight : value;
  maxWidth : value;
  minHeight : value;
  minWidth : value
}.

Definition empty : t :=
  mk None VUndefined VUndefined VUndefined VUndefined VUndefined VUndefined.

Definition hasData (e : nat) (c : t) : bool :=
  match el c with Some e' => Nat.eqb e' e | None => false end.

Definition update (e : nat) (x : Element) : t :=
  mk (Some e) (el_marginLeft x) (el_marginTop x) (el_maxHeight x)
     (el_maxWidth x) (el_minHeight x) (el_minWidth x).

End StyleCache.

Module UpdateElementManager.

(** Modelled from the spec: [UpdateElementManager] (its file is not among
    the sources).  Section 4.2: [add(element, callback)] returns a promise;
    several calls for the same element before the next frame collapse to one
    scheduled callback, only the promises accumulate.  The state is the list
    of scheduled (element, owner of the bound callback) pairs and the number
    of promises handed out so far, which names the next promise. *)
Record t : Type := mk {
  scheduled : list (nat * nat);
  promises : nat
}.

Definition empty : t := mk [] 0.

Definition add (el callback : nat) (u : t) : t * nat :=
  (mk (if existsb (fun r => Nat.eqb (fst r) el) (scheduled u)
       then scheduled u
       else (scheduled u ++ [(el, callback)])%list)
      (S (promises u)),
   promises u).

End UpdateElementManager.


(** ** class Position: state *)

Module Position.

Record t : Type := mk {
  data : PositionData;
  currentAnimationKeys : list key;
  dataSaved : gmap string obj;
  defaultData : option obj;
  dimensionData : value * value;
  positionChangeSet : PositionChangeSet;
  calculateTransform : bool;
  initialHelper : option InitialHelper;
  transformSubscribed : bool;
  parent : Parent;
  styleCache : StyleCache.t;
  subscriptions : list nat;
  updateElementPromise : option nat;
  validators : list ValidatorEntry;
  (** calls that leave the instance, newest last: handlers invoked by
      [#updateSubscribers] with the copy they received, and the number of
      [parent.maximize(...)] calls made by [reset]. *)
  notified : list (nat * PositionData);
  maximizeCalls : nat
}.

Definition with_data (x : PositionData) (p : t) : t :=
  mk x (currentAnimationKeys p) (dataSaved p) (defaultData p)
     (dimensionData p) (positionChangeSet p) (calculateTransform p)
     (initialHelper p) (transformSubscribed p) (parent p) (styleCache p)
     (subscriptions p) (updateElementPromise p) (validators p) (notified p)
     (maximizeCalls p).

Definition with_currentAnimationKeys (x : list key) (p : t) : t :=
  mk (data p) x (dataSaved p) (defaultData p)
     (dimensionData p) (positionChangeSet p) (calculateTransform p)
     (initialHelper p) (transformSubscribed p) (parent p) (styleCache p)
     (subscriptions p) (updateElementPromise p) (validators p) (notified p)
     (maximizeCalls p).

Definition with_dataSaved (x : gmap string obj) (p : t) : t :=
  mk (data p) (currentAnimationKeys p) x (defaultData p)
     (dimensionData p) (positionChangeSet p) (calculateTransform p)
     (initialHelper p) (transformSubscribed p) (parent p) (styleCache p)
     (subscriptions p) (updateElementPromise p) (validators p) (notified p)
     (maximizeCalls p).

Definition with_defaultData (x : option obj) (p : t) : t :=
  mk (data p) (currentAnimationKeys p) (dataSaved p) x
     (dimensionData p) (positionChangeSet p) (calculateTransform p)
     (initialHelper p) (transformSubscribed p) (parent p) (styleCache p)
     (subscriptions p) (updateElementPromise p) (validators p) (notified p)
     (maximizeCalls p).

Definition with_dimensionData (x : value * value) (p : t) : t :=
  mk (data p) (currentAnimationKeys p) (dataSaved p) (defaultData p)
     x (positionChangeSet p) (calculateTransform p)
     (initialHelper p) (transformSubscribed p) (parent p) (styleCache p)
     (subscriptions p) (updateElementPromise p) (validators p) (notified p)
     (maximizeCalls p).

Definition with_positionChangeSet (x : PositionChangeSet) (p : t) : t :=
  mk (data p) (currentAnimationKeys p) (dataSaved p) (defaultData p)
     (dimensionData p) x (calculateTransform p)
     (initialHelper p) (transformSubscribed p) (parent p) (styleCache p)
     (subscriptions p) (updateElementPromise p) (validators p) (notified p)
     (maximizeCalls p).

Definition with_parent (x : Parent) (p : t) : t :=
  mk (data p) (currentAnimationKeys p) (dataSaved p) (defaultData p)
     (dimensionData p) (positionChangeSet p) (calculateTransform p)
     (initialHelper p) (transformSubscribed p) x (styleCache p)
     (subscriptions p) (updateElementPromise p) (validators p) (notified p)
     (maximizeCalls p).

Definition with_styleCache (x : StyleCache.t) (p : t) : t :=
  mk (data p) (currentAnimationKeys p) (dataSaved p) (defaultData p)
     (dimensionData p) (positionChangeSet p) (calculateTransform p)
     (initialHelper p) (transformSubscribed p) (parent p) x
     (subscriptions p) (updateElementPromise p) (validators p) (notified p)
     (maximizeCalls p).

Definition with_subscriptions (x : list nat) (p : t) : t :=
  mk (data p) (currentAnimationKeys p) (dataSaved p) (defaultData p)
     (dimensionData p) (positionChangeSet p) (calculateTransform p)
     (initialHelper p) (transformSubscribed p) (parent p) (styleCache p)
     x (updateElementPromise p) (validators p) (notified p)
     (maximizeCalls p).

Definition with_updateElementPromise (x : option nat) (p : t) : t :=
  mk (data p) (currentAnimationKeys p) (dataSaved p) (defaultData p)
     (dimensionData p) (positionChangeSet p) (calculateTransform p)
     (initialHelper p) (transformSubscribed p) (parent p) (styleCache p)
     (subscriptions p) x (validators p) (notified p)
     (maximizeCalls p).

Definition with_notified (x : list (nat * PositionData)) (p : t) : t :=
  mk (data p) (currentAnimationKeys p) (dataSaved p) (defaultData p)
     (dimensionData p) (positionChangeSet p) (calculateTransform p)
     (initialHelper p) (transformSubscribed p) (parent p) (styleCache p)
     (subscriptions p) (updateElementPromise p) (validators p) x
     (maximizeCalls p).

Definition with_maximizeCalls (x : nat) (p : t) : t :=
  mk (data p) (currentAnimationKeys p) (dataSaved p) (defaultData p)
     (dimensionData p) (positionChangeSet p) (calculateTransform p)
     (initialHelper p) (transformSubscribed p) (parent p) (styleCache p)
     (subscriptions p) (updateElementPromise p) (validators p) (notified p)
     x.

(** *** The field blocks of [set] (Position.js 1006-1144) *)

(** The state the blocks work on: the [position] argument, which the blocks
    normalise in place, the canonical [#data] and the change set. *)
Record SetState : Type := mkSetState {
  ss_position : obj;
  ss_data : PositionData;
  ss_changeSet : PositionChangeSet
}.

(** The flag each field raises; rotation, scale and translation share
    [transform]. *)
Definition bit_of (k : key) : csbit :=
  match k with
  | K_height => CS_height | K_left => CS_left
  | K_maxHeight => CS_maxHeight | K_maxWidth => CS_maxWidth
  | K_minHeight => CS_minHeight | K_minWidth => CS_minWidth
  | K_rotateX | K_rotateY | K_rotateZ | K_scale
  | K_translateX | K_translateY | K_translateZ => CS_transform
  | K_top => CS_top | K_transformOrigin => CS_transformOrigin
  | K_width => CS_width | K_zIndex => CS_zIndex
  end.

(** [position.k = v] *)
Definition assign (k : key) (v : value) (s : SetState) : SetState :=
  mkSetState (Obj.put k v (ss_position s)) (ss_data s) (ss_changeSet s).

(** [if (data.k !== position.k) { data.k = position.k; changeSet.b = true; }] *)
Definition store (k : key) (s : SetState) : SetState :=
  let v := Obj.read (ss_position s) k in
  if Js.strict_ne (getf (ss_data s) k) v
  then mkSetState (ss_position s) (setf k v (ss_data s))
                  (ChangeSet.flag (bit_of k) (ss_changeSet s))
  else s.

(** [left], [top] (1006-1018) and [zIndex] (1125-1130):
    [if (typeof position.k === 'number') { position.k = Math.round(position.k); ... }] *)
Definition set_rounded (k : key) (s : SetState) : SetState :=
  let v := Obj.read (ss_position s) k in
  if Js.is_number v then store k (assign k (Js.round v) s) else s.

(** [maxHeight], [maxWidth], [minHeight], [minWidth] (1020-1046):
    [if (Number.isFinite(position.k) || position.k === null)
       { position.k = typeof position.k === 'number' ? Math.round(position.k) : null; ... }] *)
Definition set_bound (k : key) (s : SetState) : SetState :=
  let v := Obj.read (ss_position s) k in
  if Js.isFinite v || Js.is_null v
  then store k (assign k (if Js.is_number v then Js.round v else VNull) s)
  else s.

(** [rotateX/Y/Z] (1048-1073) and [translateX/Y/Z] (1098-1123):
    [if (typeof position.k === 'number' || position.k === null) { ... }] *)
Definition set_transform (k : key) (s : SetState) : SetState :=
  let v := Obj.read (ss_position s) k in
  if Js.is_number v || Js.is_null v then store k s else s.

(** [scale] (1075-1084). *)
Definition set_scale (s : SetState) : SetState :=
  let v := Obj.read (ss_position s) K_scale in
  if Js.is_number v || Js.is_null v
  then store K_scale
         (assign K_scale (if Js.is_number v then Js.clamp_scale v else VNull) s)
  else s.

(** [transformOrigin] (1086-1096). *)
Definition set_transformOrigin (s : SetState) : SetState :=
  let v := Obj.read (ss_position s) K_transformOrigin in
  if Js.is_string v || Js.is_null v
  then store K_transformOrigin
         (assign K_transformOrigin
                 (if transformOrigins_includes v then v else VNull) s)
  else s.

(** [width], [height] (1132-1144). *)
Definition set_dimension (k : key) (s : SetState) : SetState :=
  let v := Obj.read (ss_position s) k in
  if Js.is_number v || Js.is_auto v || Js.is_null v
  then store k (assign k (if Js.is_number v then Js.round v else v) s)
  else s.

Definition set_field (k : key) (s : SetState) : SetState :=
  match k with
  | K_left | K_top | K_zIndex => set_rounded k s
  | K_maxHeight | K_maxWidth | K_minHeight | K_minWidth => set_bound k s
  | K_rotateX | K_rotateY | K_rotateZ
  | K_translateX | K_translateY | K_translateZ => set_transform k s
  | K_scale => set_scale s
  | K_transformOrigin => set_transformOrigin s
  | K_width | K_height => set_dimension k s
  end.

(** The order in which [set] goes through the fields. *)
Definition set_order : list key :=
  [K_left; K_top; K_maxHeight; K_maxWidth; K_minHeight; K_minWidth;
   K_rotateX; K_rotateY; K_rotateZ; K_scale; K_transformOrigin;
   K_translateX; K_translateY; K_translateZ; K_zIndex; K_width; K_height].

Definition set_fields (s : SetState) : SetState :=
  fold_left (fun s k => set_field k s) set_order s.

(** *** [#updatePosition] (Position.js 1354-1514) *)

(** Width and height (1359-1395): returns the updated [currentPosition] and
    the local [width] / [height] later given to helpers and validators. *)
Definition update_dimension (k : key) (style : string) (offset : Z)
    (v : value) (currentPosition : obj) : obj * value :=
  if String.eqb style "" || Js.strict_ne v VUndefined
  then
    if Js.is_auto v
       || (Js.is_auto (Obj.read currentPosition k) && negb (Js.is_null v))
    then (Obj.put k (VStr "auto") currentPosition, VNum (Num.of_Z offset))
    else
      let newV := if Js.isFinite v then v else Obj.read currentPosition k in
      let r := if Js.isFinite newV then Js.round newV
               else VNum (Num.of_Z offset) in
      (Obj.put k r currentPosition, r)
  else
    (currentPosition,
     if Js.isFinite (Obj.read currentPosition k)
     then Obj.read currentPosition k
     else VNum (Num.of_Z offset)).

(** Left and top (1397-1425); [helper] is [initialHelper.getLeft] or
    [getTop] when there is one, [size] the local [width] or [height]. *)
Definition update_offset (k : key) (style : string) (v : value)
    (helper : option (value -> value)) (size : value)
    (currentPosition : obj) : obj :=
  if String.eqb style "" || Js.isFinite v
  then
    if Js.isFinite v then Obj.put k v currentPosition
    else Obj.put k (match helper with
                    | Some f => f size
                    | None => VNum Num.zero
                    end) currentPosition
  else currentPosition.

(** [maxHeight], [maxWidth], [minHeight], [minWidth] (1427-1445). *)
Definition update_bound (k : key) (v : value) (currentPosition : obj) : obj :=
  if Js.isFinite v || Js.is_null v
  then Obj.put k (if Js.isFinite v then Js.round v else VNull) currentPosition
  else currentPosition.

(** Rotation and translation (1448-1454). *)
Definition update_transform (k : key) (v : value) (currentPosition : obj)
    : obj :=
  if Js.is_number v || Js.is_null v then Obj.put k v currentPosition
  else currentPosition.

(** [scale] (1456-1459). *)
Definition update_scale (v : value) (currentPosition : obj) : obj :=
  if Js.is_number v || Js.is_null v
  then Obj.put K_scale (if Js.is_number v then Js.clamp_scale v else VNull)
               currentPosition
  else currentPosition.

(** [transformOrigin] (1461-1465). *)
Definition update_transformOrigin (v : value) (currentPosition : obj) : obj :=
  if Js.is_string v || Js.is_null v
  then Obj.put K_transformOrigin
               (if transformOrigins_includes v then v else VNull)
               currentPosition
  else currentPosition.

(** [zIndex] (1467-1470). *)
Definition update_zIndex (v : value) (currentPosition : obj) : obj :=
  if Js.is_number v || Js.is_null v
  then Obj.put K_zIndex (if Js.is_number v then Js.round v else v)
               currentPosition
  else currentPosition.

(** The validator loop (1503-1509): each validator receives the output of
    the one before; the first [null] ends the loop with [null]. *)
Fixpoint run_validators (vs : list ValidatorEntry)
    (vd : obj -> ValidationData) (currentPosition : obj) : option obj :=
  match vs with
  | [] => Some currentPosition
  | entry :: rest =>
      match ve_validator entry (vd currentPosition) with
      | None => None
      | Some next => run_validators rest vd next
      end
  end.

(** Lines 1357-1501: the proposed position before validation, and the
    validation data as a function of the [position] entry the loop
    refreshes for each validator. *)
Definition prepare (els : nat -> Element) (position : obj) (el : nat)
    (p : t) : obj * (obj -> ValidationData) :=
  let e := els el in
  let arg := Obj.read position in
  (* let currentPosition = this.get(rest); *)
  let currentPosition := Obj.assign [] (Obj.of_data (data p)) in
  let '(currentPosition, width) :=
    update_dimension K_width (el_style_width e) (el_offsetWidth e)
                     (arg K_width) currentPosition in
  let '(currentPosition, height) :=
    update_dimension K_height (el_style_height e) (el_offsetHeight e)
                     (arg K_height) currentPosition in
  let currentPosition :=
    update_offset K_left (el_style_left e) (arg K_left)
                  (option_map getLeft (initialHelper p)) width
                  currentPosition in
  let currentPosition :=
    update_offset K_top (el_style_top e) (arg K_top)
                  (option_map getTop (initialHelper p)) height
                  currentPosition in
  let currentPosition := update_bound K_maxHeight (arg K_maxHeight) currentPosition in
  let currentPosition := update_bound K_maxWidth (arg K_maxWidth) currentPosition in
  let currentPosition := update_bound K_minHeight (arg K_minHeight) currentPosition in
  let currentPosition := update_bound K_minWidth (arg K_minWidth) currentPosition in
  let currentPosition := update_transform K_rotateX (arg K_rotateX) currentPosition in
  let currentPosition := update_transform K_rotateY (arg K_rotateY) currentPosition in
  let currentPosition := update_transform K_rotateZ (arg K_rotateZ) currentPosition in
  let currentPosition := update_transform K_translateX (arg K_translateX) currentPosition in
  let currentPosition := update_transform K_translateY (arg K_translateY) currentPosition in
  let currentPosition := update_transform K_translateZ (arg K_translateZ) currentPosition in
  let currentPosition := update_scale (arg K_scale) currentPosition in
  let currentPosition := update_transformOrigin (arg K_transformOrigin) currentPosition in
  let currentPosition := update_zIndex (arg K_zIndex) currentPosition in
  let cache := styleCache p in
  (currentPosition,
   fun current =>
     mkValidationData current (parent p) el height width
       (StyleCache.marginLeft cache) (StyleCache.marginTop cache)
       (Js.nullish (StyleCache.maxHeight cache) (Obj.read currentPosition K_maxHeight))
       (Js.nullish (StyleCache.maxWidth cache) (Obj.read currentPosition K_maxWidth))
       (Js.or (StyleCache.minHeight cache)
              (Js.nullish (Obj.read currentPosition K_minHeight) (VNum Num.zero)))
       (Js.or (StyleCache.minWidth cache)
              (Js.nullish (Obj.read currentPosition K_minWidth) (VNum Num.zero)))).

(** [if (validators.length) { ... }]: with no validator the loop is empty. *)
Definition updatePosition (els : nat -> Element) (position : obj) (el : nat)
    (p : t) : option obj :=
  let '(currentPosition, validationData) := prepare els position el p in
  run_validators (validators p) validationData currentPosition.

(** *** [#updateSubscribers] (1521-1547) *)

Definition updateSubscribers (p : t) : t :=
  let changeSet := positionChangeSet p in
  if negb (ChangeSet.hasChange changeSet) then p
  else
    let output := data p in
    let p := with_notified
               (notified p ++ map (fun handler => (handler, output))
                                  (subscriptions p))%list p in
    let p := if cs_width changeSet || cs_height changeSet
             then with_dimensionData (d_width (data p), d_height (data p)) p
             else p in
    with_positionChangeSet (ChangeSet.set false) p.

(** *** [#updateElementNew] (1252-1307), the bound DOM-sync callback *)

Inductive styleProp : Type :=
| S_zIndex | S_width | S_height | S_transformOrigin | S_transform.

(** What is assigned to an inline style: [null], the text of a number, a
    pixel length, a value passed through, or the orthographic transform
    composed from the data. *)
Inductive css : Type :=
| CssNull
| CssNumber (v : value)
| CssPx (v : value)
| CssValue (v : value)
| CssOrtho (d : PositionData).

Definition updateElementNew (els : nat -> Element) (el : nat) (p : t)
    : list (styleProp * css) * t :=
  if negb (el_isConnected (els el)) then ([], p)
  else
    let changeSet := positionChangeSet p in
    let d := data p in
    let w1 := if cs_zIndex changeSet
              then [(S_zIndex, if Js.is_number (d_zIndex d)
                               then CssNumber (d_zIndex d) else CssNull)]
              else [] in
    let w2 := if cs_width changeSet
              then [(S_width, if Js.is_number (d_width d)
                              then CssPx (d_width d) else CssValue (d_width d))]
              else [] in
    let w3 := if cs_height changeSet
              then [(S_height, if Js.is_number (d_height d)
                               then CssPx (d_height d) else CssValue (d_height d))]
              else [] in
    let w4 := if cs_transformOrigin changeSet
              then [(S_transformOrigin,
                     if Js.strict_eq (d_transformOrigin d) (VStr "center")
                     then CssNull else CssValue (d_transformOrigin d))]
              else [] in
    let w5 := if cs_left changeSet || cs_top changeSet || cs_transform changeSet
              then [(S_transform, CssOrtho d)]
              else [] in
    ((w1 ++ w2 ++ w3 ++ w4 ++ w5)%list, updateSubscribers p).

(** *** [get], [save], [getSave] *)

(** [get(position = {})]: [Object.assign(position, this.#data)]. *)
Definition get (position : obj) (p : t) : obj :=
  Obj.assign position (Obj.of_data (data p)).

(** [save({ name, ...extra })] (935-944): the saved object is [extra], a
    fresh object, filled by [get]. *)
Definition save (name : string) (extra : obj) (p : t) : obj * t :=
  let saved := get extra p in
  (saved, with_dataSaved (<[name := saved]> (dataSaved p)) p).

(** [getSave({ name })] (771-776). *)
Definition getSave (name : string) (p : t) : option obj :=
  dataSaved p !! name.

(** *** [set] (969-1161) *)

(** [const targetEl = parent instanceof HTMLElement ? parent : parent?.elementTarget;
     const el = targetEl instanceof HTMLElement && targetEl.isConnected ? targetEl : void 0;] *)
Definition target_element (els : nat -> Element) (parent : Parent)
    : option nat :=
  let targetEl := match parent with
                  | ParentUndefined => None
                  | ParentHTMLElement e => Some e
                  | ParentObject _ elementTarget _ _ => elementTarget
                  end in
  match targetEl with
  | Some e => if el_isConnected (els e) then Some e else None
  | None => None
  end.

(** [parent !== void 0 && typeof parent?.options?.positionable === 'boolean'
     && !parent?.options?.positionable] *)
Definition not_positionable (parent : Parent) : bool :=
  match parent with
  | ParentObject (Some false) _ _ _ => true
  | _ => false
  end.

(** 994-998: [if (!styleCache.hasData(el)) { styleCache.update(el); changeSet.set(true); }] *)
Definition cache_style (els : nat -> Element) (el : nat) (p : t) : t :=
  if StyleCache.hasData el (styleCache p) then p
  else with_positionChangeSet (ChangeSet.set true)
         (with_styleCache (StyleCache.update el (els el)) p).

(** What a call of [set] leaves behind: the caller's [position] object (the
    blocks normalise it in place when there is no element), the instance and
    the update manager. *)
Record result : Type := mkResult {
  r_position : obj;
  r_this : t;
  r_manager : UpdateElementManager.t
}.

Definition set (self : nat) (els : nat -> Element) (position : obj) (p : t)
    (u : UpdateElementManager.t) : result :=
  if not_positionable (parent p) then mkResult position p u
  else
    match target_element els (parent p) with
    | Some el =>
        let p := cache_style els el p in
        match updatePosition els position el p with
        | None => mkResult position p u
        | Some validated =>
            let s := set_fields
                       (mkSetState validated (data p) (positionChangeSet p)) in
            let p := with_positionChangeSet (ss_changeSet s)
                       (with_data (ss_data s) p) in
            let p := match defaultData p with
                     | None => with_defaultData
                                 (Some (Obj.assign [] (Obj.of_data (data p)))) p
                     | Some _ => p
                     end in
            let '(u, promise) := UpdateElementManager.add el self u in
            mkResult position (with_updateElementPromise (Some promise) p) u
        end
    | None =>
        let s := set_fields
                   (mkSetState position (data p) (positionChangeSet p)) in
        let p := with_positionChangeSet (ss_changeSet s)
                   (with_data (ss_data s) p) in
        mkResult (ss_position s) (updateSubscribers p) u
    end.

(** The object handed to [set]: a fresh literal, or the very object stored
    under [name] by [save] (as returned by [save] / [getSave]), in which case
    what [set] writes into its argument is written into the stored
    snapshot.  [set(undefined)] falls back to the default parameter [{}]. *)
Inductive argument : Type :=
| Literal (o : obj)
| Snapshot (name : string).

Definition set_argument (self : nat) (els : nat -> Element) (a : argument)
    (p : t) (u : UpdateElementManager.t) : t * UpdateElementManager.t :=
  match a with
  | Literal o => let r := set self els o p u in (r_this r, r_manager r)
  | Snapshot name =>
      match getSave name p with
      | Some o =>
          let r := set self els o p u in
          (with_dataSaved (<[name := r_position r]> (dataSaved (r_this r)))
                          (r_this r),
           r_manager r)
      | None => let r := set self els [] p u in (r_this r, r_manager r)
      end
  end.

(** *** [reset] (797-821) *)

Definition reset (keepZIndex invokeSet : bool) (self : nat)
    (els : nat -> Element) (p : t) (u : UpdateElementManager.t)
    : bool * t * UpdateElementManager.t :=
  match defaultData p with
  | None => (false, p, u)
  | Some default =>
      if negb (Nat.eqb (length (currentAnimationKeys p)) 0) then (false, p, u)
      else
        let zIndex := d_zIndex (data p) in
        let d := Obj.assign [] default in
        let d := if keepZIndex then Obj.put K_zIndex zIndex d else d in
        let d := fold_left (fun d k => Obj.del k d) (currentAnimationKeys p) d in
        let p := match parent p with
                 | ParentObject _ _ true true =>
                     with_maximizeCalls (S (maximizeCalls p)) p
                 | _ => p
                 end in
        if invokeSet
        then let r := set self els d p u in (true, r_this r, r_manager r)
        else (true, p, u)
  end.

(** *** The constructor (184-349) *)

(** The value the constructor stores for option [k], if it accepts it. *)
Definition seed_value (k : key) (v : value) : option value :=
  match k with
  | K_height | K_width =>
      if Js.isFinite v || Js.is_auto v || Js.is_null v
      then Some (if Js.is_number v then Js.round v else v) else None
  | K_left | K_maxHeight | K_maxWidth | K_minHeight | K_minWidth | K_top
  | K_zIndex =>
      if Js.isFinite v || Js.is_null v
      then Some (if Js.is_number v then Js.round v else v) else None
  | K_rotateX | K_rotateY | K_rotateZ | K_scale
  | K_translateX | K_translateY | K_translateZ =>
      if Js.isFinite v || Js.is_null v then Some v else None
  | K_transformOrigin =>
      if Js.is_string v && transformOrigins_includes v then Some v else None
  end.

Definition seed (options : obj) (d : PositionData) : PositionData :=
  fold_left (fun d k => match seed_value k (Obj.read options k) with
                        | Some v => setf k v d
                        | None => d
                        end) all_keys d.

(** [options.initial]: absent, present without the two functions, or a
    helper. *)
Inductive initialOption : Type :=
| InitialAbsent
| InitialMalformed
| InitialGiven (h : InitialHelper).

(** Modelled from the spec: [AdapterValidators.add] (AdapterValidators.js is
    not among the sources).  Section 3: entries are ordered ascending by
    weight, a new entry going after those of the same weight. *)
Fixpoint validators_add (entry : ValidatorEntry) (vs : list ValidatorEntry)
    : list ValidatorEntry :=
  match vs with
  | [] => [entry]
  | x :: rest =>
      if Qle_bool (ve_weight x) (ve_weight entry)
      then x :: validators_add entry rest
      else entry :: x :: rest
  end.

Definition new (parent : Parent) (options : obj)
    (calculateTransform : option bool) (initial : initialOption)
    (validator : list ValidatorEntry) : completion t :=
  let d := seed options PositionData_new in
  let dimension :=
    (match seed_value K_width (Obj.read options K_width) with
     | Some v => v | None => VNum Num.zero end,
     match seed_value K_height (Obj.read options K_height) with
     | Some v => v | None => VNum Num.zero end) in
  match initial with
  | InitialMalformed =>
      Throw (Error "'options.initial' position helper does not contain 'getLeft' and / or 'getTop' functions.")
  | _ =>
      Normal
        (mk d [] ∅ None dimension (ChangeSet.set false)
            (match calculateTransform with Some b => b | None => false end)
            (match initial with InitialGiven h => Some h | _ => None end)
            false parent StyleCache.empty [] None
            (fold_left (fun vs entry => validators_add entry vs) validator [])
            [] 0)
  end.

(** *** [toJSON] (781-784) and [remove] (832-840) *)

Definition toJSON (p : t) : obj := Obj.assign [] (Obj.of_data (data p)).

(** [remove({ name })]: the stored object, or [None] for [undefined]. *)
Definition remove (name : value) (p : t) : completion (option obj * t) :=
  match name with
  | VStr name =>
      let saved := dataSaved p !! name in
      Normal (saved, with_dataSaved (delete name (dataSaved p)) p)
  | _ => Throw (TypeError "Position - remove: 'name' is not a string.")
  end.

(** *** [subscribe] (1170-1182) *)

(** A handler is known by its identity.  [subscribe] pushes it and calls it
    with a copy of the data; what it returns is [unsubscribe handler]. *)
Definition subscribe (handler : nat) (p : t) : t :=
  let p := with_subscriptions (subscriptions p ++ [handler])%list p in
  with_notified (notified p ++ [(handler, data p)])%list p.

(** [subscriptions.findIndex((sub) => sub === handler)] *)
Fixpoint findIndex (handler : nat) (subscriptions : list nat) : option nat :=
  match subscriptions with
  | [] => None
  | sub :: rest =>
      if Nat.eqb sub handler then Some 0
      else option_map S (findIndex handler rest)
  end.

(** [if (index >= 0) { this.#subscriptions.splice(index, 1); }] *)
Definition unsubscribe (handler : nat) (p : t) : t :=
  match findIndex handler (subscriptions p) with
  | Some index =>
      with_subscriptions
        (take index (subscriptions p) ++ drop (S index) (subscriptions p))%list
        p
  | None => p
  end.

(** *** The setter [parent] (407-416)

    [this.set(this.#data)] hands [set] the canonical object itself.  With a
    connected element [#updatePosition] reads its fields and goes on with
    the fresh object made by [get], so the call is [set] on the field
    values.  Without one the blocks (1006-1144) run with [position] and
    [data] the same object: a write to [position.k] is a write to [data.k],
    and [data.k !== position.k] compares a value with itself, which holds
    for NaN only. *)
Definition assign_own (k : key) (v : value)
    (s : PositionData * PositionChangeSet) : PositionData * PositionChangeSet :=
  (setf k v (fst s), snd s).

Definition store_own (k : key) (s : PositionData * PositionChangeSet)
    : PositionData * PositionChangeSet :=
  if Js.strict_ne (getf (fst s) k) (getf (fst s) k)
  then (setf k (getf (fst s) k) (fst s), ChangeSet.flag (bit_of k) (snd s))
  else s.

Definition set_field_own (k : key) (s : PositionData * PositionChangeSet)
    : PositionData * PositionChangeSet :=
  let v := getf (fst s) k in
  match k with
  | K_left | K_top | K_zIndex =>
      if Js.is_number v then store_own k (assign_own k (Js.round v) s) else s
  | K_maxHeight | K_maxWidth | K_minHeight | K_minWidth =>
      if Js.isFinite v || Js.is_null v
      then store_own k
             (assign_own k (if Js.is_number v then Js.round v else VNull) s)
      else s
  | K_rotateX | K_rotateY | K_rotateZ
  | K_translateX | K_translateY | K_translateZ =>
      if Js.is_number v || Js.is_null v then store_own k s else s
  | K_scale =>
      if Js.is_number v || Js.is_null v
      then store_own k
             (assign_own k (if Js.is_number v then Js.clamp_scale v else VNull) s)
      else s
  | K_transformOrigin =>
      if Js.is_string v || Js.is_null v
      then store_own k
             (assign_own k (if transformOrigins_includes v then v else VNull) s)
      else s
  | K_width | K_height =>
      if Js.is_number v || Js.is_auto v || Js.is_null v
      then store_own k (assign_own k (if Js.is_number v then Js.round v else v) s)
      else s
  end.

(** [this.set(this.#data)] *)
Definition set_own (self : nat) (els : nat -> Element) (p : t)
    (u : UpdateElementManager.t) : t * UpdateElementManager.t :=
  if not_positionable (parent p) then (p, u)
  else
    match target_element els (parent p) with
    | Some _ =>
        let r := set self els (Obj.of_data (data p)) p u in
        (r_this r, r_manager r)
    | None =>
        let s := fold_left (fun s k => set_field_own k s) set_order
                           (data p, positionChangeSet p) in
        (updateSubscribers
           (with_positionChangeSet (snd s) (with_data (fst s) p)), u)
    end.

(** [this.#parent = parent; this.#defaultData = void 0;
     this.#styleCache.reset(); this.set(this.#data);]
    ([StyleCache.reset] forgets the cached element.) *)
Definition set_parent (self : nat) (els : nat -> Element) (parent : Parent)
    (p : t) (u : UpdateElementManager.t) : t * UpdateElementManager.t :=
  let p := with_parent parent p in
  let p := with_defaultData None p in
  let p := with_styleCache StyleCache.empty p in
  set_own self els p u.

End Position.


(** ** Animation tasks and the shared world *)

(** The [animationData] object built by [Position.animateTo] and worked on
    by [AnimationManager].  [a_el] is the [el] property the manager reads;
    [a_resolved] records that the [resolve] function held by the task was
    called; [a_start] is [None] while [start] is still undefined.  The
    [currentAnimationKeys] property is the very Set of the owning Position
    and is therefore found there. *)
Record AnimationData : Type := mkAnimationData {
  a_current : num;
  a_destination : obj;
  a_duration : num;
  a_easing : value -> value;
  a_el : option nat;
  a_finished : bool;
  a_initial : obj;
  a_interpolate : value -> value -> value -> value;
  a_keys : list key;
  a_newData : obj;
  a_position : nat;
  a_resolved : bool;
  a_start : option num
}.

Definition with_a_timing (start : option num) (current : num)
    (a : AnimationData) : AnimationData :=
  mkAnimationData current (a_destination a) (a_duration a) (a_easing a)
    (a_el a) (a_finished a) (a_initial a) (a_interpolate a) (a_keys a)
    (a_newData a) (a_position a) (a_resolved a) start.

Definition with_a_newData (x : obj) (a : AnimationData) : AnimationData :=
  mkAnimationData (a_current a) (a_destination a) (a_duration a) (a_easing a)
    (a_el a) (a_finished a) (a_initial a) (a_interpolate a) (a_keys a)
    x (a_position a) (a_resolved a) (a_start a).

Definition with_a_finished (x : bool) (a : AnimationData) : AnimationData :=
  mkAnimationData (a_current a) (a_destination a) (a_duration a) (a_easing a)
    (a_el a) x (a_initial a) (a_interpolate a) (a_keys a)
    (a_newData a) (a_position a) (a_resolved a) (a_start a).

Definition with_a_resolved (x : bool) (a : AnimationData) : AnimationData :=
  mkAnimationData (a_current a) (a_destination a) (a_duration a) (a_easing a)
    (a_el a) (a_finished a) (a_initial a) (a_interpolate a) (a_keys a)
    (a_newData a) (a_position a) x (a_start a).


(** A heap: every reference denotes an object. *)
Definition upd {A : Type} (i : nat) (x : A) (h : nat -> A) : nat -> A :=
  fun j => if Nat.eqb j i then x else h j.

(** Position instances, elements and tasks by reference, the two
    module-level lists and [s_PROMISE] of AnimationManager.js, and the
    update manager.  [allocated] is the next free task reference. *)
Record World : Type := mkWorld {
  positions : nat -> Position.t;
  elements : nat -> Element;
  tasks : nat -> AnimationData;
  allocated : nat;
  s_ACTIVE_LIST : list nat;
  s_NEW_LIST : list nat;
  s_PROMISE : bool;
  manager : UpdateElementManager.t
}.

Definition with_position (i : nat) (x : Position.t) (w : World) : World :=
  mkWorld (upd i x (positions w)) (elements w) (tasks w) (allocated w)
          (s_ACTIVE_LIST w) (s_NEW_LIST w) (s_PROMISE w) (manager w).

Definition with_task (i : nat) (x : AnimationData) (w : World) : World :=
  mkWorld (positions w) (elements w) (upd i x (tasks w)) (allocated w)
          (s_ACTIVE_LIST w) (s_NEW_LIST w) (s_PROMISE w) (manager w).

Definition with_lists (active new : list nat) (w : World) : World :=
  mkWorld (positions w) (elements w) (tasks w) (allocated w)
          active new (s_PROMISE w) (manager w).

Definition with_s_PROMISE (x : bool) (w : World) : World :=
  mkWorld (positions w) (elements w) (tasks w) (allocated w)
          (s_ACTIVE_LIST w) (s_NEW_LIST w) x (manager w).

Definition with_manager (x : UpdateElementManager.t) (w : World) : World :=
  mkWorld (positions w) (elements w) (tasks w) (allocated w)
          (s_ACTIVE_LIST w) (s_NEW_LIST w) (s_PROMISE w) x.

(** [position.set(o)] on the instance at reference [i]; returns the object
    [o] as the call leaves it. *)
Definition position_set (i : nat) (o : obj) (w : World) : obj * World :=
  let r := Position.set i (elements w) o (positions w i) (manager w) in
  (Position.r_position r,
   with_manager (Position.r_manager r) (with_position i (Position.r_this r) w)).

(** [list.splice(cntr, 1)] *)
Definition splice1 {A : Type} (cntr : nat) (l : list A) : list A :=
  (take cntr l ++ drop (S cntr) l)%list.

Module AnimationManager.

(** [add(data)] (19-24 of the revision): [animate()] starts and suspends at
    its first [await], so all that is seen is [s_PROMISE] being set. *)
Definition add (data : nat) (w : World) : World :=
  let w := with_lists (s_ACTIVE_LIST w) (s_NEW_LIST w ++ [data])%list w in
  if s_PROMISE w then w else with_s_PROMISE true w.

(** [data.currentAnimationKeys.clear()] *)
Definition clear_keys (data : AnimationData) (w : World) : World :=
  with_position (a_position data)
    (Position.with_currentAnimationKeys [] (positions w (a_position data))) w.

(** [data.resolve()] *)
Definition resolve (id : nat) (w : World) : World :=
  with_task id (with_a_resolved true (tasks w id)) w.

(** "Process new data" (163-176): from the last entry of [s_NEW_LIST] to the
    first, set [start] and [current] and push onto [s_ACTIVE_LIST]. *)
Definition promote (current : num) (w : World) : World :=
  let w := fold_left
             (fun w id =>
                with_lists (s_ACTIVE_LIST w ++ [id])%list (s_NEW_LIST w)
                  (with_task id
                     (with_a_timing (Some current) Num.zero (tasks w id)) w))
             (rev (s_NEW_LIST w)) w in
  with_lists (s_ACTIVE_LIST w) [] w.

(** The final update (198-203, 244-249): from the last key to the first,
    [newData[key] = destination[key]] and
    [currentAnimationKeys.delete(key)]. *)
Definition final_newData (data : AnimationData) : obj :=
  fold_left (fun o k => Obj.put k (Obj.read (a_destination data) k) o)
            (rev (a_keys data)) (a_newData data).

Definition release_keys (data : AnimationData) (w : World) : World :=
  let p := positions w (a_position data) in
  with_position (a_position data)
    (Position.with_currentAnimationKeys
       (fold_left (fun ks k => filter (fun k' => k' <> k) ks)
                  (rev (a_keys data)) (Position.currentAnimationKeys p)) p) w.

(** One turn of the loop over [s_ACTIVE_LIST] (181-222), at index [cntr].
    Reading [isConnected] of a task without [el] throws. *)
Definition process (current : num) (cntr : nat) (w : World)
    : completion World :=
  match s_ACTIVE_LIST w !! cntr with
  | None => Normal w
  | Some id =>
      let data := tasks w id in
      match a_el data with
      | None =>
          Throw (TypeError "Cannot read properties of undefined (reading 'isConnected')")
      | Some el =>
          if negb (el_isConnected (elements w el)) || a_finished data
          then
            let w := with_lists (splice1 cntr (s_ACTIVE_LIST w)) (s_NEW_LIST w) w in
            Normal (resolve id (clear_keys data w))
          else
            let elapsed :=
              match a_start data with
              | Some start => Num.sub current start
              | None => NaN
              end in
            let data := with_a_timing (a_start data) elapsed data in
            if Num.geb (a_current data) (a_duration data)
            then
              let data := with_a_newData (final_newData data) data in
              let w := release_keys data (with_task id data w) in
              let '(o, w) := position_set (a_position data) (a_newData data) w in
              let data := with_a_newData o data in
              let w := with_lists (splice1 cntr (s_ACTIVE_LIST w)) (s_NEW_LIST w) w in
              Normal (resolve id (with_task id (with_a_finished true data) w))
            else
              let easedTime :=
                a_easing data (VNum (Num.div (a_current data) (a_duration data))) in
              let data :=
                with_a_newData
                  (fold_left
                     (fun o k =>
                        Obj.put k (a_interpolate data
                                     (Obj.read (a_initial data) k)
                                     (Obj.read (a_destination data) k)
                                     easedTime) o)
                     (rev (a_keys data)) (a_newData data)) data in
              let '(o, w) := position_set (a_position data) (a_newData data)
                                          (with_task id data w) in
              Normal (with_task id (with_a_newData o data) w)
      end
  end.

(** [for (let cntr = s_ACTIVE_LIST.length; --cntr >= 0;)] *)
Fixpoint process_from (current : num) (n : nat) (w : World)
    : completion World :=
  match n with
  | 0 => Normal w
  | S cntr =>
      match process current cntr w with
      | Normal w => process_from current cntr w
      | Throw e => Throw e
      end
  end.

(** The forced end of the loop (233-258), entered when the awaited frame
    time did not advance. *)
Definition quit_entry (cntr : nat) (w : World) : completion World :=
  match s_ACTIVE_LIST w !! cntr with
  | None => Normal w
  | Some id =>
      let data := tasks w id in
      match a_el data with
      | None =>
          Throw (TypeError "Cannot read properties of undefined (reading 'isConnected')")
      | Some el =>
          if negb (el_isConnected (elements w el)) || a_finished data
          then Normal (resolve id (clear_keys data w))
          else
            let data := with_a_newData (final_newData data) data in
            let w := release_keys data (with_task id data w) in
            let '(o, w) := position_set (a_position data) (a_newData data) w in
            let data := with_a_newData o data in
            Normal (resolve id (with_task id (with_a_finished true data) w))
      end
  end.

Fixpoint quit_from (n : nat) (w : World) : completion World :=
  match n with
  | 0 => Normal w
  | S cntr =>
      match quit_entry cntr w with
      | Normal w => quit_from cntr w
      | Throw e => Throw e
      end
  end.

(** One turn of the [while] loop of [animate] (161-262): [current] is the
    frame time the turn works with, [newCurrent] what the awaited
    [UpdateElementManager.promise] yields.  The result carries the frame
    time of the next turn, or [None] when the loop is left and [s_PROMISE]
    is cleared. *)
Definition animate_turn (current : num) (newCurrent : value) (w : World)
    : completion (World * option num) :=
  match s_ACTIVE_LIST w, s_NEW_LIST w with
  | [], [] => Normal (with_s_PROMISE false w, None)
  | _, _ =>
      let w := promote current w in
      match process_from current (length (s_ACTIVE_LIST w)) w with
      | Throw e => Throw e
      | Normal w =>
          let stalled :=
            match newCurrent with
            | VUndefined => true
            | VNum n => Num.leb n current
            | _ => false
            end in
          if stalled
          then
            match quit_from (length (s_ACTIVE_LIST w)) w with
            | Throw e => Throw e
            | Normal w =>
                Normal (with_s_PROMISE false
                          (with_lists [] (s_NEW_LIST w) w), None)
            end
          else
            Normal (w, match newCurrent with
                       | VNum n => Some n
                       | _ => Some NaN
                       end)
      end
  end.

(** [cancelAll()] (280-302). *)
Definition cancel (id : nat) (w : World) : World :=
  let data := tasks w id in
  let w := clear_keys data w in
  resolve id (with_task id (with_a_finished true (tasks w id)) w).

Definition cancelAll (w : World) : World :=
  let w := fold_left (fun w id => cancel id w) (rev (s_ACTIVE_LIST w)) w in
  let w := fold_left (fun w id => cancel id w) (rev (s_NEW_LIST w)) w in
  with_lists [] [] w.

End AnimationManager.


(** ** [Position.animateTo] (Position.js 656-750) *)

(** The first argument: an object, or anything whose [typeof] is not
    ['object']. *)
Inductive target : Type :=
| AnObject (position : obj)
| NotAnObject (v : value).

(** An option that should be a function: left out (the default applies),
    a function, or some other value. *)
Inductive callable (A : Type) : Type :=
| Omitted
| Function (f : A)
| NotFunction (v : value).
Arguments Omitted {A}.
Arguments Function {A} f.
Arguments NotFunction {A} v.

Record AnimateOptions : Type := mkAnimateOptions {
  opt_duration : value;
  opt_easing : callable (value -> value);
  opt_interpolate : callable (value -> value -> value -> value)
}.

(** The promise an [async] function hands back. *)
Inductive promise : Type :=
| Fulfilled
| Rejected (e : error)
| Pending (task : nat).

Definition with_allocated (x : nat) (w : World) : World :=
  mkWorld (positions w) (elements w) (tasks w) x
          (s_ACTIVE_LIST w) (s_NEW_LIST w) (s_PROMISE w) (manager w).

(** [linear] of svelte/easing is the identity. *)
Definition linear (t : value) : value := t.

(** 691-698: for each key of [position] whose canonical value is defined and
    differs, record the pair ([initial], [destination]). *)
Definition collect (d : PositionData) (position : obj) : obj * obj :=
  fold_left
    (fun acc kv =>
       let k := fst kv in
       if Js.strict_ne (getf d k) VUndefined
          && Js.strict_ne (Obj.read position k) (getf d k)
       then (Obj.put k (getf d k) (fst acc),
             Obj.put k (Obj.read position k) (snd acc))
       else acc)
    position ([], []).

(** 701-715: [null] becomes 0 for rotation and translation, 1 for scale. *)
Definition neutral (o : obj) : obj :=
  let zero k (o : obj) :=
    if Js.is_null (Obj.read o k) then Obj.put k (VNum Num.zero) o else o in
  let o := zero K_rotateX o in
  let o := zero K_rotateY o in
  let o := zero K_rotateZ o in
  let o := zero K_translateX o in
  let o := zero K_translateY o in
  let o := zero K_translateZ o in
  if Js.is_null (Obj.read o K_scale) then Obj.put K_scale (VNum Num.one) o
  else o.

(** 719-723: drop what is not a finite number or is being animated, add the
    rest to [currentAnimationKeys]. *)
Definition retain (initial : obj) (animating : list key) : obj * list key :=
  fold_left
    (fun acc k =>
       if negb (Js.isFinite (Obj.read (fst acc) k))
          || bool_decide (k ∈ snd acc)
       then (Obj.del k (fst acc), snd acc)
       else (fst acc, (snd acc ++ [k])%list))
    (Obj.keys initial) (initial, animating).

Section AnimateTo.

(** [lerp] of the package's math module, the default interpolation. *)
Variable lerp : value -> value -> value -> value.

(** The body of [animateTo]; it contains no [await]. *)
Definition animateTo_body (self : nat) (position : target)
    (opts : AnimateOptions) (w : World) : completion (World * promise) :=
  match position with
  | NotAnObject _ =>
      Throw (TypeError "Position - animateTo error: 'position' is not an object.")
  | AnObject position =>
      let this := positions w self in
      if Position.not_positionable (Position.parent this)
      then Normal (w, Fulfilled)
      else
        let duration := match opt_duration opts with
                        | VUndefined => VNum (Num.of_Z 1000)
                        | v => v
                        end in
        if negb (Js.isInteger duration)
           || match duration with VNum n => Num.ltb n Num.zero | _ => false end
        then Throw (TypeError "Position - animateTo error: 'duration' is not a positive integer.")
        else
          match opt_easing opts, opt_interpolate opts with
          | NotFunction _, _ =>
              Throw (TypeError "Position - animateTo error: 'easing' is not a function.")
          | _, NotFunction _ =>
              Throw (TypeError "Position - animateTo error: 'interpolate' is not a function.")
          | easing, interpolate =>
              let easing := match easing with Function f => f | _ => linear end in
              let interpolate :=
                match interpolate with Function f => f | _ => lerp end in
              let '(initial, destination) :=
                collect (Position.data this) position in
              let initial := neutral initial in
              let destination := neutral destination in
              let '(initial, animating) :=
                retain initial (Position.currentAnimationKeys this) in
              let newData := Obj.assign [] initial in
              let keys := Obj.keys newData in
              match keys with
              | [] => Normal (w, Fulfilled)
              | _ :: _ =>
                  let w := with_position self
                             (Position.with_currentAnimationKeys animating this) w in
                  let id := allocated w in
                  let animationData :=
                    mkAnimationData Num.zero destination
                      (match duration with VNum n => n | _ => NaN end)
                      easing None false initial interpolate keys newData self
                      false None in
                  let w := with_allocated (S id) (with_task id animationData w) in
                  Normal (AnimationManager.add id w, Pending id)
              end
          end
  end.

(** [animateTo] is declared [async]: the call itself completes normally and
    an exception of the body comes back as a rejected promise. *)
Definition animateTo (self : nat) (position : target) (opts : AnimateOptions)
    (w : World) : completion (World * promise) :=
  match animateTo_body self position opts w with
  | Normal r => Normal r
  | Throw e => Normal (w, Rejected e)
  end.

End AnimateTo.

(** ** [Position.restore] (Position.js 871-922) *)

(** What [restore] returns: the saved object ([None] for [undefined]), or,
    with [async], the promise [animateTo(...).then(() => dataSaved)], which
    settles as the promise of [animateTo] does. *)
Inductive restored : Type :=
| Returned (dataSaved : option obj)
| Promised (animation : promise) (dataSaved : obj).

(** The parameters of [restore] besides [name]; [properties] is [Some l]
    when it is iterable, [l] listing the position keys it yields. *)
Record RestoreOptions : Type := mkRestoreOptions {
  ro_remove : bool;
  ro_properties : option (list key);
  ro_silent : bool;
  ro_async : bool;
  ro_animateTo : bool;
  ro_duration : value;
  ro_easing : callable (value -> value);
  ro_interpolate : callable (value -> value -> value -> value)
}.

Section Restore.

Variable lerp : value -> value -> value -> value.

(** [this.#stores.transformOrigin.set(v)], the writable store made by
    [propertyStore] of the store package for the instance at a reference. *)
Variable transformOrigin_store_set : nat -> value -> World -> World.

(** The setter [transformOrigin] (596-599). *)
Definition transformOrigin_setter (self : nat) (transformOrigin : value)
    (w : World) : World :=
  if transformOrigins_includes transformOrigin
  then transformOrigin_store_set self transformOrigin w
  else w.

Definition restore (self : nat) (name : value) (opts : RestoreOptions)
    (w : World) : completion (World * restored) :=
  match name with
  | VStr name =>
      let this := positions w self in
      match Position.dataSaved this !! name with
      | None => Normal (w, Returned None)
      | Some dataSaved =>
          let w :=
            if ro_remove opts
            then with_position self
                   (Position.with_dataSaved
                      (delete name (Position.dataSaved this)) this) w
            else w in
          let this := positions w self in
          (* let data = dataSaved;
             if (isIterable(properties))
             { data = {}; ... data[property] = dataSaved[property]; } *)
          let data :=
            match ro_properties opts with
            | Some properties =>
                fold_left (fun o k => Obj.put k (Obj.read dataSaved k) o)
                          properties []
            | None => dataSaved
            end in
          if ro_silent opts
          then
            (* for (const property in data) { this.#data[property] = data[property]; } *)
            let d := fold_left (fun d kv => setf (fst kv) (snd kv) d)
                               data (Position.data this) in
            Normal (with_position self (Position.with_data d this) w,
                    Returned (Some dataSaved))
          else if ro_animateTo opts
          then
            let w :=
              if Js.strict_ne (Obj.read data K_transformOrigin)
                              (d_transformOrigin (Position.data this))
              then transformOrigin_setter self (Obj.read data K_transformOrigin) w
              else w in
            match animateTo lerp self (AnObject data)
                    (mkAnimateOptions
                       (match ro_duration opts with
                        | VUndefined => VNum (Num.of_Z 100)
                        | v => v
                        end)
                       (ro_easing opts) (ro_interpolate opts)) w with
            | Throw e => Throw e
            | Normal (w, animation) =>
                Normal (w, if ro_async opts
                           then Promised animation dataSaved
                           else Returned (Some dataSaved))
            end
          else
            let '(o, w) := position_set self data w in
            match ro_properties opts with
            | Some _ => Normal (w, Returned (Some dataSaved))
            | None =>
                (* [data] is the stored object: what [set] wrote into it is
                   seen in the map, unless the entry was removed, and in
                   the object returned. *)
                let w :=
                  if ro_remove opts then w
                  else with_position self
                         (Position.with_dataSaved
                            (<[name := o]>
                               (Position.dataSaved (positions w self)))
                            (positions w self)) w in
                Normal (w, Returned (Some o))
            end
      end
  | _ => Throw (TypeError "Position - restore error: 'name' is not a string.")
  end.

End Restore.



(** ** What the field blocks of [set] accept *)

(** The value the block of [set] for key [k] stores when [position.k] is
    [v]; [None] when the block is skipped. *)
Definition accepted (k : key) (v : value) : option value :=
  match k with
  | K_left | K_top | K_zIndex =>
      if Js.is_number v then Some (Js.round v) else None
  | K_maxHeight | K_maxWidth | K_minHeight | K_minWidth =>
      if Js.isFinite v || Js.is_null v
      then Some (if Js.is_number v then Js.round v else VNull) else None
  | K_rotateX | K_rotateY | K_rotateZ
  | K_translateX | K_translateY | K_translateZ =>
      if Js.is_number v || Js.is_null v then Some v else None
  | K_scale =>
      if Js.is_number v || Js.is_null v
      then Some (if Js.is_number v then Js.clamp_scale v else VNull) else None
  | K_transformOrigin =>
      if Js.is_string v || Js.is_null v
      then Some (if transformOrigins_includes v then v else VNull) else None
  | K_width | K_height =>
      if Js.is_number v || Js.is_auto v || Js.is_null v
      then Some (if Js.is_number v then Js.round v else v) else None
  end.

(** Canonical data on which the blocks of [set] change nothing: every
    field the blocks would accept comes back strictly equal. *)
Definition settled (d : PositionData) : Prop :=
  forall k, match accepted k (getf d k) with
            | Some v => Js.strict_eq (getf d k) v = true
            | None => True
            end.

(** The value a run of blocks leaves in [data.k]. *)
Definition stored (k : key) (s : Position.SetState) : value :=
  match accepted k (Obj.read (Position.ss_position s) k) with
  | Some v => if Js.strict_ne (getf (Position.ss_data s) k) v then v
              else getf (Position.ss_data s) k
  | None => getf (Position.ss_data s) k
  end.

(** ** Sample states *)

(** An element that is not in the document, and one that is: 300 by 200
    pixels, with an inline width and no other inline style read by [set]. *)
Definition detached : Element :=
  mkElement false "" "" "" "" 0 0 VUndefined VUndefined VUndefined VUndefined
            VUndefined VUndefined.

Definition box : Element :=
  mkElement true "" "" "300px" "" 300 200 VUndefined VUndefined VUndefined
            VUndefined VUndefined VUndefined.

Definition no_elements : nat -> Element := fun _ => detached.
Definition one_box : nat -> Element := fun _ => box.

(** A host object whose [elementTarget] is element 0. *)
Definition host : Parent := ParentObject None (Some 0) false false.

(** [new Position()], and [new Position(host)] with one subscriber. *)
Definition bare : Position.t :=
  Position.mk PositionData_new [] ∅ None (VNum Num.zero, VNum Num.zero)
    (ChangeSet.set false) false None false ParentUndefined StyleCache.empty
    [] None [] [] 0.

Definition hosted : Position.t :=
  Position.with_subscriptions [7] (Position.with_parent host bare).

(** A validator that vetoes every update. *)
Definition veto : ValidatorEntry :=
  mkValidatorEntry VUndefined (fun _ => None) 1.

Definition guarded : Position.t :=
  Position.mk PositionData_new [] ∅ None (VNum Num.zero, VNum Num.zero)
    (ChangeSet.set false) false None false host StyleCache.empty
    [] None [veto] [] 0.

(** [new Position(undefined, { scale: 5000 })]. *)
Definition oversized : Position.t :=
  Position.with_data (setf K_scale (VNum (Fin 5000)) PositionData_new) bare.

(** A run of [set] calls on one instance. *)
Definition set_all (self : nat) (els : nat -> Element) (args : list Position.argument)
    (p : Position.t) (u : UpdateElementManager.t)
    : Position.t * UpdateElementManager.t :=
  fold_left (fun st a => Position.set_argument self els a (fst st) (snd st))
            args (p, u).

(** A task that moves [left] to [destination] over 100 ms, started at frame
    time 0 for the instance at reference 0, with element 0. *)
Definition slide (destination : value) : AnimationData :=
  mkAnimationData Num.zero [(K_left, destination)] (Num.of_Z 100) linear
    (Some 0) false [(K_left, VNum Num.zero)] (fun a b t => a) [K_left]
    [(K_left, VNum Num.zero)] 0 false (Some Num.zero).

(** One instance [owner], with [left] and [top] at 0 and [left] being
    animated by the task at reference 0, which is in the active list;
    element 0 is connected. *)
Definition sliding (owner : Position.t) (destination : value) : World :=
  mkWorld
    (fun _ => Position.with_currentAnimationKeys [K_left]
                (Position.with_data
                   (setf K_top (VNum Num.zero)
                      (setf K_left (VNum Num.zero) PositionData_new))
                   owner))
    one_box (fun _ => slide destination) 1 [0] [] true
    UpdateElementManager.empty.

(** The instance of [hosted] after its first [set({})] on the box and the
    frame that follows it.  The call measures [height] 200 and leaves
    [width] [null]; the frame assigns both to the inline style (1269,
    1275), so that the box then has the inline height 200px and no inline
    width: [plain_box]. *)
Definition rendered : Position.t :=
  snd (Position.updateElementNew one_box 0
         (Position.r_this (Position.set 0 one_box [] hosted
                                        UpdateElementManager.empty))).

Definition plain_box : Element :=
  mkElement true "" "" "" "200px" 300 200 VUndefined VUndefined VUndefined
            VUndefined VUndefined VUndefined.

Definition one_plain_box : nat -> Element := fun _ => plain_box.

(** [rendered] after a later [set({ width: 300 })] and its frame, and
    [rendered] after a later [set({ left: 150, zIndex: 100 })] and its
    frame, both on [plain_box].  Either call ends with [width] 300, the
    second one by measuring the box, and its frame writes the inline width
    back. *)
Definition sized : Position.t :=
  snd (Position.updateElementNew one_plain_box 0
         (Position.r_this
            (Position.set 0 one_plain_box [(K_width, VNum (Fin 300))] rendered
                          UpdateElementManager.empty))).

Definition moved : Position.t :=
  snd (Position.updateElementNew one_plain_box 0
         (Position.r_this
            (Position.set 0 one_plain_box
               [(K_left, VNum (Fin 150)); (K_zIndex, VNum (Fin 100))]
               rendered UpdateElementManager.empty))).

(** The checks [animateTo] makes on its options (670-683), on the values
    in force after the defaults. *)
Definition duration_in_force (opts : AnimateOptions) : value :=
  match opt_duration opts with
  | VUndefined => VNum (Num.of_Z 1000)
  | v => v
  end.

Definition is_function {A : Type} (c : callable A) : bool :=
  match c with NotFunction _ => false | _ => true end.

Definition well_formed (opts : AnimateOptions) : bool :=
  Js.isInteger (duration_in_force opts)
  && negb (match duration_in_force opts with
           | VNum n => Num.ltb n Num.zero
           | _ => false
           end)
  && is_function (opt_easing opts)
  && is_function (opt_interpolate opts).

(** A world with one idle instance, and an interpolation that jumps to the
    end value. *)
Definition idle : World :=
  mkWorld (fun _ => bare) no_elements (fun _ => slide VNull) 0 [] [] false
          UpdateElementManager.empty.

Definition jump (a b t : value) : value := b.



(** A world with one instance at rest, [left] and [top] at 0, and no task. *)
Definition resting : World :=
  mkWorld
    (fun _ => Position.with_data
                (setf K_top (VNum Num.zero)
                   (setf K_left (VNum Num.zero) PositionData_new)) hosted)
    one_box (fun _ => slide VNull) 0 [] [] false UpdateElementManager.empty.

(** ** Sets of values the fields take *)

(** A number without a fractional part: an integer, NaN or an infinity;
    these are the numbers [Math.round] returns. *)
Definition whole (v : value) : bool :=
  match v with
  | VNum (Fin q) => Qeq_bool q (inject_Z (Qfloor q))
  | VNum _ => true
  | _ => false
  end.

(** [0 <= v <= 1000] or NaN: the numbers
    [Math.max(0, Math.min(v, 1000))] returns. *)
Definition in_scale_range (v : value) : bool :=
  match v with
  | VNum (Fin q) => Qle_bool 0 q && Qle_bool q (inject_Z 1000)
  | VNum NaN => true
  | _ => false
  end.

(** The form of a value a block of [set] stores for key [k]. *)
Definition shaped (k : key) (v : value) : bool :=
  match k with
  | K_left | K_top | K_zIndex => whole v
  | K_maxHeight | K_maxWidth | K_minHeight | K_minWidth =>
      Js.is_null v || Js.isInteger v
  | K_rotateX | K_rotateY | K_rotateZ
  | K_translateX | K_translateY | K_translateZ =>
      Js.is_null v || Js.is_number v
  | K_scale => Js.is_null v || in_scale_range v
  | K_transformOrigin => Js.is_null v || transformOrigins_includes v
  | K_width | K_height => Js.is_null v || Js.is_auto v || whole v
  end.

(** The form of the value the constructor leaves in field [k]. *)
Definition seeded (k : key) (v : value) : bool :=
  match k with
  | K_left | K_top | K_zIndex
  | K_maxHeight | K_maxWidth | K_minHeight | K_minWidth =>
      Js.is_null v || Js.isInteger v
  | K_rotateX | K_rotateY | K_rotateZ | K_scale
  | K_translateX | K_translateY | K_translateZ =>
      Js.is_null v || Js.isFinite v
  | K_transformOrigin => transformOrigins_includes v
  | K_width | K_height => Js.is_null v || Js.is_auto v || Js.isInteger v
  end.

(** Whether the block of [set] for key [k] stores a value: [position.k] is
    accepted and what it becomes differs from [data.k]. *)
Definition changed (k : key) (s : Position.SetState) : bool :=
  match accepted k (Obj.read (Position.ss_position s) k) with
  | Some v => Js.strict_ne (getf (Position.ss_data s) k) v
  | None => false
  end.

(** ** What a step of the animation loop preserves *)

(** From [w] to [w']: the elements are the same, no task changes its
    element, keys or Position, a resolved task stays resolved, and no
    Position gets a field added to its currently-animating set. *)
Definition advances (w w' : World) : Prop :=
  elements w' = elements w /\
  (forall id, a_el (tasks w' id) = a_el (tasks w id) /\
              a_keys (tasks w' id) = a_keys (tasks w id) /\
              a_position (tasks w' id) = a_position (tasks w id)) /\
  (forall id, a_resolved (tasks w id) = true ->
              a_resolved (tasks w' id) = true) /\
  (forall i k, k ∈ Position.currentAnimationKeys (positions w' i) ->
               k ∈ Position.currentAnimationKeys (positions w i)).


(** The task is over: its promise is resolved and none of its keys is
    reserved in its Position. *)
Definition released (w : World) (id : nat) : Prop :=
  a_resolved (tasks w id) = true /\
  forall k, k ∈ a_keys (tasks w id) ->
    k ∉ Position.currentAnimationKeys (positions w (a_position (tasks w id))).

(** The frame time awaited by [animate] did not advance:
    [newCurrent === void 0 || newCurrent <= current]. *)
Definition stalled (current : num) (newCurrent : value) : bool :=
  match newCurrent with
  | VUndefined => true
  | VNum n => Num.leb n current
  | _ => false
  end.

(** The same value: identical, or strictly equal (numbers held by different
    fractions). *)
Definition same_value (a b : value) : Prop :=
  a = b \/ Js.strict_eq a b = true.

(** * Properties *)

Arguments Position.set_fields : simpl never.
Arguments Position.set_field : simpl never.
Arguments Position.prepare : simpl never.
Arguments Position.updatePosition : simpl never.
Arguments Position.updateSubscribers : simpl never.
Arguments Position.cache_style : simpl never.
Arguments Position.set : simpl never.
Arguments Js.round : simpl never.
Arguments Js.clamp_scale : simpl never.
Arguments Js.strict_eq : simpl never.
Arguments Num.of_Z : simpl never.
Arguments transformOrigins_includes : simpl never.

(** ** Objects and records *)

Lemma getf_setf (k k' : key) (v : value) (d : PositionData) :
  getf (setf k v d) k' = if decide (k' = k) then v else getf d k'.
Proof. destruct k, k'; reflexivity. Qed.

Lemma getf_setf_eq (k : key) (v : value) (d : PositionData) :
  getf (setf k v d) k = v.
Proof. rewrite getf_setf. destruct (decide (k = k)); congruence. Qed.

Lemma getf_setf_ne (k k' : key) (v : value) (d : PositionData) :
  k' <> k -> getf (setf k v d) k' = getf d k'.
Proof. intros H. rewrite getf_setf. destruct (decide (k' = k)); congruence. Qed.

Lemma lookup_put (k k' : key) (v : value) (o : obj) :
  Obj.lookup (Obj.put k v o) k' =
  if decide (k = k') then Some v else Obj.lookup o k'.
Proof.
  induction o as [|[k0 v0] o IH]; simpl.
  - destruct (decide (k = k')); reflexivity.
  - destruct (decide (k0 = k)) as [->|Hne]; simpl.
    + destruct (decide (k = k')); reflexivity.
    + destruct (decide (k0 = k')) as [->|Hne'].
      * destruct (decide (k = k')); congruence.
      * exact IH.
Qed.

Lemma read_put_eq (k : key) (v : value) (o : obj) :
  Obj.read (Obj.put k v o) k = v.
Proof.
  unfold Obj.read. rewrite lookup_put.
  destruct (decide (k = k)); congruence.
Qed.

Lemma read_put_ne (k k' : key) (v : value) (o : obj) :
  k <> k' -> Obj.read (Obj.put k v o) k' = Obj.read o k'.
Proof.
  intros H. unfold Obj.read. rewrite lookup_put.
  destruct (decide (k = k')); congruence.
Qed.

Lemma put_lookup_same (k : key) (v : value) (o : obj) :
  Obj.lookup o k = Some v -> Obj.put k v o = o.
Proof.
  induction o as [|[k0 v0] o IH]; simpl; [discriminate|].
  destruct (decide (k0 = k)) as [->|Hne]; intros H.
  - congruence.
  - f_equal. auto.
Qed.

Lemma put_read_same (k : key) (o : obj) :
  Obj.read o k <> VUndefined -> Obj.put k (Obj.read o k) o = o.
Proof.
  unfold Obj.read. intros H. apply put_lookup_same.
  destruct (Obj.lookup o k); congruence.
Qed.


Lemma lookup_None_keys (o : obj) (k : key) :
  Obj.lookup o k = None <-> k ∉ Obj.keys o.
Proof.
  unfold Obj.keys. induction o as [|[k0 v0] o IH]; simpl.
  - split; [intros _; apply not_elem_of_nil | reflexivity].
  - rewrite not_elem_of_cons.
    destruct (decide (k0 = k)) as [->|Hne].
    + split; [discriminate | intros [H _]; congruence].
    + rewrite IH. split; [intros H; split; [congruence | exact H] | tauto].
Qed.

Lemma keys_put (k : key) (v : value) (o : obj) :
  Obj.keys (Obj.put k v o) =
  if bool_decide (k ∈ Obj.keys o) then Obj.keys o
  else (Obj.keys o ++ [k])%list.
Proof.
  unfold Obj.keys. induction o as [|[k0 v0] o IH]; simpl.
  - reflexivity.
  - destruct (decide (k0 = k)) as [->|Hne]; simpl.
    + rewrite bool_decide_eq_true_2 by apply list_elem_of_here. reflexivity.
    + rewrite IH.
      destruct (bool_decide (k ∈ map fst o)) eqn:E.
      * apply bool_decide_eq_true_1 in E.
        rewrite bool_decide_eq_true_2 by (apply list_elem_of_further; exact E).
        reflexivity.
      * apply bool_decide_eq_false_1 in E.
        rewrite bool_decide_eq_false_2; [reflexivity|].
        rewrite elem_of_cons. intros [H|H]; congruence.
Qed.

Lemma keys_put_NoDup (k : key) (v : value) (o : obj) :
  NoDup (Obj.keys o) -> NoDup (Obj.keys (Obj.put k v o)).
Proof.
  intros H. rewrite keys_put.
  destruct (bool_decide (k ∈ Obj.keys o)) eqn:E; [exact H|].
  apply bool_decide_eq_false_1 in E.
  apply NoDup_app. split; [exact H|]. split.
  - intros x Hx Hx'. apply list_elem_of_singleton in Hx'. subst. contradiction.
  - apply NoDup_singleton.
Qed.

Lemma read_of_data (d : PositionData) (k : key) :
  Obj.read (Obj.of_data d) k = getf d k.
Proof. destruct k; reflexivity. Qed.

Lemma assign_of_data (d : PositionData) :
  Obj.assign [] (Obj.of_data d) = Obj.of_data d.
Proof. reflexivity. Qed.

Lemma lookup_assign_of_data (o : obj) (d : PositionData) (k : key) :
  Obj.lookup (Obj.assign o (Obj.of_data d)) k = Some (getf d k).
Proof.
  unfold Obj.assign, Obj.of_data, all_keys; simpl.
  repeat rewrite lookup_put.
  destruct k; reflexivity.
Qed.

(** ** The field blocks of [set] *)

Lemma SetState_eta (s : Position.SetState) :
  Position.mkSetState (Position.ss_position s) (Position.ss_data s)
                      (Position.ss_changeSet s) = s.
Proof. destruct s; reflexivity. Qed.

Lemma accepted_defined (k : key) (v w : value) :
  accepted k v = Some w -> v <> VUndefined.
Proof. intros H ->. destruct k; discriminate. Qed.

(** Every block is: if the value is accepted, write the accepted value to
    [position.k], then store it when it differs. *)
Lemma set_field_spec (k : key) (s : Position.SetState) :
  Position.set_field k s =
  match accepted k (Obj.read (Position.ss_position s) k) with
  | Some v => Position.store k (Position.assign k v s)
  | None => s
  end.
Proof.
  assert (Hid : forall k v, v = Obj.read (Position.ss_position s) k ->
                v <> VUndefined -> Position.assign k v s = s).
  { intros k0 v -> Hv. unfold Position.assign.
    rewrite put_read_same by exact Hv. apply SetState_eta. }
  destruct k; unfold Position.set_field, accepted;
    unfold Position.set_rounded, Position.set_bound, Position.set_transform,
           Position.set_scale, Position.set_transformOrigin,
           Position.set_dimension;
    match goal with
    | |- context [Obj.read ?o ?k] =>
        destruct (Obj.read o k) as [| |b|n|str|i] eqn:E
    end; simpl; try reflexivity;
    try (rewrite Hid; [reflexivity | symmetry; exact E | discriminate]);
    try (destruct (Num.isFinite n); reflexivity);
    try (destruct (String.eqb str "auto"); reflexivity).
Qed.

Lemma store_assign_data (k : key) (v : value) (s : Position.SetState) :
  Position.ss_data (Position.store k (Position.assign k v s)) =
  if Js.strict_ne (getf (Position.ss_data s) k) v
  then setf k v (Position.ss_data s) else Position.ss_data s.
Proof.
  unfold Position.store, Position.assign; simpl. rewrite read_put_eq.
  destruct (Js.strict_ne _ _); reflexivity.
Qed.

Lemma store_assign_changeSet (k : key) (v : value) (s : Position.SetState) :
  Position.ss_changeSet (Position.store k (Position.assign k v s)) =
  if Js.strict_ne (getf (Position.ss_data s) k) v
  then ChangeSet.flag (Position.bit_of k) (Position.ss_changeSet s)
  else Position.ss_changeSet s.
Proof.
  unfold Position.store, Position.assign; simpl. rewrite read_put_eq.
  destruct (Js.strict_ne _ _); reflexivity.
Qed.

Lemma store_assign_position (k : key) (v : value) (s : Position.SetState) :
  Position.ss_position (Position.store k (Position.assign k v s)) =
  Obj.put k v (Position.ss_position s).
Proof.
  unfold Position.store, Position.assign; simpl. rewrite read_put_eq.
  destruct (Js.strict_ne _ _); reflexivity.
Qed.

Lemma set_field_data_same (k : key) (s : Position.SetState) :
  getf (Position.ss_data (Position.set_field k s)) k =
  match accepted k (Obj.read (Position.ss_position s) k) with
  | Some v => if Js.strict_ne (getf (Position.ss_data s) k) v then v
              else getf (Position.ss_data s) k
  | None => getf (Position.ss_data s) k
  end.
Proof.
  rewrite set_field_spec.
  destruct (accepted k _) as [v|]; [|reflexivity].
  rewrite store_assign_data.
  destruct (Js.strict_ne _ _); [apply getf_setf_eq | reflexivity].
Qed.

Lemma set_field_data_other (k k' : key) (s : Position.SetState) :
  k' <> k ->
  getf (Position.ss_data (Position.set_field k s)) k' =
  getf (Position.ss_data s) k'.
Proof.
  intros Hne. rewrite set_field_spec.
  destruct (accepted k _) as [v|]; [|reflexivity].
  rewrite store_assign_data.
  destruct (Js.strict_ne _ _); [apply getf_setf_ne; exact Hne | reflexivity].
Qed.

Lemma set_field_position_other (k k' : key) (s : Position.SetState) :
  k' <> k ->
  Obj.read (Position.ss_position (Position.set_field k s)) k' =
  Obj.read (Position.ss_position s) k'.
Proof.
  intros Hne. rewrite set_field_spec.
  destruct (accepted k _) as [v|]; [|reflexivity].
  rewrite store_assign_position. apply read_put_ne. congruence.
Qed.


Lemma set_order_NoDup : NoDup Position.set_order.
Proof. apply (bool_decide_unpack _). vm_compute. exact I. Qed.

Lemma set_order_all (k : key) : k ∈ Position.set_order.
Proof. apply (bool_decide_unpack _). destruct k; vm_compute; exact I. Qed.

Lemma set_fields_fold_data (l : list key) (k : key) (s : Position.SetState) :
  NoDup l ->
  getf (Position.ss_data (fold_left (fun s k => Position.set_field k s) l s)) k =
  if bool_decide (k ∈ l) then stored k s else getf (Position.ss_data s) k.
Proof.
  intros Hnd. revert s.
  induction Hnd as [|k0 l Hnotin Hnd IH]; intros s; simpl.
  - reflexivity.
  - rewrite IH. destruct (decide (k = k0)) as [->|Hne].
    + rewrite bool_decide_eq_false_2 by exact Hnotin.
      rewrite bool_decide_eq_true_2 by apply list_elem_of_here.
      apply set_field_data_same.
    + assert (Hs : stored k (Position.set_field k0 s) = stored k s).
      { unfold stored. rewrite set_field_position_other by exact Hne.
        rewrite set_field_data_other by exact Hne. reflexivity. }
      destruct (bool_decide (k ∈ l)) eqn:E.
      * apply bool_decide_eq_true_1 in E.
        rewrite bool_decide_eq_true_2 by (apply list_elem_of_further; exact E).
        exact Hs.
      * apply bool_decide_eq_false_1 in E.
        rewrite bool_decide_eq_false_2.
        -- apply set_field_data_other. exact Hne.
        -- rewrite elem_of_cons. intros [H|H]; congruence.
Qed.

(** After the blocks, [data.k] holds the accepted value of [position.k] if
    there is one, else what it held. *)
Lemma set_fields_data (k : key) (s : Position.SetState) :
  getf (Position.ss_data (Position.set_fields s)) k = stored k s.
Proof.
  unfold Position.set_fields.
  rewrite set_fields_fold_data by apply set_order_NoDup.
  rewrite bool_decide_eq_true_2 by apply set_order_all. reflexivity.
Qed.

Lemma set_fields_fold_fixed (l : list key) (s : Position.SetState) :
  NoDup l ->
  (forall k, k ∈ l ->
     match accepted k (Obj.read (Position.ss_position s) k) with
     | Some v => Js.strict_eq (getf (Position.ss_data s) k) v = true
     | None => True
     end) ->
  let s' := fold_left (fun s k => Position.set_field k s) l s in
  Position.ss_data s' = Position.ss_data s /\
  Position.ss_changeSet s' = Position.ss_changeSet s.
Proof.
  intros Hnd. revert s.
  induction Hnd as [|k0 l Hnotin Hnd IH]; intros s Hfix; simpl.
  - split; reflexivity.
  - assert (H0 : Position.ss_data (Position.set_field k0 s) = Position.ss_data s
                 /\ Position.ss_changeSet (Position.set_field k0 s)
                    = Position.ss_changeSet s).
    { rewrite set_field_spec.
      specialize (Hfix k0 (list_elem_of_here _ _)).
      destruct (accepted k0 _) as [v|]; [|split; reflexivity].
      rewrite store_assign_data, store_assign_changeSet.
      unfold Js.strict_ne. rewrite Hfix. split; reflexivity. }
    destruct H0 as [Hd Hc].
    destruct (IH (Position.set_field k0 s)) as [Hd' Hc'].
    + intros k Hk.
      assert (Hne : k <> k0) by (intros ->; contradiction).
      rewrite set_field_position_other by exact Hne. rewrite Hd.
      apply Hfix. apply list_elem_of_further. exact Hk.
    + simpl in Hd', Hc'. rewrite Hd', Hc'. split; assumption.
Qed.

(** When every accepted value is strictly equal to what [data] holds, the
    blocks change neither the data nor the change set. *)
Lemma set_fields_fixed (s : Position.SetState) :
  (forall k,
     match accepted k (Obj.read (Position.ss_position s) k) with
     | Some v => Js.strict_eq (getf (Position.ss_data s) k) v = true
     | None => True
     end) ->
  Position.ss_data (Position.set_fields s) = Position.ss_data s /\
  Position.ss_changeSet (Position.set_fields s) = Position.ss_changeSet s.
Proof.
  intros H. apply set_fields_fold_fixed.
  - apply set_order_NoDup.
  - intros k _. apply H.
Qed.

(** ** [set] without and with a target element *)

Lemma updateSubscribers_data (p : Position.t) :
  Position.data (Position.updateSubscribers p) = Position.data p.
Proof.
  unfold Position.updateSubscribers.
  destruct (negb _); [reflexivity|].
  destruct (_ || _); reflexivity.
Qed.

Lemma set_no_element (self : nat) (els : nat -> Element) (position : obj)
    (p : Position.t) (u : UpdateElementManager.t) :
  Position.not_positionable (Position.parent p) = false ->
  Position.target_element els (Position.parent p) = None ->
  Position.set self els position p u =
  let s := Position.set_fields
             (Position.mkSetState position (Position.data p)
                                  (Position.positionChangeSet p)) in
  Position.mkResult (Position.ss_position s)
    (Position.updateSubscribers
       (Position.with_positionChangeSet (Position.ss_changeSet s)
          (Position.with_data (Position.ss_data s) p))) u.
Proof. intros Hp Ht. unfold Position.set. rewrite Hp, Ht. reflexivity. Qed.

Lemma set_no_element_data (self : nat) (els : nat -> Element) (position : obj)
    (p : Position.t) (u : UpdateElementManager.t) (k : key) :
  Position.not_positionable (Position.parent p) = false ->
  Position.target_element els (Position.parent p) = None ->
  getf (Position.data (Position.r_this (Position.set self els position p u))) k =
  stored k (Position.mkSetState position (Position.data p)
                                (Position.positionChangeSet p)).
Proof.
  intros Hp Ht. rewrite set_no_element by assumption.
  cbv zeta. cbn [Position.r_this]. rewrite updateSubscribers_data.
  cbn [Position.data Position.with_positionChangeSet Position.with_data].
  apply set_fields_data.
Qed.

Lemma run_validators_app (before after : list ValidatorEntry)
    (entry : ValidatorEntry) (vd : obj -> ValidationData) (current : obj) :
  Position.run_validators (before ++ entry :: after)%list vd current =
  match Position.run_validators before vd current with
  | Some reached =>
      match ve_validator entry (vd reached) with
      | Some next => Position.run_validators after vd next
      | None => None
      end
  | None => None
  end.
Proof.
  revert current. induction before as [|e before IH]; intros current; simpl.
  - reflexivity.
  - destruct (ve_validator e (vd current)); [apply IH | reflexivity].
Qed.

Lemma cache_style_frame (els : nat -> Element) (el : nat) (p : Position.t) :
  let c := Position.cache_style els el p in
  Position.data c = Position.data p /\
  Position.validators c = Position.validators p /\
  Position.updateElementPromise c = Position.updateElementPromise p /\
  Position.notified c = Position.notified p /\
  Position.defaultData c = Position.defaultData p /\
  Position.dataSaved c = Position.dataSaved p /\
  Position.currentAnimationKeys c = Position.currentAnimationKeys p.
Proof.
  unfold Position.cache_style.
  destruct (StyleCache.hasData _ _); simpl; repeat split; reflexivity.
Qed.

(** ** Rounding, clamping and the position [#updatePosition] proposes *)

Lemma Qfloor_half (z : Z) : Qfloor (inject_Z z + (1 # 2)) = z.
Proof.
  unfold Qfloor, inject_Z, Qplus. cbn [Qnum Qden].
  change (Z.pos (1 * 2)) with 2%Z.
  replace (z * 2 + 1 * 1)%Z with (1 + z * 2)%Z by lia.
  rewrite Z.div_add by lia. reflexivity.
Qed.

Lemma round_round (v : value) : Js.round (Js.round v) = Js.round v.
Proof.
  destruct v as [| |b|n|s|i]; try reflexivity.
  destruct n as [| | |q]; try reflexivity.
  unfold Js.round, Num.round. rewrite Qfloor_half. reflexivity.
Qed.

Lemma clamp_scale_idem (v : value) :
  Js.clamp_scale (Js.clamp_scale v) = Js.clamp_scale v.
Proof.
  destruct v as [| |b|n|s|i]; try reflexivity.
  destruct n as [| | |q]; try reflexivity.
  unfold Js.clamp_scale, Num.min, Num.max, Num.ltb, Num.of_Z, Num.zero.
  destruct (Qle_bool q (inject_Z 1000)) eqn:E1; cbn [negb].
  - destruct (Qle_bool q 0) eqn:E0; cbn [negb].
    + reflexivity.
    + rewrite E1. cbn [negb]. rewrite E0. reflexivity.
  - reflexivity.
Qed.

Lemma is_number_round (v : value) : Js.is_number (Js.round v) = true.
Proof. destruct v; reflexivity. Qed.

Lemma isFinite_round (v : value) :
  Js.isFinite v = true -> Js.isFinite (Js.round v) = true.
Proof.
  destruct v as [| |b|n|s|i]; try discriminate. destruct n; auto.
Qed.

Lemma is_number_clamp (v : value) : Js.is_number (Js.clamp_scale v) = true.
Proof. destruct v; reflexivity. Qed.

Lemma isFinite_number (v : value) :
  Js.isFinite v = true -> Js.is_number v = true.
Proof. destruct v; auto. Qed.

Lemma is_auto_not_number (v : value) :
  Js.is_auto v = true -> Js.is_number v = false /\ Js.isFinite v = false.
Proof. destruct v; try discriminate. split; reflexivity. Qed.

(** *** What [#updatePosition] leaves at each key *)

Lemma update_dimension_ne (k0 k : key) (style : string) (offset : Z)
    (v : value) (o : obj) :
  k0 <> k ->
  Obj.read (fst (Position.update_dimension k0 style offset v o)) k
  = Obj.read o k.
Proof.
  intros H. unfold Position.update_dimension.
  destruct (_ || _); [|reflexivity].
  destruct (_ || _); cbn [fst]; apply read_put_ne; exact H.
Qed.

Lemma update_offset_ne (k0 k : key) (style : string) (v : value)
    (helper : option (value -> value)) (size : value) (o : obj) :
  k0 <> k ->
  Obj.read (Position.update_offset k0 style v helper size o) k = Obj.read o k.
Proof.
  intros H. unfold Position.update_offset.
  destruct (_ || _); [|reflexivity].
  destruct (Js.isFinite v); apply read_put_ne; exact H.
Qed.

Lemma update_bound_ne (k0 k : key) (v : value) (o : obj) :
  k0 <> k -> Obj.read (Position.update_bound k0 v o) k = Obj.read o k.
Proof.
  intros H. unfold Position.update_bound.
  destruct (_ || _); [apply read_put_ne; exact H | reflexivity].
Qed.

Lemma update_transform_ne (k0 k : key) (v : value) (o : obj) :
  k0 <> k -> Obj.read (Position.update_transform k0 v o) k = Obj.read o k.
Proof.
  intros H. unfold Position.update_transform.
  destruct (_ || _); [apply read_put_ne; exact H | reflexivity].
Qed.

Lemma update_scale_ne (k : key) (v : value) (o : obj) :
  K_scale <> k -> Obj.read (Position.update_scale v o) k = Obj.read o k.
Proof.
  intros H. unfold Position.update_scale.
  destruct (_ || _); [apply read_put_ne; exact H | reflexivity].
Qed.

Lemma update_transformOrigin_ne (k : key) (v : value) (o : obj) :
  K_transformOrigin <> k ->
  Obj.read (Position.update_transformOrigin v o) k = Obj.read o k.
Proof.
  intros H. unfold Position.update_transformOrigin.
  destruct (_ || _); [apply read_put_ne; exact H | reflexivity].
Qed.

Lemma update_zIndex_ne (k : key) (v : value) (o : obj) :
  K_zIndex <> k -> Obj.read (Position.update_zIndex v o) k = Obj.read o k.
Proof.
  intros H. unfold Position.update_zIndex.
  destruct (_ || _); [apply read_put_ne; exact H | reflexivity].
Qed.

(** The position [#updatePosition] proposes, as one expression. *)
Lemma prepare_fst (els : nat -> Element) (position : obj) (el : nat)
    (p : Position.t) :
  let e := els el in
  let arg := Obj.read position in
  let dims :=
    Position.update_dimension K_height (el_style_height e) (el_offsetHeight e)
      (arg K_height)
      (fst (Position.update_dimension K_width (el_style_width e)
              (el_offsetWidth e) (arg K_width)
              (Obj.assign [] (Obj.of_data (Position.data p))))) in
  let width :=
    snd (Position.update_dimension K_width (el_style_width e)
           (el_offsetWidth e) (arg K_width)
           (Obj.assign [] (Obj.of_data (Position.data p)))) in
  fst (Position.prepare els position el p) =
  Position.update_zIndex (arg K_zIndex)
   (Position.update_transformOrigin (arg K_transformOrigin)
    (Position.update_scale (arg K_scale)
     (Position.update_transform K_translateZ (arg K_translateZ)
      (Position.update_transform K_translateY (arg K_translateY)
       (Position.update_transform K_translateX (arg K_translateX)
        (Position.update_transform K_rotateZ (arg K_rotateZ)
         (Position.update_transform K_rotateY (arg K_rotateY)
          (Position.update_transform K_rotateX (arg K_rotateX)
           (Position.update_bound K_minWidth (arg K_minWidth)
            (Position.update_bound K_minHeight (arg K_minHeight)
             (Position.update_bound K_maxWidth (arg K_maxWidth)
              (Position.update_bound K_maxHeight (arg K_maxHeight)
               (Position.update_offset K_top (el_style_top e) (arg K_top)
                  (option_map getTop (Position.initialHelper p)) (snd dims)
                (Position.update_offset K_left (el_style_left e) (arg K_left)
                   (option_map getLeft (Position.initialHelper p)) width
                   (fst dims))))))))))))))).
Proof.
  cbv zeta. unfold Position.prepare.
  destruct (Position.update_dimension K_width _ _ _ _) as [o1 width].
  cbn [fst snd].
  destruct (Position.update_dimension K_height _ _ _ _) as [o2 height].
  reflexivity.
Qed.

Lemma agree_read (position : obj) (d : PositionData) (k : key) :
  (forall k v, Obj.lookup position k = Some v -> v = getf d k) ->
  Obj.read position k = getf d k \/ Obj.read position k = VUndefined.
Proof.
  intros H. unfold Obj.read.
  destruct (Obj.lookup position k) as [v|] eqn:E; [left | right; reflexivity].
  apply H. exact E.
Qed.

Lemma read_copy (d : PositionData) (k : key) :
  Obj.read (Obj.assign [] (Obj.of_data d)) k = getf d k.
Proof. rewrite assign_of_data. apply read_of_data. Qed.

Lemma update_dimension_eq (k : key) (style : string) (offset : Z)
    (v : value) (o : obj) :
  Obj.read (fst (Position.update_dimension k style offset v o)) k =
  if String.eqb style "" || Js.strict_ne v VUndefined
  then
    if Js.is_auto v || (Js.is_auto (Obj.read o k) && negb (Js.is_null v))
    then VStr "auto"
    else if Js.isFinite (if Js.isFinite v then v else Obj.read o k)
         then Js.round (if Js.isFinite v then v else Obj.read o k)
         else VNum (Num.of_Z offset)
  else Obj.read o k.
Proof.
  unfold Position.update_dimension.
  destruct (String.eqb style "" || Js.strict_ne v VUndefined); [|reflexivity].
  destruct (Js.is_auto v || _); cbn [fst]; apply read_put_eq.
Qed.

Lemma update_offset_eq (k : key) (style : string) (v : value)
    (helper : option (value -> value)) (size : value) (o : obj) :
  Obj.read (Position.update_offset k style v helper size o) k =
  if String.eqb style "" || Js.isFinite v
  then if Js.isFinite v then v
       else match helper with Some f => f size | None => VNum Num.zero end
  else Obj.read o k.
Proof.
  unfold Position.update_offset.
  destruct (String.eqb style "" || Js.isFinite v); [|reflexivity].
  destruct (Js.isFinite v); apply read_put_eq.
Qed.

Lemma update_bound_eq (k : key) (v : value) (o : obj) :
  Obj.read (Position.update_bound k v o) k =
  if Js.isFinite v || Js.is_null v
  then (if Js.isFinite v then Js.round v else VNull)
  else Obj.read o k.
Proof.
  unfold Position.update_bound.
  destruct (_ || _); [apply read_put_eq | reflexivity].
Qed.

Lemma update_transform_eq (k : key) (v : value) (o : obj) :
  Obj.read (Position.update_transform k v o) k =
  if Js.is_number v || Js.is_null v then v else Obj.read o k.
Proof.
  unfold Position.update_transform.
  destruct (_ || _); [apply read_put_eq | reflexivity].
Qed.

Lemma update_scale_eq (v : value) (o : obj) :
  Obj.read (Position.update_scale v o) K_scale =
  if Js.is_number v || Js.is_null v
  then (if Js.is_number v then Js.clamp_scale v else VNull)
  else Obj.read o K_scale.
Proof.
  unfold Position.update_scale.
  destruct (_ || _); [apply read_put_eq | reflexivity].
Qed.

Lemma update_transformOrigin_eq (v : value) (o : obj) :
  Obj.read (Position.update_transformOrigin v o) K_transformOrigin =
  if Js.is_string v || Js.is_null v
  then (if transformOrigins_includes v then v else VNull)
  else Obj.read o K_transformOrigin.
Proof.
  unfold Position.update_transformOrigin.
  destruct (_ || _); [apply read_put_eq | reflexivity].
Qed.

Lemma update_zIndex_eq (v : value) (o : obj) :
  Obj.read (Position.update_zIndex v o) K_zIndex =
  if Js.is_number v || Js.is_null v
  then (if Js.is_number v then Js.round v else v)
  else Obj.read o K_zIndex.
Proof.
  unfold Position.update_zIndex.
  destruct (_ || _); [apply read_put_eq | reflexivity].
Qed.

Ltac peel :=
  rewrite ?update_zIndex_ne, ?update_transformOrigin_ne, ?update_scale_ne,
          ?update_transform_ne, ?update_bound_ne, ?update_offset_ne,
          ?update_dimension_ne, ?read_copy by discriminate.

Ltac finish :=
  rewrite ?orb_true_r, ?orb_false_r, ?andb_true_r, ?andb_false_r in *;
  cbn in *;
  rewrite ?round_round, ?clamp_scale_idem;
  try discriminate; try exact I; try reflexivity; try assumption.

(** With the values the data holds (and [left], [top] among them, [width]
    and [height] numbers or ['auto']), the position proposed by
    [#updatePosition] is again one on which the blocks of [set] change
    nothing. *)
Lemma prepare_fixed (els : nat -> Element) (position : obj) (el : nat)
    (p : Position.t) (k : key) :
  settled (Position.data p) ->
  (forall k v, Obj.lookup position k = Some v -> v = getf (Position.data p) k) ->
  Js.isFinite (d_width (Position.data p))
  || Js.is_auto (d_width (Position.data p)) = true ->
  Js.isFinite (d_height (Position.data p))
  || Js.is_auto (d_height (Position.data p)) = true ->
  Js.isFinite (Obj.read position K_left) = true ->
  Js.isFinite (Obj.read position K_top) = true ->
  match accepted k (Obj.read (fst (Position.prepare els position el p)) k) with
  | Some v => Js.strict_eq (getf (Position.data p) k) v = true
  | None => True
  end.
Proof.
  intros Hs Hagree Hw Hh Hl Ht.
  rewrite prepare_fst. cbv zeta.
  pose proof (Hs k) as Hk.
  pose proof (agree_read position (Position.data p) k Hagree) as Ha.
  change (d_width ?d) with (getf d K_width) in Hw.
  change (d_height ?d) with (getf d K_height) in Hh.
  destruct k; peel;
    rewrite ?update_dimension_eq, ?update_offset_eq, ?update_bound_eq,
            ?update_transform_eq, ?update_scale_eq,
            ?update_transformOrigin_eq, ?update_zIndex_eq; peel.
  all: try (match goal with
            | |- context [getf (Position.data ?P) ?K] =>
                set (c := getf (Position.data P) K) in *; clearbody c
            end).
  all: destruct Ha as [Ha | Ha]; rewrite ?Ha in *; clear Ha.
  all: try (destruct c as [| |b|[| | |q]|s|i]; finish).
  all: try match goal with
       | H : String.eqb ?s "auto" = true |- _ => rewrite ?H in *
       end.
  all: try match goal with
       | |- context [String.eqb ?x ""] => destruct (String.eqb x ""); finish
       end.
  all: try match goal with
       | |- context [transformOrigins_includes ?v] =>
           destruct (transformOrigins_includes v) eqn:E; finish;
           rewrite ?E; finish
       end.
  all: try match goal with
       | H : String.eqb ?s "auto" = true |- _ => rewrite ?H; finish
       end.
  all: try (unfold Js.strict_eq in *; first [assumption | discriminate]).
Qed.

Lemma accepted_undefined (k : key) : accepted k VUndefined = None.
Proof. destruct k; reflexivity. Qed.

Lemma Position_eta (p : Position.t) :
  Position.with_positionChangeSet (Position.positionChangeSet p)
    (Position.with_data (Position.data p) p) = p.
Proof. destruct p; reflexivity. Qed.

Lemma hasChange_false (c : PositionChangeSet) :
  ChangeSet.hasChange c = false -> c = ChangeSet.set false.
Proof.
  destruct c as [[] [] [] [] [] [] [] [] [] [] []]; cbn;
    first [discriminate | reflexivity].
Qed.

Lemma updateSubscribers_idle (p : Position.t) :
  ChangeSet.hasChange (Position.positionChangeSet p) = false ->
  Position.updateSubscribers p = p.
Proof. intros H. unfold Position.updateSubscribers. rewrite H. reflexivity. Qed.

(** With no flag set, the DOM-sync callback writes no style and notifies
    no subscriber. *)
Lemma updateElementNew_idle (els : nat -> Element) (el : nat)
    (p : Position.t) :
  ChangeSet.hasChange (Position.positionChangeSet p) = false ->
  Position.updateElementNew els el p = ([], p).
Proof.
  intros H. unfold Position.updateElementNew.
  destruct (negb _); [reflexivity|].
  rewrite (updateSubscribers_idle p H).
  rewrite (hasChange_false _ H). reflexivity.
Qed.

Lemma set_element (self : nat) (els : nat -> Element) (position : obj)
    (p : Position.t) (u : UpdateElementManager.t) (el : nat) :
  Position.not_positionable (Position.parent p) = false ->
  Position.target_element els (Position.parent p) = Some el ->
  StyleCache.hasData el (Position.styleCache p) = true ->
  Position.validators p = [] ->
  Position.set self els position p u =
  let s := Position.set_fields
             (Position.mkSetState
                (fst (Position.prepare els position el p))
                (Position.data p) (Position.positionChangeSet p)) in
  let p2 := Position.with_positionChangeSet (Position.ss_changeSet s)
              (Position.with_data (Position.ss_data s) p) in
  let p3 := match Position.defaultData p2 with
            | None => Position.with_defaultData
                        (Some (Obj.assign [] (Obj.of_data (Position.data p2))))
                        p2
            | Some _ => p2
            end in
  Position.mkResult position
    (Position.with_updateElementPromise
       (Some (UpdateElementManager.promises u)) p3)
    (fst (UpdateElementManager.add el self u)).
Proof.
  intros Hp Ht Hc Hv. unfold Position.set. rewrite Hp, Ht.
  unfold Position.cache_style. rewrite Hc.
  unfold Position.updatePosition.
  destruct (Position.prepare els position el p) as [current vd].
  rewrite Hv. reflexivity.
Qed.





(** ** C1: a validator veto *)

(** C1.  For a Position with a connected target element and any object
    passed to [set]: if, in the validator loop of this call, some validator
    of the pipeline returns [null] on the position handed to it by the
    validators before it, then [set] returns with the canonical data
    unchanged, registers nothing with the update manager and leaves
    [elementUpdated] as it was; no subscriber is notified and the argument
    object is untouched. *)
Theorem set_validator_null_aborts (self : nat) (els : nat -> Element)
    (position : obj) (p : Position.t) (u : UpdateElementManager.t) (el : nat)
    (before after : list ValidatorEntry) (entry : ValidatorEntry)
    (reached : obj) :
  Position.target_element els (Position.parent p) = Some el ->
  Position.validators p = (before ++ entry :: after)%list ->
  let prepared :=
    Position.prepare els position el (Position.cache_style els el p) in
  Position.run_validators before (snd prepared) (fst prepared) = Some reached ->
  ve_validator entry (snd prepared reached) = None ->
  let r := Position.set self els position p u in
  Position.data (Position.r_this r) = Position.data p /\
  Position.r_manager r = u /\
  Position.updateElementPromise (Position.r_this r)
    = Position.updateElementPromise p /\
  Position.notified (Position.r_this r) = Position.notified p /\
  Position.r_position r = position.
Proof.
  intros Hel Hvs prepared Hbefore Hnull r.
  destruct (cache_style_frame els el p) as (Hd & Hv & Hp & Hn & _).
  subst r. unfold Position.set.
  destruct (Position.not_positionable (Position.parent p));
    [repeat split; reflexivity|].
  rewrite Hel.
  assert (Hup : Position.updatePosition els position el
                  (Position.cache_style els el p) = None).
  { unfold Position.updatePosition. fold prepared.
    destruct prepared as [current vd] eqn:E. simpl in Hbefore, Hnull.
    rewrite Hv, Hvs, run_validators_app, Hbefore, Hnull. reflexivity. }
  rewrite Hup. simpl. repeat split; assumption.
Qed.

Lemma set_validator_null_aborts_witness :
  let r := Position.set 0 one_box [(K_left, VNum (Fin 10))] guarded
                        UpdateElementManager.empty in
  Position.data (Position.r_this r) = Position.data guarded /\
  Position.r_manager r = UpdateElementManager.empty /\
  Position.updateElementPromise (Position.r_this r)
    = Position.updateElementPromise guarded /\
  Position.notified (Position.r_this r) = Position.notified guarded /\
  Position.r_position r = [(K_left, VNum (Fin 10))].
Proof.
  apply (set_validator_null_aborts 0 one_box [(K_left, VNum (Fin 10))] guarded
           UpdateElementManager.empty 0 [] [] veto
           (fst (Position.prepare one_box [(K_left, VNum (Fin 10))] 0
                   (Position.cache_style one_box 0 guarded))));
    reflexivity.
Defined.

(** ** C2: NaN reaches the canonical data *)

Lemma strict_ne_NaN (v : value) : Js.strict_ne v (VNum NaN) = true.
Proof. destruct v as [| |b|n|s|i]; try reflexivity. destruct n; reflexivity. Qed.

(** C2.  What the code does at [set({left: NaN})] on a Position that has no
    connected target element (and is not declared non-positionable): the
    block for [left] tests [typeof position.left === 'number'], which NaN
    passes, and canonical [left] becomes NaN.  The claim that no NaN may
    persist in canonical state is not met by the code. *)
Theorem set_left_NaN_persists (self : nat) (els : nat -> Element)
    (p : Position.t) (u : UpdateElementManager.t) :
  Position.not_positionable (Position.parent p) = false ->
  Position.target_element els (Position.parent p) = None ->
  d_left (Position.data
            (Position.r_this
               (Position.set self els [(K_left, VNum NaN)] p u)))
  = VNum NaN.
Proof.
  intros Hp Ht.
  change (d_left ?d) with (getf d K_left).
  rewrite set_no_element_data by assumption.
  unfold stored. cbn [Position.ss_position Position.ss_data].
  change (Obj.read [(K_left, VNum NaN)] K_left) with (VNum NaN).
  change (accepted K_left (VNum NaN)) with (Some (VNum NaN)).
  cbv iota beta. rewrite strict_ne_NaN. reflexivity.
Qed.

Lemma set_left_NaN_persists_witness :
  d_left (Position.data
            (Position.r_this
               (Position.set 0 no_elements [(K_left, VNum NaN)] bare
                             UpdateElementManager.empty)))
  = VNum NaN.
Proof.
  apply (set_left_NaN_persists 0 no_elements bare UpdateElementManager.empty);
    reflexivity.
Defined.

(** With a connected element the same happens for the fields that
    [#updatePosition] also tests with [typeof], such as [zIndex]. *)
Example set_zIndex_NaN_with_element :
  d_zIndex (Position.data
              (Position.r_this
                 (Position.set 0 one_box [(K_zIndex, VNum NaN)] rendered
                               UpdateElementManager.empty)))
  = VNum NaN.
Proof. vm_compute. reflexivity. Qed.

(** ** C3: the constructor seeds [scale] as given *)

(** C3.  What the code does with [scale] in the constructor options: any
    finite number is stored as it is, whatever its size, whereas [set]
    clamps to [0, 1000].  With [{ scale: 5000 }] the canonical scale is
    5000, outside the range the claim promises. *)
Theorem constructor_keeps_scale (parent : Parent) (q : Q) :
  exists p,
    Position.new parent [(K_scale, VNum (Fin q))] None Position.InitialAbsent []
    = Normal p /\
    d_scale (Position.data p) = VNum (Fin q).
Proof. eexists. split; reflexivity. Qed.

Example constructor_scale_5000 :
  exists p,
    Position.new ParentUndefined [(K_scale, VNum (Fin 5000))] None
                 Position.InitialAbsent [] = Normal p /\
    d_scale (Position.data p) = VNum (Fin 5000) /\
    Num.leb (Fin 5000) (Num.of_Z 1000) = false /\
    d_scale (Position.data
               (Position.r_this
                  (Position.set 0 no_elements [(K_scale, VNum (Fin 5000))] p
                                UpdateElementManager.empty)))
    = VNum (Fin 1000).
Proof. eexists. repeat split; vm_compute; reflexivity. Qed.

(** ** What [set] never touches *)

Lemma updateSubscribers_frame (p : Position.t) :
  let p' := Position.updateSubscribers p in
  Position.dataSaved p' = Position.dataSaved p /\
  Position.currentAnimationKeys p' = Position.currentAnimationKeys p /\
  Position.parent p' = Position.parent p /\
  Position.defaultData p' = Position.defaultData p /\
  Position.updateElementPromise p' = Position.updateElementPromise p.
Proof.
  unfold Position.updateSubscribers.
  destruct (negb _); [repeat split; reflexivity|].
  destruct (_ || _); repeat split; reflexivity.
Qed.

Lemma set_frame (self : nat) (els : nat -> Element) (position : obj)
    (p : Position.t) (u : UpdateElementManager.t) :
  let p' := Position.r_this (Position.set self els position p u) in
  Position.dataSaved p' = Position.dataSaved p /\
  Position.currentAnimationKeys p' = Position.currentAnimationKeys p /\
  Position.parent p' = Position.parent p.
Proof.
  unfold Position.set.
  destruct (Position.not_positionable _); [repeat split; reflexivity|].
  destruct (Position.target_element _ _) as [el|].
  - destruct (cache_style_frame els el p) as (_ & _ & _ & _ & _ & Hs & Hk).
    assert (Hpar : Position.parent (Position.cache_style els el p)
                   = Position.parent p).
    { unfold Position.cache_style. destruct (StyleCache.hasData _ _); reflexivity. }
    destruct (Position.updatePosition _ _ _ _) as [validated|].
    + destruct (Position.defaultData _);
        cbn; rewrite Hs, Hk, Hpar; repeat split; reflexivity.
    + cbn. rewrite Hs, Hk, Hpar. repeat split; reflexivity.
  - cbv zeta. cbn [Position.r_this].
    destruct (updateSubscribers_frame
                (Position.with_positionChangeSet
                   (Position.ss_changeSet
                      (Position.set_fields
                         (Position.mkSetState position (Position.data p)
                            (Position.positionChangeSet p))))
                   (Position.with_data
                      (Position.ss_data
                         (Position.set_fields
                            (Position.mkSetState position (Position.data p)
                               (Position.positionChangeSet p)))) p)))
      as (Hs & Hk & Hpar & _).
    rewrite Hs, Hk, Hpar. repeat split; reflexivity.
Qed.

(** ** A saved snapshot and [set] calls on other objects *)

Lemma set_argument_keeps_snapshot (self : nat) (els : nat -> Element)
    (a : Position.argument) (p : Position.t) (u : UpdateElementManager.t)
    (name : string) :
  a <> Position.Snapshot name ->
  Position.getSave name (fst (Position.set_argument self els a p u))
  = Position.getSave name p.
Proof.
  intros Ha. unfold Position.set_argument, Position.getSave.
  destruct a as [o|name'].
  - cbn [fst]. destruct (set_frame self els o p u) as (Hs & _). rewrite Hs.
    reflexivity.
  - assert (Hne : name' <> name) by congruence.
    destruct (Position.dataSaved p !! name') as [o|] eqn:E; cbn [fst].
    + cbn [Position.dataSaved Position.with_dataSaved].
      rewrite lookup_insert_ne by exact Hne.
      destruct (set_frame self els o p u) as (Hs & _). rewrite Hs. reflexivity.
    + destruct (set_frame self els [] p u) as (Hs & _). rewrite Hs. reflexivity.
Qed.

Lemma set_all_keeps_snapshot (self : nat) (els : nat -> Element)
    (args : list Position.argument) (p : Position.t)
    (u : UpdateElementManager.t) (name : string) :
  (forall a, a ∈ args -> a <> Position.Snapshot name) ->
  Position.getSave name (fst (set_all self els args p u))
  = Position.getSave name p.
Proof.
  unfold set_all. revert p u.
  induction args as [|a args IH]; intros p u Hargs; simpl; [reflexivity|].
  destruct (Position.set_argument self els a p u) as [p' u'] eqn:E.
  rewrite IH.
  - change p' with (fst (p', u')). rewrite <- E.
    apply set_argument_keeps_snapshot. apply Hargs. apply list_elem_of_here.
  - intros b Hb. apply Hargs. apply list_elem_of_further. exact Hb.
Qed.


(** ** C7: how [animateTo] reports bad options *)

(** C7, as amended.  [animateTo] is an [async] function: a call with an
    object as target never throws at the call site.  With a parent that
    declares itself non-positionable the promise is fulfilled at once,
    before the options are looked at.  Otherwise a duration that is not a
    non-negative integer, or an easing or interpolate option that is not a
    function, gives a promise rejected with a TypeError and changes
    nothing; and with well-formed options the promise is never rejected: it
    is fulfilled at once, or it is the pending promise of a fresh task
    queued with the animation manager, which can only be resolved. *)
Theorem animateTo_settles (lerp : value -> value -> value -> value)
    (self : nat) (position : obj) (opts : AnimateOptions) (w : World) :
  match animateTo lerp self (AnObject position) opts w with
  | Throw _ => False
  | Normal (w', pr) =>
      if Position.not_positionable (Position.parent (positions w self))
      then w' = w /\ pr = Fulfilled
      else if well_formed opts
      then (w' = w /\ pr = Fulfilled)
           \/ (pr = Pending (allocated w)
               /\ a_resolved (tasks w' (allocated w)) = false
               /\ a_finished (tasks w' (allocated w)) = false
               /\ s_NEW_LIST w' = (s_NEW_LIST w ++ [allocated w])%list)
      else w' = w /\ exists message, pr = Rejected (TypeError message)
  end.
Proof.
  unfold animateTo, animateTo_body, well_formed, duration_in_force.
  destruct (Position.not_positionable _); [split; reflexivity|].
  destruct (negb (Js.isInteger _) || _) eqn:Ed.
  - assert (Hf : Js.isInteger
                   match opt_duration opts with
                   | VUndefined => VNum (Num.of_Z 1000)
                   | v => v
                   end
                 && negb match match opt_duration opts with
                               | VUndefined => VNum (Num.of_Z 1000)
                               | v => v
                               end with
                         | VNum n => Num.ltb n Num.zero
                         | _ => false
                         end = false).
    { apply orb_true_iff in Ed as [Ed|Ed].
      - apply negb_true_iff in Ed. rewrite Ed. reflexivity.
      - rewrite Ed. apply andb_false_r. }
    rewrite Hf. cbn [andb]. split; [reflexivity | eexists; reflexivity].
  - apply orb_false_iff in Ed as [Ei El].
    apply negb_false_iff in Ei. rewrite Ei, El. cbn [negb andb].
    destruct (opt_easing opts) as [|easing|v];
      destruct (opt_interpolate opts) as [|interpolate|v'];
      cbn [is_function andb];
      try (split; [reflexivity | eexists; reflexivity]);
      destruct (collect _ _) as [initial destination];
      destruct (retain _ _) as [kept animating];
      destruct (Obj.keys _) as [|k ks];
      try (left; split; reflexivity);
      right; unfold AnimationManager.add;
      match goal with
      | |- context [if s_PROMISE ?x then _ else _] => destruct (s_PROMISE x)
      end;
      cbn; unfold upd; rewrite Nat.eqb_refl; repeat split; reflexivity.
Qed.

(** C7 as stated fails: on a positionable instance, a negative duration
    does not make the call throw; the call returns a promise, rejected
    with the TypeError. *)
Lemma animateTo_negative_duration_counterexample :
  animateTo jump 0 (AnObject [(K_left, VNum (Fin 300))])
            (mkAnimateOptions (VNum (Fin (-1))) Omitted Omitted) idle
  = Normal (idle,
            Rejected (TypeError "Position - animateTo error: 'duration' is not a positive integer."))
  /\ forall e,
       animateTo jump 0 (AnObject [(K_left, VNum (Fin 300))])
                 (mkAnimateOptions (VNum (Fin (-1))) Omitted Omitted) idle
       <> Throw e.
Proof. split; [reflexivity | discriminate]. Qed.

(** The [animationData] built by this revision of [animateTo] has no [el]
    property, while [animate] reads [data.el.isConnected]: on the first
    frame the loop throws on the task just queued. *)
Example animateTo_task_has_no_element :
  exists w,
    animateTo jump 0 (AnObject [(K_left, VNum (Fin 300))])
              (mkAnimateOptions VUndefined Omitted Omitted) resting
    = Normal (w, Pending 0) /\
    a_el (tasks w 0) = None /\
    AnimationManager.animate_turn (Fin 0) (VNum (Fin 16)) w
    = Throw (TypeError "Cannot read properties of undefined (reading 'isConnected')").
Proof. eexists. split; [reflexivity|]. split; vm_compute; reflexivity. Qed.

(** ** C6: [cancelAll] *)

Lemma upd_eq {A : Type} (i : nat) (x : A) (h : nat -> A) : upd i x h i = x.
Proof. unfold upd. rewrite Nat.eqb_refl. reflexivity. Qed.

Lemma upd_ne {A : Type} (i j : nat) (x : A) (h : nat -> A) :
  j <> i -> upd i x h j = h j.
Proof.
  intros H. unfold upd. destruct (Nat.eqb j i) eqn:E; [|reflexivity].
  apply Nat.eqb_eq in E. contradiction.
Qed.

Lemma elem_of_rev {A : Type} (x : A) (l : list A) : x ∈ rev l <-> x ∈ l.
Proof. rewrite !list_elem_of_In. symmetry. apply in_rev. Qed.

Lemma cancel_tasks (id j : nat) (w : World) :
  tasks (AnimationManager.cancel id w) j =
  if Nat.eqb j id
  then with_a_resolved true (with_a_finished true (tasks w id))
  else tasks w j.
Proof.
  unfold AnimationManager.cancel, AnimationManager.resolve,
         AnimationManager.clear_keys. cbn. unfold upd.
  destruct (Nat.eqb j id) eqn:E; [|reflexivity].
  rewrite Nat.eqb_refl. reflexivity.
Qed.

Lemma cancel_positions (id i : nat) (w : World) :
  positions (AnimationManager.cancel id w) i =
  if Nat.eqb i (a_position (tasks w id))
  then Position.with_currentAnimationKeys [] (positions w i)
  else positions w i.
Proof.
  unfold AnimationManager.cancel, AnimationManager.resolve,
         AnimationManager.clear_keys. cbn. unfold upd.
  destruct (Nat.eqb i (a_position (tasks w id))) eqn:E; [|reflexivity].
  apply Nat.eqb_eq in E. subst i. reflexivity.
Qed.

Lemma cancel_lists (id : nat) (w : World) :
  s_ACTIVE_LIST (AnimationManager.cancel id w) = s_ACTIVE_LIST w /\
  s_NEW_LIST (AnimationManager.cancel id w) = s_NEW_LIST w.
Proof. split; reflexivity. Qed.

(** What cancelling a list of tasks does. *)
Lemma cancel_list_effect (l : list nat) (w : World) :
  let w' := fold_left (fun w id => AnimationManager.cancel id w) l w in
  s_ACTIVE_LIST w' = s_ACTIVE_LIST w /\
  s_NEW_LIST w' = s_NEW_LIST w /\
  (forall i, Position.data (positions w' i) = Position.data (positions w i)) /\
  (forall i, Position.currentAnimationKeys (positions w i) = [] ->
             Position.currentAnimationKeys (positions w' i) = []) /\
  (forall id, a_position (tasks w' id) = a_position (tasks w id)) /\
  (forall id, a_finished (tasks w id) = true ->
              a_finished (tasks w' id) = true) /\
  (forall id, a_resolved (tasks w id) = true ->
              a_resolved (tasks w' id) = true) /\
  (forall id, id ∈ l ->
     a_finished (tasks w' id) = true /\ a_resolved (tasks w' id) = true /\
     Position.currentAnimationKeys (positions w' (a_position (tasks w id))) = []).
Proof.
  revert w. induction l as [|id0 l IH]; intros w; simpl.
  - repeat split; auto;
      match goal with
      | H : _ ∈ [] |- _ => apply elem_of_nil in H; contradiction
      end.
  - destruct (IH (AnimationManager.cancel id0 w))
      as (Ha & Hn & Hd & Hk & Hp & Hf & Hr & Hin).
    assert (Hpos : forall id, a_position (tasks (AnimationManager.cancel id0 w) id)
                              = a_position (tasks w id)).
    { intros id. rewrite cancel_tasks.
      destruct (Nat.eqb id id0) eqn:E; [|reflexivity].
      apply Nat.eqb_eq in E. subst. reflexivity. }
    assert (Hkeys : forall i,
              Position.currentAnimationKeys (positions w i) = [] ->
              Position.currentAnimationKeys
                (positions (AnimationManager.cancel id0 w) i) = []).
    { intros i Hi. rewrite cancel_positions.
      destruct (Nat.eqb i _); [reflexivity | exact Hi]. }
    split; [exact Ha|]. split; [exact Hn|]. split.
    { intros i. rewrite Hd, cancel_positions.
      destruct (Nat.eqb i _); reflexivity. }
    split. { intros i Hi. apply Hk, Hkeys, Hi. }
    split. { intros id. rewrite Hp. apply Hpos. }
    split.
    { intros id H. apply Hf. rewrite cancel_tasks.
      destruct (Nat.eqb id id0) eqn:E; [reflexivity | exact H]. }
    split.
    { intros id H. apply Hr. rewrite cancel_tasks.
      destruct (Nat.eqb id id0) eqn:E; [reflexivity | exact H]. }
    intros id Hid. apply elem_of_cons in Hid as [->|Hid].
    + split; [|split].
      * apply Hf. rewrite cancel_tasks, Nat.eqb_refl. reflexivity.
      * apply Hr. rewrite cancel_tasks, Nat.eqb_refl. reflexivity.
      * apply Hk. rewrite cancel_positions, Nat.eqb_refl. reflexivity.
    + destruct (Hin id Hid) as (H1 & H2 & H3).
      split; [exact H1|]. split; [exact H2|].
      rewrite Hpos in H3. exact H3.
Qed.

(** C6, as amended.  [cancelAll()] marks every active and every pending
    task finished, resolves its promise, clears the currently-animating key
    set of its Position and empties both lists.  It writes no position
    data: the canonical data of every Position stays what the last frame
    left, not the destination. *)
Theorem cancelAll_effect (w : World) :
  let w' := AnimationManager.cancelAll w in
  s_ACTIVE_LIST w' = [] /\
  s_NEW_LIST w' = [] /\
  (forall id, id ∈ s_ACTIVE_LIST w \/ id ∈ s_NEW_LIST w ->
     a_finished (tasks w' id) = true /\
     a_resolved (tasks w' id) = true /\
     Position.currentAnimationKeys (positions w' (a_position (tasks w id))) = []) /\
  (forall i, Position.data (positions w' i) = Position.data (positions w i)).
Proof.
  unfold AnimationManager.cancelAll. cbv zeta.
  set (w1 := fold_left (fun w id => AnimationManager.cancel id w)
                       (rev (s_ACTIVE_LIST w)) w).
  destruct (cancel_list_effect (rev (s_ACTIVE_LIST w)) w)
    as (Ha1 & Hn1 & Hd1 & Hk1 & Hp1 & Hf1 & Hr1 & Hin1).
  fold w1 in Ha1, Hn1, Hd1, Hk1, Hp1, Hf1, Hr1, Hin1.
  destruct (cancel_list_effect (rev (s_NEW_LIST w1)) w1)
    as (Ha2 & Hn2 & Hd2 & Hk2 & Hp2 & Hf2 & Hr2 & Hin2).
  cbn [s_ACTIVE_LIST s_NEW_LIST with_lists tasks positions].
  split; [reflexivity|]. split; [reflexivity|]. split.
  - intros id [Hid|Hid].
    + destruct (Hin1 id) as (H1 & H2 & H3).
      { apply elem_of_rev. exact Hid. }
      split; [apply Hf2, H1|]. split; [apply Hr2, H2|]. apply Hk2, H3.
    + destruct (Hin2 id) as (H1 & H2 & H3).
      { apply elem_of_rev. rewrite Hn1. exact Hid. }
      split; [exact H1|]. split; [exact H2|]. rewrite Hp1 in H3. exact H3.
  - intros i. rewrite Hd2. apply Hd1.
Qed.

(** C6 as stated fails: a task that is moving [left] from 0 to 300 is
    cancelled by [cancelAll()] with canonical [left] still 0. *)
Lemma cancelAll_keeps_data_counterexample :
  let w := sliding bare (VNum (Fin 300)) in
  let w' := AnimationManager.cancelAll w in
  s_ACTIVE_LIST w = [0] /\
  Obj.read (a_destination (tasks w 0)) K_left = VNum (Fin 300) /\
  d_left (Position.data (positions w' (a_position (tasks w 0)))) = VNum (Fin 0) /\
  Js.strict_eq (d_left (Position.data (positions w' (a_position (tasks w 0)))))
               (Obj.read (a_destination (tasks w 0)) K_left) = false.
Proof. repeat split; reflexivity. Qed.

(** ** C8: [reset] *)



(** With the default options the same instance is reset through [set]; the
    captured default has [zIndex] [null], which the [zIndex] block of [set]
    does not take, so [zIndex] stays at 100 while [left] goes back to 0. *)
Example reset_leaves_zIndex :
  let out := Position.reset false true 0 one_box moved
                            UpdateElementManager.empty in
  (exists default, Position.defaultData moved = Some default /\
                   Obj.read default K_zIndex = VNull) /\
  fst (fst out) = true /\
  d_left (Position.data (snd (fst out))) = VNum (Fin 0) /\
  d_zIndex (Position.data (snd (fst out))) = VNum (Fin 100).
Proof.
  split; [eexists; split; vm_compute; reflexivity|].
  repeat split; vm_compute; reflexivity.
Qed.

(** ** C5: the final frame of a task *)

Lemma released_keys (l ks : list key) (k : key) :
  k ∈ fold_left (fun ks k => filter (fun k' => k' <> k) ks) l ks
  <-> k ∈ ks /\ k ∉ l.
Proof.
  revert ks. induction l as [|k0 l IH]; intros ks; simpl.
  - split; [intros H; split; [exact H | apply not_elem_of_nil] | tauto].
  - rewrite IH, list_elem_of_filter, not_elem_of_cons. tauto.
Qed.





(** ** What a call of [animateTo] does *)






(** *** The three loops of [animateTo] *)











(** ** C9: [set] with the values the data already holds *)

(** C9, as amended.  Let the canonical data be in the form [set] produces
    (every field comes back strictly equal from its block), and let [set]
    be called with an object whose values are those the data holds.  If
    the Position has no connected target element and no change is pending,
    or if it has one, with its style cache filled, no validator, [width]
    and [height] numbers or ['auto'] and [left], [top] among the values
    passed, then the call changes no canonical field, sets no flag of the
    change set and notifies no subscriber; and when no change was pending
    the DOM-sync callback that follows writes no style and notifies no
    subscriber either. *)
Theorem set_same_values_changes_nothing (self : nat) (els : nat -> Element)
    (position : obj) (p : Position.t) (u : UpdateElementManager.t) :
  settled (Position.data p) ->
  (forall k v, Obj.lookup position k = Some v -> v = getf (Position.data p) k) ->
  match Position.target_element els (Position.parent p) with
  | None => ChangeSet.hasChange (Position.positionChangeSet p) = false
  | Some el =>
      StyleCache.hasData el (Position.styleCache p) = true /\
      Position.validators p = [] /\
      Js.isFinite (d_width (Position.data p))
      || Js.is_auto (d_width (Position.data p)) = true /\
      Js.isFinite (d_height (Position.data p))
      || Js.is_auto (d_height (Position.data p)) = true /\
      Js.isFinite (Obj.read position K_left) = true /\
      Js.isFinite (Obj.read position K_top) = true
  end ->
  let r := Position.set self els position p u in
  Position.data (Position.r_this r) = Position.data p /\
  Position.positionChangeSet (Position.r_this r)
    = Position.positionChangeSet p /\
  Position.notified (Position.r_this r) = Position.notified p /\
  (ChangeSet.hasChange (Position.positionChangeSet p) = false ->
   forall el, Position.updateElementNew els el (Position.r_this r)
              = ([], Position.r_this r)).
Proof.
  intros Hs Hagree Hcase. cbv zeta.
  destruct (Position.not_positionable (Position.parent p)) eqn:Hp.
  { unfold Position.set. rewrite Hp. cbn [Position.r_this].
    repeat split; try reflexivity. intros H el. apply updateElementNew_idle, H. }
  destruct (Position.target_element els (Position.parent p)) as [el|] eqn:Ht.
  - destruct Hcase as (Hc & Hv & Hw & Hh & Hl & Htop).
    rewrite (set_element self els position p u el Hp Ht Hc Hv).
    cbv zeta. cbn [Position.r_this].
    destruct (set_fields_fixed
                (Position.mkSetState
                   (fst (Position.prepare els position el p))
                   (Position.data p) (Position.positionChangeSet p)))
      as [Hd Hcs].
    { intros k. cbn [Position.ss_position Position.ss_data].
      apply prepare_fixed; assumption. }
    cbn [Position.ss_data Position.ss_changeSet] in Hd, Hcs.
    rewrite Hd, Hcs, Position_eta.
    assert (Hfr : forall q,
              Position.data
                (Position.with_updateElementPromise q
                   match Position.defaultData p with
                   | Some _ => p
                   | None => Position.with_defaultData
                               (Some (Obj.assign [] (Obj.of_data (Position.data p))))
                               p
                   end) = Position.data p /\
              Position.positionChangeSet
                (Position.with_updateElementPromise q
                   match Position.defaultData p with
                   | Some _ => p
                   | None => Position.with_defaultData
                               (Some (Obj.assign [] (Obj.of_data (Position.data p))))
                               p
                   end) = Position.positionChangeSet p /\
              Position.notified
                (Position.with_updateElementPromise q
                   match Position.defaultData p with
                   | Some _ => p
                   | None => Position.with_defaultData
                               (Some (Obj.assign [] (Obj.of_data (Position.data p))))
                               p
                   end) = Position.notified p).
    { intros q. destruct (Position.defaultData p); repeat split; reflexivity. }
    destruct (Hfr (Some (UpdateElementManager.promises u))) as (H1 & H2 & H3).
    split; [exact H1|]. split; [exact H2|]. split; [exact H3|].
    intros Hidle el'. apply updateElementNew_idle. rewrite H2. exact Hidle.
  - rewrite (set_no_element self els position p u Hp Ht).
    cbv zeta. cbn [Position.r_this].
    destruct (set_fields_fixed
                (Position.mkSetState position (Position.data p)
                   (Position.positionChangeSet p)))
      as [Hd Hcs].
    { intros k. cbn [Position.ss_position Position.ss_data].
      destruct (agree_read position (Position.data p) k Hagree) as [-> | ->].
      - apply Hs.
      - rewrite accepted_undefined. exact I. }
    cbn [Position.ss_data Position.ss_changeSet] in Hd, Hcs.
    rewrite Hd, Hcs, Position_eta, (updateSubscribers_idle p Hcase).
    repeat split; try reflexivity.
    intros _ el. apply updateElementNew_idle. exact Hcase.
Qed.

Lemma set_same_values_changes_nothing_witness :
  let r := Position.set 0 one_box (Position.get [] sized) sized
                        UpdateElementManager.empty in
  Position.data (Position.r_this r) = Position.data sized /\
  Position.positionChangeSet (Position.r_this r)
    = Position.positionChangeSet sized /\
  Position.notified (Position.r_this r) = Position.notified sized /\
  (ChangeSet.hasChange (Position.positionChangeSet sized) = false ->
   forall el, Position.updateElementNew one_box el (Position.r_this r)
              = ([], Position.r_this r)).
Proof.
  apply (set_same_values_changes_nothing 0 one_box (Position.get [] sized)
           sized UpdateElementManager.empty).
  - intros k. destruct k; vm_compute; first [exact I | reflexivity].
  - intros k v H. unfold Position.get in H.
    rewrite lookup_assign_of_data in H. congruence.
  - vm_compute. repeat split; reflexivity.
Defined.

(** C9 as stated fails: [rendered] is an instance with a connected element
    whose canonical [width] is [null] (the element carries an inline
    width, so the first [set] measured it without storing it).  A [set]
    with a copy of the canonical data passes [width: null] explicitly,
    which makes [#updatePosition] store the measured width: the call sets
    the [width] flag, the DOM-sync callback writes the width style and the
    subscriber is notified. *)
Lemma set_same_values_counterexample :
  let position := Position.get [] rendered in
  let r := Position.set 0 one_box position rendered
                        UpdateElementManager.empty in
  let frame := Position.updateElementNew one_box 0 (Position.r_this r) in
  (forall k, Obj.lookup position k = Some (getf (Position.data rendered) k)) /\
  ChangeSet.hasChange (Position.positionChangeSet rendered) = false /\
  d_width (Position.data rendered) = VNull /\
  d_width (Position.data (Position.r_this r)) = VNum (Fin 300) /\
  cs_width (Position.positionChangeSet (Position.r_this r)) = true /\
  fst frame = [(Position.S_width, Position.CssPx (VNum (Fin 300)))] /\
  length (Position.notified (snd frame))
    = S (length (Position.notified rendered)).
Proof.
  split; [intros k; apply lookup_assign_of_data|].
  repeat split; vm_compute; reflexivity.
Qed.

(** The same second call on an instance without element whose [left] has
    become NaN (see C2): NaN differs from itself, so every such call sets
    the [left] flag again and notifies again. *)
Example set_NaN_twice :
  let once := Position.r_this
                (Position.set 0 no_elements [(K_left, VNum NaN)]
                   (Position.with_subscriptions [7] bare)
                   UpdateElementManager.empty) in
  let twice := Position.r_this
                 (Position.set 0 no_elements [(K_left, VNum NaN)] once
                               UpdateElementManager.empty) in
  length (Position.notified once) = 1 /\ length (Position.notified twice) = 2.
Proof. split; vm_compute; reflexivity. Qed.

(** * Further properties of the code *)

(** ** The form of what [set] stores *)

Lemma isInteger_inject_Z (z : Z) : Num.isInteger (Fin (inject_Z z)) = true.
Proof.
  unfold Num.isInteger. rewrite Qfloor_Z. apply Qeq_bool_refl.
Qed.

Lemma whole_round (v : value) : Js.is_number v = true -> whole (Js.round v) = true.
Proof.
  destruct v as [| |b|n|s|i]; try discriminate. intros _.
  destruct n as [| | |q]; try reflexivity.
  unfold Js.round, Num.round, whole. rewrite Qfloor_Z. apply Qeq_bool_refl.
Qed.

Lemma isInteger_round (v : value) :
  Js.isFinite v = true -> Js.isInteger (Js.round v) = true.
Proof.
  destruct v as [| |b|n|s|i]; try discriminate.
  destruct n as [| | |q]; try discriminate. intros _.
  apply isInteger_inject_Z.
Qed.

Lemma in_scale_range_clamp (v : value) :
  Js.is_number v = true -> in_scale_range (Js.clamp_scale v) = true.
Proof.
  destruct v as [| |b|n|s|i]; try discriminate. intros _.
  destruct n as [| | |q]; try reflexivity.
  unfold Js.clamp_scale, Num.min, Num.max, Num.ltb, Num.of_Z, Num.zero.
  destruct (Qle_bool q (inject_Z 1000)) eqn:E1; cbn [negb].
  - destruct (Qle_bool q 0) eqn:E0; cbn [negb in_scale_range].
    + reflexivity.
    + rewrite E1, andb_true_r.
      apply Qle_bool_iff. apply Qlt_le_weak. apply Qnot_le_lt.
      intros H. apply Qle_bool_iff in H. congruence.
  - reflexivity.
Qed.

Lemma accepted_shaped (k : key) (v v' : value) :
  accepted k v = Some v' -> shaped k v' = true.
Proof.
  destruct k; unfold accepted, shaped;
    match goal with
    | |- (if ?c then _ else _) = _ -> _ => destruct c eqn:E
    end; try discriminate; intros [= <-].
  all: try (apply whole_round; exact E).
  all: try (apply orb_true_iff in E as [E|E];
            [ rewrite (isFinite_number _ E), (isInteger_round _ E);
              apply orb_true_r
            | destruct v; try discriminate; reflexivity ]).
  all: try (rewrite orb_comm; exact E).
  all: try (destruct (Js.is_number v) eqn:En;
            [ rewrite ?(whole_round _ En), ?(in_scale_range_clamp _ En);
              rewrite ?orb_true_r; reflexivity
            | ]).
  all: try reflexivity.
  all: try (destruct (transformOrigins_includes v) eqn:Ei;
            [rewrite Ei; apply orb_true_r | reflexivity]).
  all: try (cbn [orb] in E; destruct (Js.is_auto v) eqn:Ea;
            [rewrite orb_true_r; reflexivity |];
            cbn [orb] in E; rewrite E; reflexivity).
Qed.

(** Whatever the element, the argument and the validators: either [set]
    leaves the data alone, or the blocks ran on some position object. *)
Lemma set_data_cases (self : nat) (els : nat -> Element) (position : obj)
    (p : Position.t) (u : UpdateElementManager.t) :
  Position.data (Position.r_this (Position.set self els position p u))
  = Position.data p
  \/ exists reached changeSet,
       forall k,
         getf (Position.data
                 (Position.r_this (Position.set self els position p u))) k
         = stored k (Position.mkSetState reached (Position.data p) changeSet).
Proof.
  unfold Position.set.
  destruct (Position.not_positionable _); [left; reflexivity|].
  destruct (Position.target_element _ _) as [el|].
  - destruct (cache_style_frame els el p) as (Hd & _).
    unfold Position.updatePosition.
    destruct (Position.prepare els position el (Position.cache_style els el p))
      as [current vd].
    destruct (Position.run_validators _ vd current) as [validated|];
      [|left; exact Hd].
    right.
    exists validated,
      (Position.positionChangeSet (Position.cache_style els el p)).
    intros k.
    destruct (UpdateElementManager.add el self u) as [u' promise].
    cbn [Position.r_this].
    match goal with
    | |- context [Position.set_fields ?s] => set (st := s)
    end.
    assert (Hdata : forall q : Position.t,
              Position.data
                match Position.defaultData q with
                | Some _ => q
                | None => Position.with_defaultData
                            (Some (Obj.assign [] (Obj.of_data (Position.data q)))) q
                end = Position.data q).
    { intros q. destruct (Position.defaultData q); reflexivity. }
    cbn [Position.data Position.with_updateElementPromise].
    rewrite Hdata.
    cbn [Position.data Position.with_positionChangeSet Position.with_data].
    rewrite set_fields_data. unfold st. rewrite Hd. reflexivity.
  - right. exists position, (Position.positionChangeSet p). intros k.
    cbv zeta. cbn [Position.r_this]. rewrite updateSubscribers_data.
    cbn [Position.data Position.with_positionChangeSet Position.with_data].
    apply set_fields_data.
Qed.

(** Whatever [set] writes into a field has the form its block produces:
    what [Math.round] returns (an integer, NaN or an infinity) for [left],
    [top] and [zIndex], that or ['auto'] or [null] for [width] and
    [height], an integer or [null] for the min/max fields, any number or
    [null] for the rotations and translations, a number within [0, 1000],
    NaN or [null] for [scale], a listed origin or [null] for
    [transformOrigin].  A field that is not written keeps its value. *)
Theorem set_stores_normal_forms (self : nat) (els : nat -> Element)
    (position : obj) (p : Position.t) (u : UpdateElementManager.t) (k : key) :
  let after :=
    Position.data (Position.r_this (Position.set self els position p u)) in
  getf after k = getf (Position.data p) k \/ shaped k (getf after k) = true.
Proof.
  cbv zeta.
  destruct (set_data_cases self els position p u) as [H | (reached & c & H)].
  - left. rewrite H. reflexivity.
  - rewrite H. unfold stored. cbn [Position.ss_position Position.ss_data].
    destruct (accepted k (Obj.read reached k)) as [v|] eqn:E;
      [|left; reflexivity].
    destruct (Js.strict_ne _ _); [right | left; reflexivity].
    apply accepted_shaped with (v := Obj.read reached k). exact E.
Qed.

(** ** The constructor *)

Lemma seed_fold (options : obj) (l : list key) (d : PositionData) (k : key) :
  NoDup l ->
  getf (fold_left (fun d k => match Position.seed_value k (Obj.read options k) with
                              | Some v => setf k v d
                              | None => d
                              end) l d) k =
  if bool_decide (k ∈ l)
  then match Position.seed_value k (Obj.read options k) with
       | Some v => v
       | None => getf d k
       end
  else getf d k.
Proof.
  intros Hnd. revert d.
  induction Hnd as [|k0 l Hnotin Hnd IH]; intros d; simpl.
  - reflexivity.
  - rewrite IH. destruct (decide (k = k0)) as [->|Hne].
    + rewrite bool_decide_eq_false_2 by exact Hnotin.
      rewrite bool_decide_eq_true_2 by apply list_elem_of_here.
      destruct (Position.seed_value k0 _); [apply getf_setf_eq | reflexivity].
    + assert (Hd : getf match Position.seed_value k0 (Obj.read options k0) with
                        | Some v => setf k0 v d
                        | None => d
                        end k = getf d k).
      { destruct (Position.seed_value k0 _); [|reflexivity].
        apply getf_setf_ne. exact Hne. }
      destruct (bool_decide (k ∈ l)) eqn:E.
      * apply bool_decide_eq_true_1 in E.
        rewrite bool_decide_eq_true_2 by (apply list_elem_of_further; exact E).
        rewrite Hd. reflexivity.
      * apply bool_decide_eq_false_1 in E.
        rewrite bool_decide_eq_false_2; [exact Hd|].
        rewrite elem_of_cons. intros [H|H]; congruence.
Qed.

Lemma all_keys_NoDup : NoDup all_keys.
Proof. apply (bool_decide_unpack _). vm_compute. exact I. Qed.

Lemma all_keys_all (k : key) : k ∈ all_keys.
Proof. apply (bool_decide_unpack _). destruct k; vm_compute; exact I. Qed.

Lemma seed_read (options : obj) (d : PositionData) (k : key) :
  getf (Position.seed options d) k =
  match Position.seed_value k (Obj.read options k) with
  | Some v => v
  | None => getf d k
  end.
Proof.
  unfold Position.seed. rewrite seed_fold by apply all_keys_NoDup.
  rewrite bool_decide_eq_true_2 by apply all_keys_all. reflexivity.
Qed.

Lemma seed_value_seeded (k : key) (v v' : value) :
  Position.seed_value k v = Some v' -> seeded k v' = true.
Proof.
  destruct k; unfold Position.seed_value, seeded;
    match goal with
    | |- (if ?c then _ else _) = _ -> _ => destruct c eqn:E
    end; try discriminate; intros [= <-].
  all: try (rewrite orb_comm; exact E).
  all: try (apply andb_true_iff in E as [_ E]; exact E).
  all: try (apply orb_true_iff in E as [E|E];
            [ rewrite (isFinite_number _ E), (isInteger_round _ E);
              apply orb_true_r
            | destruct v; try discriminate; reflexivity ]).
  all: try (apply orb_true_iff in E as [E|E];
            [ apply orb_true_iff in E as [E|E];
              [ rewrite (isFinite_number _ E), (isInteger_round _ E);
                apply orb_true_r
              | destruct (is_auto_not_number _ E) as [En _]; rewrite En, E;
                rewrite orb_true_r; reflexivity ]
            | destruct v; try discriminate; reflexivity ]).
Qed.

(** Every field of a Position just constructed is [null] or a finite
    number (an integer for the pixel fields), ['auto'] for [width] and
    [height], and one of the listed origins for [transformOrigin]; no
    option makes the constructor store NaN or an infinity. *)
Theorem constructor_data_seeded (parent : Parent) (options : obj)
    (calculateTransform : option bool) (initial : Position.initialOption)
    (validator : list ValidatorEntry) (p : Position.t) (k : key) :
  Position.new parent options calculateTransform initial validator = Normal p ->
  seeded k (getf (Position.data p) k) = true.
Proof.
  unfold Position.new. destruct initial; try discriminate; intros [= <-];
    cbn [Position.data]; rewrite seed_read;
    (destruct (Position.seed_value k (Obj.read options k)) as [v|] eqn:E;
     [ apply seed_value_seeded with (v := Obj.read options k); exact E
     | destruct k; reflexivity ]).
Qed.

Lemma constructor_data_seeded_witness :
  exists p,
    Position.new ParentUndefined
                 [(K_width, VStr "auto"); (K_left, VNum (Fin (5 # 2)))]
                 None Position.InitialAbsent [] = Normal p /\
    seeded K_left (getf (Position.data p) K_left) = true /\
    seeded K_width (getf (Position.data p) K_width) = true.
Proof.
  destruct (Position.new ParentUndefined
              [(K_width, VStr "auto"); (K_left, VNum (Fin (5 # 2)))]
              None Position.InitialAbsent []) as [p|e] eqn:Hnew;
    [|vm_compute in Hnew; discriminate Hnew].
  exists p. split; [reflexivity|].
  split.
  - exact (constructor_data_seeded _ _ _ _ _ p K_left Hnew).
  - exact (constructor_data_seeded _ _ _ _ _ p K_width Hnew).
Defined.

(** ** Change flags and notifications *)

Lemma set_field_changeSet (k : key) (s : Position.SetState) :
  Position.ss_changeSet (Position.set_field k s) =
  if changed k s
  then ChangeSet.flag (Position.bit_of k) (Position.ss_changeSet s)
  else Position.ss_changeSet s.
Proof.
  rewrite set_field_spec. unfold changed.
  destruct (accepted k _) as [v|]; [|reflexivity].
  apply store_assign_changeSet.
Qed.

Lemma changed_set_field_other (k k0 : key) (s : Position.SetState) :
  k <> k0 -> changed k (Position.set_field k0 s) = changed k s.
Proof.
  intros Hne. unfold changed.
  rewrite set_field_position_other by exact Hne.
  rewrite set_field_data_other by exact Hne. reflexivity.
Qed.

Lemma hasChange_flag (b : csbit) (c : PositionChangeSet) :
  ChangeSet.hasChange (ChangeSet.flag b c) = true.
Proof.
  destruct b; unfold ChangeSet.hasChange, ChangeSet.flag; cbn;
    rewrite ?orb_true_r; reflexivity.
Qed.

Lemma existsb_changed_other (l : list key) (k0 : key) (s : Position.SetState) :
  k0 ∉ l ->
  existsb (fun k => changed k (Position.set_field k0 s)) l
  = existsb (fun k => changed k s) l.
Proof.
  induction l as [|k l IH]; intros Hn; simpl; [reflexivity|].
  apply not_elem_of_cons in Hn as [Hne Hn].
  rewrite changed_set_field_other by congruence.
  rewrite IH by exact Hn. reflexivity.
Qed.

Lemma set_fields_fold_hasChange (l : list key) (s : Position.SetState) :
  NoDup l ->
  ChangeSet.hasChange
    (Position.ss_changeSet (fold_left (fun s k => Position.set_field k s) l s))
  = ChangeSet.hasChange (Position.ss_changeSet s)
    || existsb (fun k => changed k s) l.
Proof.
  intros Hnd. revert s.
  induction Hnd as [|k0 l Hnotin Hnd IH]; intros s; simpl.
  - rewrite orb_false_r. reflexivity.
  - rewrite IH, existsb_changed_other by exact Hnotin.
    rewrite set_field_changeSet.
    destruct (changed k0 s); cbn [orb].
    + rewrite hasChange_flag, orb_true_r. reflexivity.
    + reflexivity.
Qed.

Lemma existsb_set_order (f : key -> bool) :
  existsb f Position.set_order = true <-> exists k, f k = true.
Proof.
  rewrite existsb_exists. split.
  - intros (k & _ & H). exists k. exact H.
  - intros (k & H). exists k. split; [|exact H].
    apply list_elem_of_In, set_order_all.
Qed.

(** The blocks raise a flag exactly when one of them stores a value. *)
Lemma set_fields_hasChange (s : Position.SetState) :
  ChangeSet.hasChange (Position.ss_changeSet s) = false ->
  ChangeSet.hasChange (Position.ss_changeSet (Position.set_fields s)) = true
  <-> exists k, changed k s = true.
Proof.
  intros H0. unfold Position.set_fields.
  rewrite set_fields_fold_hasChange by apply set_order_NoDup.
  rewrite H0. cbn [orb]. apply existsb_set_order.
Qed.

Lemma set_fields_unchanged (s : Position.SetState) :
  (forall k, changed k s = false) ->
  Position.ss_data (Position.set_fields s) = Position.ss_data s.
Proof.
  intros H. apply set_fields_fixed. intros k. specialize (H k).
  unfold changed in H. destruct (accepted k _) as [v|]; [|exact I].
  unfold Js.strict_ne in H. apply negb_false_iff in H. exact H.
Qed.

Lemma updateSubscribers_changed (p : Position.t) :
  ChangeSet.hasChange (Position.positionChangeSet p) = true ->
  Position.notified (Position.updateSubscribers p) =
    (Position.notified p
     ++ map (fun handler => (handler, Position.data p))
            (Position.subscriptions p))%list /\
  Position.positionChangeSet (Position.updateSubscribers p)
    = ChangeSet.set false /\
  Position.subscriptions (Position.updateSubscribers p)
    = Position.subscriptions p.
Proof.
  intros H. unfold Position.updateSubscribers. rewrite H. cbn [negb].
  destruct (cs_width _ || cs_height _); repeat split; reflexivity.
Qed.

(** Without a connected target element [set] notifies the subscribers
    itself: when a block stores a value, every subscribed handler is called
    once, in subscription order, with the data as the call leaves it; when
    no block stores anything, nobody is called and the data is unchanged.
    Either way the change flags are clear afterwards. *)
Theorem set_notifies_on_change (self : nat) (els : nat -> Element)
    (position : obj) (p : Position.t) (u : UpdateElementManager.t) :
  Position.not_positionable (Position.parent p) = false ->
  Position.target_element els (Position.parent p) = None ->
  ChangeSet.hasChange (Position.positionChangeSet p) = false ->
  let s := Position.mkSetState position (Position.data p)
                               (Position.positionChangeSet p) in
  let p' := Position.r_this (Position.set self els position p u) in
  Position.positionChangeSet p' = ChangeSet.set false /\
  Position.subscriptions p' = Position.subscriptions p /\
  ((exists k, changed k s = true) ->
   Position.notified p' =
   (Position.notified p
    ++ map (fun handler => (handler, Position.data p'))
           (Position.subscriptions p))%list) /\
  ((forall k, changed k s = false) ->
   Position.notified p' = Position.notified p /\
   Position.data p' = Position.data p).
Proof.
  intros Hp Ht H0. cbv zeta.
  rewrite set_no_element by assumption. cbv zeta. cbn [Position.r_this].
  set (s := Position.mkSetState position (Position.data p)
                                (Position.positionChangeSet p)).
  pose proof (set_fields_hasChange s H0) as Hflag.
  set (q := Position.with_positionChangeSet
              (Position.ss_changeSet (Position.set_fields s))
              (Position.with_data (Position.ss_data (Position.set_fields s)) p)).
  assert (Hq : Position.positionChangeSet q
               = Position.ss_changeSet (Position.set_fields s)) by reflexivity.
  assert (Hqd : Position.data q = Position.ss_data (Position.set_fields s))
    by reflexivity.
  assert (Hqn : Position.notified q = Position.notified p) by reflexivity.
  assert (Hqs : Position.subscriptions q = Position.subscriptions p)
    by reflexivity.
  clearbody q.
  destruct (ChangeSet.hasChange
              (Position.ss_changeSet (Position.set_fields s))) eqn:E.
  - rewrite <- Hq in E.
    destruct (updateSubscribers_changed q E) as (Hn & Hc & Hs).
    split; [exact Hc|]. split; [rewrite Hs; exact Hqs|]. split.
    + intros _. rewrite Hn, updateSubscribers_data, Hqn, Hqs. reflexivity.
    + intros Hnone. exfalso.
      destruct (proj1 Hflag eq_refl) as (k & Hk).
      rewrite Hnone in Hk. discriminate.
  - rewrite <- Hq in E. rewrite (updateSubscribers_idle q E).
    split; [apply hasChange_false; exact E|].
    split; [exact Hqs|]. split.
    + intros Hsome. apply Hflag in Hsome. discriminate.
    + intros Hnone. split; [exact Hqn|].
      rewrite Hqd. apply set_fields_unchanged. exact Hnone.
Qed.

Lemma set_notifies_on_change_witness :
  let p := Position.with_subscriptions [7] bare in
  let p' := Position.r_this
              (Position.set 0 no_elements [(K_left, VNum (Fin 10))] p
                            UpdateElementManager.empty) in
  Position.notified p' = [(7, Position.data p')] /\
  Position.positionChangeSet p' = ChangeSet.set false.
Proof.
  cbv zeta.
  destruct (set_notifies_on_change 0 no_elements [(K_left, VNum (Fin 10))]
              (Position.with_subscriptions [7] bare)
              UpdateElementManager.empty eq_refl eq_refl eq_refl)
    as (Hflags & _ & Hsome & _).
  split; [|exact Hflags].
  apply Hsome. exists K_left. reflexivity.
Defined.

(** ** [set] with a connected element: default data and the first frame *)

Lemma set_element_result (self : nat) (els : nat -> Element) (position : obj)
    (p : Position.t) (u : UpdateElementManager.t) (el : nat)
    (validated : obj) :
  Position.not_positionable (Position.parent p) = false ->
  Position.target_element els (Position.parent p) = Some el ->
  Position.updatePosition els position el (Position.cache_style els el p)
  = Some validated ->
  Position.set self els position p u =
  let c := Position.cache_style els el p in
  let s := Position.set_fields
             (Position.mkSetState validated (Position.data c)
                                  (Position.positionChangeSet c)) in
  let p2 := Position.with_positionChangeSet (Position.ss_changeSet s)
              (Position.with_data (Position.ss_data s) c) in
  let p3 := match Position.defaultData p2 with
            | None => Position.with_defaultData
                        (Some (Obj.assign [] (Obj.of_data (Position.data p2))))
                        p2
            | Some _ => p2
            end in
  Position.mkResult position
    (Position.with_updateElementPromise
       (Some (UpdateElementManager.promises u)) p3)
    (fst (UpdateElementManager.add el self u)).
Proof.
  intros Hp Ht Hup. unfold Position.set. rewrite Hp, Ht, Hup. reflexivity.
Qed.

Lemma cache_style_more (els : nat -> Element) (el : nat) (p : Position.t) :
  let c := Position.cache_style els el p in
  Position.subscriptions c = Position.subscriptions p /\
  Position.parent c = Position.parent p /\
  Position.positionChangeSet c =
    (if StyleCache.hasData el (Position.styleCache p)
     then Position.positionChangeSet p else ChangeSet.set true) /\
  StyleCache.hasData el (Position.styleCache c) = true.
Proof.
  unfold Position.cache_style.
  destruct (StyleCache.hasData el (Position.styleCache p)) eqn:E;
    cbn; repeat split; try reflexivity; try exact E.
  unfold StyleCache.hasData. cbn. apply Nat.eqb_refl.
Qed.

Lemma set_keeps_default (self : nat) (els : nat -> Element) (position : obj)
    (p : Position.t) (u : UpdateElementManager.t) (d : obj) :
  Position.defaultData p = Some d ->
  Position.defaultData (Position.r_this (Position.set self els position p u))
  = Some d.
Proof.
  intros Hd. unfold Position.set.
  destruct (Position.not_positionable _); [exact Hd|].
  destruct (Position.target_element _ _) as [el|].
  - destruct (cache_style_frame els el p) as (_ & _ & _ & _ & Hdef & _).
    destruct (Position.updatePosition _ _ _ _) as [validated|].
    + destruct (UpdateElementManager.add el self u) as [u' promise].
      cbn [Position.r_this Position.defaultData
           Position.with_updateElementPromise].
      match goal with
      | |- Position.defaultData
             match Position.defaultData ?q with _ => _ end = _ =>
          assert (Hq : Position.defaultData q = Some d)
            by (cbn [Position.defaultData Position.with_positionChangeSet
                     Position.with_data]; rewrite Hdef; exact Hd);
          rewrite Hq; exact Hq
      end.
    + cbn [Position.r_this]. rewrite Hdef. exact Hd.
  - cbv zeta. cbn [Position.r_this].
    match goal with
    | |- Position.defaultData (Position.updateSubscribers ?q) = _ =>
        destruct (updateSubscribers_frame q) as (_ & _ & _ & Hdef & _);
        rewrite Hdef
    end.
    exact Hd.
Qed.

(** Once the default data is captured, no [set] replaces it: after any run
    of [set] calls, on fresh objects or on stored snapshots, [reset] still
    goes back to the same default. *)
Theorem default_survives_sets (self : nat) (els : nat -> Element)
    (args : list Position.argument) (p : Position.t)
    (u : UpdateElementManager.t) (d : obj) :
  Position.defaultData p = Some d ->
  Position.defaultData (fst (set_all self els args p u)) = Some d.
Proof.
  unfold set_all. revert p u.
  induction args as [|a args IH]; intros p u Hd; [exact Hd|].
  cbn [fold_left]. cbn [fst snd].
  destruct (Position.set_argument self els a p u) as [p1 u1] eqn:E.
  apply IH.
  unfold Position.set_argument in E. destruct a as [o|name].
  - injection E as <- _. apply set_keeps_default. exact Hd.
  - destruct (Position.getSave name p) as [o|].
    + injection E as <- _.
      cbn [Position.defaultData Position.with_dataSaved].
      apply set_keeps_default. exact Hd.
    + injection E as <- _. apply set_keeps_default. exact Hd.
Qed.

Lemma default_survives_sets_witness :
  Position.defaultData
    (fst (set_all 0 one_box
            [Position.Literal [(K_left, VNum (Fin 10))];
             Position.Literal [(K_width, VNum (Fin 50))]]
            rendered UpdateElementManager.empty))
  = Position.defaultData rendered.
Proof.
  destruct (Position.defaultData rendered) as [d|] eqn:Hdefault;
    [|vm_compute in Hdefault; discriminate Hdefault].
  apply default_survives_sets. exact Hdefault.
Defined.

(** The first [set] that reaches a connected target element and is not
    vetoed captures the default data: a copy of the canonical data as that
    call leaves it.  The call also stores the promise of the update manager
    for [elementUpdated]; it notifies no subscriber itself. *)
Theorem first_element_set_captures_default (self : nat)
    (els : nat -> Element) (position : obj) (p : Position.t)
    (u : UpdateElementManager.t) (el : nat) (validated : obj) :
  Position.not_positionable (Position.parent p) = false ->
  Position.target_element els (Position.parent p) = Some el ->
  Position.updatePosition els position el (Position.cache_style els el p)
  = Some validated ->
  Position.defaultData p = None ->
  let p' := Position.r_this (Position.set self els position p u) in
  Position.defaultData p' = Some (Obj.of_data (Position.data p')) /\
  Position.updateElementPromise p' = Some (UpdateElementManager.promises u) /\
  Position.notified p' = Position.notified p /\
  Position.r_position (Position.set self els position p u) = position.
Proof.
  intros Hp Ht Hup Hnone. cbv zeta.
  rewrite (set_element_result self els position p u el validated Hp Ht Hup).
  cbv zeta. cbn [Position.r_this Position.r_position].
  destruct (cache_style_frame els el p) as (_ & _ & _ & Hn & Hdef & _).
  set (c := Position.cache_style els el p) in *.
  set (s := Position.set_fields _).
  assert (Hq : Position.defaultData
                 (Position.with_positionChangeSet (Position.ss_changeSet s)
                    (Position.with_data (Position.ss_data s) c)) = None).
  { cbn [Position.defaultData Position.with_positionChangeSet
         Position.with_data]. rewrite Hdef. exact Hnone. }
  rewrite Hq.
  cbn [Position.defaultData Position.data Position.updateElementPromise
       Position.notified Position.with_updateElementPromise
       Position.with_defaultData Position.with_positionChangeSet
       Position.with_data].
  rewrite Hn. repeat split; reflexivity.
Qed.

Lemma first_element_set_captures_default_witness :
  let r := Position.set 0 one_box [(K_left, VNum (Fin 10))] hosted
                        UpdateElementManager.empty in
  Position.defaultData (Position.r_this r)
  = Some (Obj.of_data (Position.data (Position.r_this r))) /\
  Position.notified (Position.r_this r) = [].
Proof.
  cbv zeta.
  destruct (Position.updatePosition one_box [(K_left, VNum (Fin 10))] 0
              (Position.cache_style one_box 0 hosted))
    as [validated|] eqn:Hup; [|vm_compute in Hup; discriminate Hup].
  destruct (first_element_set_captures_default 0 one_box
              [(K_left, VNum (Fin 10))] hosted UpdateElementManager.empty
              0 validated eq_refl eq_refl Hup eq_refl)
    as (Hdefault & _ & Hnotified & _).
  split; [exact Hdefault | exact Hnotified].
Defined.

Lemma flag_set_true (b : csbit) :
  ChangeSet.flag b (ChangeSet.set true) = ChangeSet.set true.
Proof. destruct b; reflexivity. Qed.

Lemma set_fields_all_flags (s : Position.SetState) :
  Position.ss_changeSet s = ChangeSet.set true ->
  Position.ss_changeSet (Position.set_fields s) = ChangeSet.set true.
Proof.
  unfold Position.set_fields. generalize Position.set_order. intros l.
  revert s. induction l as [|k l IH]; intros s H; [exact H|].
  cbn [fold_left]. apply IH. rewrite set_field_changeSet, H.
  destruct (changed k s); [apply flag_set_true | reflexivity].
Qed.

Lemma target_element_connected (els : nat -> Element) (parent : Parent)
    (el : nat) :
  Position.target_element els parent = Some el ->
  el_isConnected (els el) = true.
Proof.
  unfold Position.target_element.
  destruct parent as [|e|positionable [e|] minimized maximize];
    try discriminate;
    (destruct (el_isConnected (els e)) eqn:E; [|discriminate]);
    intros [= <-]; exact E.
Qed.

(** What the DOM-sync callback does when every flag is raised. *)
Lemma updateElementNew_all (els : nat -> Element) (el : nat)
    (p : Position.t) :
  el_isConnected (els el) = true ->
  Position.positionChangeSet p = ChangeSet.set true ->
  let d := Position.data p in
  Position.updateElementNew els el p =
  ([(Position.S_zIndex,
     if Js.is_number (d_zIndex d) then Position.CssNumber (d_zIndex d)
     else Position.CssNull);
    (Position.S_width,
     if Js.is_number (d_width d) then Position.CssPx (d_width d)
     else Position.CssValue (d_width d));
    (Position.S_height,
     if Js.is_number (d_height d) then Position.CssPx (d_height d)
     else Position.CssValue (d_height d));
    (Position.S_transformOrigin,
     if Js.strict_eq (d_transformOrigin d) (VStr "center")
     then Position.CssNull else Position.CssValue (d_transformOrigin d));
    (Position.S_transform, Position.CssOrtho d)],
   Position.updateSubscribers p).
Proof.
  intros Hc Hcs. unfold Position.updateElementNew. rewrite Hc, Hcs.
  reflexivity.
Qed.

(** The first [set] for a target element (no style of it cached yet) that
    is not vetoed raises every change flag, whatever the argument: the
    frame that follows writes all five inline styles from the canonical
    data, calls every subscriber once with that data and clears the
    flags. *)
Theorem first_set_syncs_every_style (self : nat) (els : nat -> Element)
    (position : obj) (p : Position.t) (u : UpdateElementManager.t)
    (el : nat) (validated : obj) :
  Position.not_positionable (Position.parent p) = false ->
  Position.target_element els (Position.parent p) = Some el ->
  StyleCache.hasData el (Position.styleCache p) = false ->
  Position.updatePosition els position el (Position.cache_style els el p)
  = Some validated ->
  let p' := Position.r_this (Position.set self els position p u) in
  let d := Position.data p' in
  let frame := Position.updateElementNew els el p' in
  fst frame =
    [(Position.S_zIndex,
      if Js.is_number (d_zIndex d) then Position.CssNumber (d_zIndex d)
      else Position.CssNull);
     (Position.S_width,
      if Js.is_number (d_width d) then Position.CssPx (d_width d)
      else Position.CssValue (d_width d));
     (Position.S_height,
      if Js.is_number (d_height d) then Position.CssPx (d_height d)
      else Position.CssValue (d_height d));
     (Position.S_transformOrigin,
      if Js.strict_eq (d_transformOrigin d) (VStr "center")
      then Position.CssNull else Position.CssValue (d_transformOrigin d));
     (Position.S_transform, Position.CssOrtho d)] /\
  Position.data (snd frame) = d /\
  Position.positionChangeSet (snd frame) = ChangeSet.set false /\
  Position.notified (snd frame) =
    (Position.notified p
     ++ map (fun handler => (handler, d)) (Position.subscriptions p))%list.
Proof.
  intros Hp Ht Hcache Hup. cbv zeta.
  pose proof (target_element_connected els _ el Ht) as Hcon.
  rewrite (set_element_result self els position p u el validated Hp Ht Hup).
  cbv zeta. cbn [Position.r_this].
  destruct (cache_style_frame els el p) as (_ & _ & _ & Hn & _).
  destruct (cache_style_more els el p) as (Hsub & _ & Hcs & _).
  rewrite Hcache in Hcs.
  set (c := Position.cache_style els el p) in *.
  set (s := Position.set_fields _).
  assert (Hflags : Position.ss_changeSet s = ChangeSet.set true).
  { apply set_fields_all_flags. exact Hcs. }
  set (p' := Position.with_updateElementPromise _ _).
  assert (Hd' : Position.data p' = Position.ss_data s).
  { unfold p'. destruct (Position.defaultData _); reflexivity. }
  assert (Hc' : Position.positionChangeSet p' = ChangeSet.set true).
  { unfold p'. destruct (Position.defaultData _); exact Hflags. }
  assert (Hn' : Position.notified p' = Position.notified p).
  { unfold p'. destruct (Position.defaultData _); exact Hn. }
  assert (Hs' : Position.subscriptions p' = Position.subscriptions p).
  { unfold p'. destruct (Position.defaultData _); exact Hsub. }
  clearbody p'.
  rewrite (updateElementNew_all els el p' Hcon Hc'). cbv zeta. cbn [fst snd].
  assert (Hch : ChangeSet.hasChange (Position.positionChangeSet p') = true)
    by (rewrite Hc'; reflexivity).
  destruct (updateSubscribers_changed p' Hch) as (Hnot & Hclear & _).
  split; [reflexivity|]. split; [apply updateSubscribers_data|].
  split; [exact Hclear|]. rewrite Hnot, Hn', Hs'. reflexivity.
Qed.

Lemma first_set_syncs_every_style_witness :
  let p' := Position.r_this
              (Position.set 0 one_box [(K_left, VNum (Fin 10))] hosted
                            UpdateElementManager.empty) in
  let frame := Position.updateElementNew one_box 0 p' in
  map fst (fst frame) =
    [Position.S_zIndex; Position.S_width; Position.S_height;
     Position.S_transformOrigin; Position.S_transform] /\
  Position.notified (snd frame) = [(7, Position.data p')].
Proof.
  cbv zeta.
  destruct (Position.updatePosition one_box [(K_left, VNum (Fin 10))] 0
              (Position.cache_style one_box 0 hosted))
    as [validated|] eqn:Hup; [|vm_compute in Hup; discriminate Hup].
  destruct (first_set_syncs_every_style 0 one_box
              [(K_left, VNum (Fin 10))] hosted UpdateElementManager.empty
              0 validated eq_refl eq_refl eq_refl Hup)
    as (Hstyles & _ & _ & Hnotified).
  split.
  - rewrite Hstyles. reflexivity.
  - exact Hnotified.
Defined.

(** ** [toJSON] and the constructor *)

Lemma round_integer (q : Q) :
  Qeq_bool q (inject_Z (Qfloor q)) = true ->
  Qeq_bool (inject_Z (Qfloor (q + (1 # 2)))) q = true.
Proof.
  intros H. apply Qeq_bool_iff in H. apply Qeq_bool_iff.
  assert (Hf : Qfloor (q + (1 # 2)) = Qfloor q).
  { rewrite (Qfloor_comp (q + (1 # 2)) (inject_Z (Qfloor q) + (1 # 2))).
    - apply Qfloor_half.
    - rewrite <- H. reflexivity. }
  rewrite Hf. symmetry. exact H.
Qed.

Lemma strict_eq_refl (v : value) :
  v <> VNum NaN -> Js.strict_eq v v = true.
Proof.
  destruct v as [| |b|n|s|i]; intros H; unfold Js.strict_eq; try reflexivity.
  - destruct b; reflexivity.
  - destruct n; try reflexivity; [congruence | apply Qeq_bool_refl].
  - apply String.eqb_refl.
  - apply Nat.eqb_refl.
Qed.

Lemma strict_eq_round_integer (v : value) :
  Js.isInteger v = true -> Js.strict_eq (Js.round v) v = true.
Proof.
  destruct v as [| |b|n|s|i]; try discriminate.
  destruct n as [| | |q]; try discriminate.
  unfold Js.isInteger, Num.isInteger, Js.round, Num.round, Js.strict_eq, Num.eqb.
  apply round_integer.
Qed.

Lemma isInteger_isFinite (v : value) :
  Js.isInteger v = true -> Js.isFinite v = true.
Proof.
  destruct v as [| |b|n|s|i]; try discriminate.
  destruct n; try discriminate. reflexivity.
Qed.

(** The constructor takes a value in its own form as it is. *)
Lemma seed_value_seeded_value (k : key) (v : value) :
  seeded k v = true ->
  exists v', Position.seed_value k v = Some v' /\ Js.strict_eq v' v = true.
Proof.
  intros H.
  destruct v as [| |b|n|s|i];
    try (destruct k; discriminate H).
  - (* null *)
    destruct k; try discriminate H; exists VNull; split; reflexivity.
  - (* a number *)
    assert (Hfin : Js.isFinite (VNum n) = true).
    { destruct k; cbn [seeded orb Js.is_null Js.is_auto] in H;
        first [ exact H | apply isInteger_isFinite; exact H | discriminate H ]. }
    destruct k; cbn [seeded orb Js.is_null Js.is_auto] in H;
      try discriminate H;
      unfold Position.seed_value; rewrite Hfin; cbn [orb Js.is_number];
      eexists; (split; [reflexivity|]);
      first [ apply strict_eq_round_integer; exact H
            | apply strict_eq_refl; destruct n; discriminate ].
  - (* a string *)
    destruct k; cbn [seeded orb Js.is_null Js.isInteger Js.isFinite] in H;
      try discriminate H.
    + unfold Position.seed_value.
      cbn [Js.isFinite orb Js.is_number Js.is_null]. rewrite orb_false_r in H.
      rewrite H. cbn [orb]. eexists. split; [reflexivity|].
      apply strict_eq_refl. discriminate.
    + unfold Position.seed_value. cbn [Js.is_string andb]. rewrite H.
      eexists. split; [reflexivity|]. apply strict_eq_refl. discriminate.
    + unfold Position.seed_value.
      cbn [Js.isFinite orb Js.is_number Js.is_null]. rewrite orb_false_r in H.
      rewrite H. cbn [orb]. eexists. split; [reflexivity|].
      apply strict_eq_refl. discriminate.
Qed.

Lemma read_toJSON (p : Position.t) (k : key) :
  Obj.read (Position.toJSON p) k = getf (Position.data p) k.
Proof. unfold Position.toJSON. apply read_copy. Qed.

(** A Position built from the [toJSON()] of another holds the same data,
    field by field, provided that data is in the form the constructor
    produces (no NaN or infinity, whole pixel values). *)
Theorem toJSON_constructor_round_trip (parent : Parent) (p : Position.t)
    (calculateTransform : option bool) (validator : list ValidatorEntry) :
  (forall k, seeded k (getf (Position.data p) k) = true) ->
  exists p',
    Position.new parent (Position.toJSON p) calculateTransform
                 Position.InitialAbsent validator = Normal p' /\
    forall k, Js.strict_eq (getf (Position.data p') k)
                           (getf (Position.data p) k) = true.
Proof.
  intros Hs. unfold Position.new. eexists. split; [reflexivity|].
  intros k. cbn [Position.data]. rewrite seed_read, read_toJSON.
  destruct (seed_value_seeded_value k _ (Hs k)) as (v' & Hv & He).
  rewrite Hv. exact He.
Qed.

Lemma toJSON_constructor_round_trip_witness :
  let p := Position.r_this
             (Position.set 0 no_elements
                [(K_left, VNum (Fin (104 # 10))); (K_top, VNum (Fin 20));
                 (K_width, VStr "auto"); (K_height, VNum (Fin 200));
                 (K_zIndex, VNum (Fin 5)); (K_scale, VNum (Fin 2));
                 (K_rotateZ, VNum (Fin 45));
                 (K_transformOrigin, VStr "center")]
                bare UpdateElementManager.empty) in
  d_left (Position.data p) = VNum (Fin 10) /\
  d_transformOrigin (Position.data p) = VStr "center" /\
  exists p',
    Position.new ParentUndefined (Position.toJSON p) None
                 Position.InitialAbsent [] = Normal p' /\
    forall k, Js.strict_eq (getf (Position.data p') k)
                           (getf (Position.data p) k) = true.
Proof.
  cbv zeta. split; [vm_compute; reflexivity|].
  split; [vm_compute; reflexivity|].
  apply (toJSON_constructor_round_trip ParentUndefined _ None []).
  intros k. destruct k; vm_compute; reflexivity.
Defined.

(** ** Named snapshots: [save], [getSave], [remove] *)

(** [remove] hands back what [save] stored under the name and forgets it:
    the object returned is the one [save] returned, [getSave] no longer
    finds the name, and the other names are untouched.  Removing a name
    that is not stored returns [undefined] and leaves the map as it is. *)
Theorem save_remove_round_trip (name : string) (extra : obj)
    (p : Position.t) :
  let saved := fst (Position.save name extra p) in
  let p1 := snd (Position.save name extra p) in
  (exists p2,
     Position.remove (VStr name) p1 = Normal (Some saved, p2) /\
     Position.getSave name p2 = None /\
     (forall other, other <> name ->
        Position.getSave other p2 = Position.getSave other p) /\
     Position.data p2 = Position.data p /\
     Position.remove (VStr name) p2 = Normal (None, p2)) /\
  (Position.getSave name p = None ->
   exists p2, Position.remove (VStr name) p = Normal (None, p2) /\
              Position.dataSaved p2 = Position.dataSaved p).
Proof.
  cbv zeta. unfold Position.save, Position.remove, Position.getSave.
  cbn [fst snd Position.dataSaved Position.with_dataSaved Position.data].
  split.
  - eexists. split; [rewrite lookup_insert_eq; reflexivity|].
    cbn [Position.dataSaved Position.with_dataSaved Position.data].
    split; [apply lookup_delete_eq|]. split.
    + intros other Hne. rewrite lookup_delete_ne by congruence.
      apply lookup_insert_ne. congruence.
    + split; [reflexivity|].
      rewrite lookup_delete_eq.
      rewrite (delete_id (delete name _)) by apply lookup_delete_eq.
      reflexivity.
  - intros Hnone. eexists. split; [rewrite Hnone; reflexivity|].
    cbn [Position.dataSaved Position.with_dataSaved].
    apply delete_id. exact Hnone.
Qed.

(** ** [subscribe] and the function it returns *)

Lemma findIndex_None (handler : nat) (l : list nat) :
  Position.findIndex handler l = None <-> handler ∉ l.
Proof.
  induction l as [|x l IH]; simpl.
  - split; [intros _; apply not_elem_of_nil | reflexivity].
  - rewrite not_elem_of_cons. destruct (Nat.eqb x handler) eqn:E.
    + apply Nat.eqb_eq in E. split; [discriminate | intros [H _]; congruence].
    + apply Nat.eqb_neq in E.
      destruct (Position.findIndex handler l); simpl.
      * split; [discriminate|]. intros [_ H]. apply IH in H. discriminate.
      * split; [|reflexivity]. intros _. split; [congruence|].
        apply IH. reflexivity.
Qed.

Lemma findIndex_Some (handler : nat) (l : list nat) (index : nat) :
  Position.findIndex handler l = Some index ->
  l !! index = Some handler /\ handler ∉ take index l.
Proof.
  revert index. induction l as [|x l IH]; intros index; simpl; [discriminate|].
  destruct (Nat.eqb x handler) eqn:E.
  - intros [= <-]. apply Nat.eqb_eq in E. subst. split; [reflexivity|].
    apply not_elem_of_nil.
  - destruct (Position.findIndex handler l) as [i|]; simpl; [|discriminate].
    intros [= <-]. destruct (IH i eq_refl) as [H1 H2].
    split; [exact H1|]. simpl. apply not_elem_of_cons. split; [|exact H2].
    apply Nat.eqb_neq in E. congruence.
Qed.

Lemma filter_take_drop (handler : nat) (l : list nat) (index : nat) :
  l !! index = Some handler ->
  filter (fun x => x <> handler) (take index l ++ drop (S index) l)%list
  = filter (fun x => x <> handler) l.
Proof.
  intros H. rewrite <- (take_drop_middle l index handler H) at 3.
  rewrite !filter_app, filter_cons_False; [reflexivity|].
  intros Hne. apply Hne. reflexivity.
Qed.

(** [subscribe] calls the handler at once, with the data as it stands, and
    with nothing else changed; calling the function it returned takes the
    subscription out again.  If the handler was not subscribed before, the
    list of subscriptions is back to what it was; in every case it holds
    the same handlers as before, the others in their order.  Calling the
    function for a handler that is not subscribed changes nothing. *)
Theorem subscribe_then_unsubscribe (handler : nat) (p : Position.t) :
  let p1 := Position.subscribe handler p in
  let p2 := Position.unsubscribe handler p1 in
  Position.notified p1 = (Position.notified p ++ [(handler, Position.data p)])%list /\
  Position.subscriptions p1 = (Position.subscriptions p ++ [handler])%list /\
  Position.data p1 = Position.data p /\
  Position.subscriptions p2 ≡ₚ Position.subscriptions p /\
  filter (fun x => x <> handler) (Position.subscriptions p2)
    = filter (fun x => x <> handler) (Position.subscriptions p) /\
  (handler ∉ Position.subscriptions p ->
   Position.subscriptions p2 = Position.subscriptions p /\
   Position.unsubscribe handler p = p).
Proof.
  cbv zeta. unfold Position.subscribe.
  cbn [Position.notified Position.subscriptions Position.data
       Position.with_notified Position.with_subscriptions].
  split; [reflexivity|]. split; [reflexivity|]. split; [reflexivity|].
  unfold Position.unsubscribe.
  cbn [Position.subscriptions Position.with_notified
       Position.with_subscriptions].
  set (l := Position.subscriptions p).
  destruct (Position.findIndex handler (l ++ [handler])%list) as [index|] eqn:E.
  - destruct (findIndex_Some _ _ _ E) as [Hat Hbefore].
    cbn [Position.subscriptions Position.with_subscriptions].
    split.
    { apply (Permutation_cons_inv (a := handler)).
      rewrite Permutation_middle, (take_drop_middle _ _ _ Hat).
      symmetry. apply Permutation_cons_append. }
    split.
    { rewrite (filter_take_drop _ _ _ Hat), filter_app.
      rewrite filter_cons_False, filter_nil, app_nil_r; [reflexivity|].
      intros Hne. apply Hne. reflexivity. }
    intros Hnotin. split.
    + assert (Hi : index = length l).
      { destruct (decide (index < length l)) as [Hlt|Hge].
        - rewrite lookup_app_l in Hat by exact Hlt.
          exfalso. apply Hnotin. apply list_elem_of_lookup. eauto.
        - apply lookup_lt_Some in Hat. rewrite length_app in Hat.
          simpl in Hat. lia. }
      subst index. rewrite take_app_length.
      rewrite drop_ge by (rewrite length_app; simpl; lia).
      apply app_nil_r.
    + apply findIndex_None in Hnotin. fold l. rewrite Hnotin. reflexivity.
  - exfalso. apply findIndex_None in E. apply E.
    apply elem_of_app. right. apply list_elem_of_here.
Qed.

(** ** [restore] *)

Lemma PositionData_ext (d d' : PositionData) :
  (forall k, getf d k = getf d' k) -> d = d'.
Proof.
  intros H. destruct d, d'.
  f_equal;
    [ exact (H K_height) | exact (H K_left) | exact (H K_maxHeight)
    | exact (H K_maxWidth) | exact (H K_minHeight) | exact (H K_minWidth)
    | exact (H K_rotateX) | exact (H K_rotateY) | exact (H K_rotateZ)
    | exact (H K_scale) | exact (H K_top) | exact (H K_transformOrigin)
    | exact (H K_translateX) | exact (H K_translateY)
    | exact (H K_translateZ) | exact (H K_width) | exact (H K_zIndex) ].
Qed.

(** The loop of the silent branch: each property of [data] is assigned to
    the canonical data. *)
Lemma silent_fold (o : obj) (d : PositionData) (k : key) :
  NoDup (Obj.keys o) ->
  getf (fold_left (fun d kv => setf (fst kv) (snd kv) d) o d) k =
  match Obj.lookup o k with
  | Some v => v
  | None => getf d k
  end.
Proof.
  revert d. induction o as [|[k0 v0] o IH]; intros d Hnd; [reflexivity|].
  unfold Obj.keys in Hnd. cbn [map fst] in Hnd.
  apply NoDup_cons in Hnd as [Hnotin Hnd].
  cbn [fold_left fst snd Obj.lookup]. rewrite IH by exact Hnd.
  destruct (decide (k0 = k)) as [->|Hne].
  - replace (Obj.lookup o k) with (@None value)
      by (symmetry; apply lookup_None_keys; exact Hnotin).
    apply getf_setf_eq.
  - destruct (Obj.lookup o k); [reflexivity|].
    apply getf_setf_ne. congruence.
Qed.

(** The object built from [properties]. *)
Lemma properties_fold (saved : obj) (l : list key) (acc : obj) (k : key) :
  Obj.lookup (fold_left (fun o k => Obj.put k (Obj.read saved k) o) l acc) k =
  if bool_decide (k ∈ l) then Some (Obj.read saved k) else Obj.lookup acc k.
Proof.
  revert acc. induction l as [|k0 l IH]; intros acc; [reflexivity|].
  cbn [fold_left]. rewrite IH, lookup_put.
  destruct (bool_decide (k ∈ l)) eqn:E.
  - apply bool_decide_eq_true_1 in E.
    rewrite bool_decide_eq_true_2 by (apply list_elem_of_further; exact E).
    reflexivity.
  - apply bool_decide_eq_false_1 in E.
    destruct (decide (k0 = k)) as [->|Hne].
    + rewrite bool_decide_eq_true_2 by apply list_elem_of_here. reflexivity.
    + rewrite bool_decide_eq_false_2; [reflexivity|].
      rewrite elem_of_cons. intros [H|H]; congruence.
Qed.

Lemma properties_fold_NoDup (saved : obj) (l : list key) (acc : obj) :
  NoDup (Obj.keys acc) ->
  NoDup (Obj.keys (fold_left (fun o k => Obj.put k (Obj.read saved k) o) l acc)).
Proof.
  revert acc. induction l as [|k0 l IH]; intros acc H; [exact H|].
  cbn [fold_left]. apply IH. apply keys_put_NoDup. exact H.
Qed.

Lemma assign_NoDup (target source : obj) :
  NoDup (Obj.keys target) -> NoDup (Obj.keys (Obj.assign target source)).
Proof.
  unfold Obj.assign. revert target.
  induction source as [|kv source IH]; intros target H; [exact H|].
  cbn [fold_left]. apply IH. apply keys_put_NoDup. exact H.
Qed.

Lemma restore_silent_spec
    (lerp : value -> value -> value -> value)
    (store_set : nat -> value -> World -> World)
    (self : nat) (name : string) (opts : RestoreOptions) (w : World)
    (saved : obj) :
  Position.dataSaved (positions w self) !! name = Some saved ->
  NoDup (Obj.keys saved) ->
  ro_silent opts = true ->
  exists w',
    restore lerp store_set self (VStr name) opts w
    = Normal (w', Returned (Some saved)) /\
    let p := positions w self in
    let p' := positions w' self in
    (forall k,
       getf (Position.data p') k =
       match ro_properties opts with
       | Some properties =>
           if bool_decide (k ∈ properties) then Obj.read saved k
           else getf (Position.data p) k
       | None =>
           match Obj.lookup saved k with
           | Some v => v
           | None => getf (Position.data p) k
           end
       end) /\
    Position.positionChangeSet p' = Position.positionChangeSet p /\
    Position.notified p' = Position.notified p /\
    Position.dataSaved p' =
      (if ro_remove opts then delete name (Position.dataSaved p)
       else Position.dataSaved p) /\
    manager w' = manager w /\
    s_NEW_LIST w' = s_NEW_LIST w /\
    s_ACTIVE_LIST w' = s_ACTIVE_LIST w.
Proof.
  intros Hsaved Hnd Hsilent.
  destruct opts as [remove properties silent async anim duration easing interp].
  cbn [ro_silent] in Hsilent. subst silent.
  unfold restore. rewrite Hsaved.
  cbn [ro_remove ro_properties ro_silent].
  destruct remove, properties as [properties|];
    (eexists; split; [reflexivity|]);
    cbv zeta; cbn [positions with_position]; rewrite ?upd_eq;
    cbn [Position.data Position.with_data Position.positionChangeSet
         Position.notified Position.dataSaved Position.with_dataSaved
         manager s_NEW_LIST s_ACTIVE_LIST];
    (split; [|repeat split; reflexivity]); intros k.
  - rewrite silent_fold by (apply properties_fold_NoDup; apply NoDup_nil_2).
    rewrite properties_fold. cbn [Obj.lookup].
    destruct (bool_decide (k ∈ properties)); reflexivity.
  - rewrite silent_fold by exact Hnd. reflexivity.
  - rewrite silent_fold by (apply properties_fold_NoDup; apply NoDup_nil_2).
    rewrite properties_fold. cbn [Obj.lookup].
    destruct (bool_decide (k ∈ properties)); reflexivity.
  - rewrite silent_fold by exact Hnd. reflexivity.
Qed.

(** The silent branch of [restore] writes the stored values straight into
    the canonical data: every property of the snapshot (or, with
    [properties], every listed one) is assigned as it is, without rounding,
    clamping or validation; no change flag is raised, no subscriber is
    called, nothing is scheduled, and the snapshot is returned. *)
Theorem restore_silent_writes_raw_values
    (lerp : value -> value -> value -> value)
    (store_set : nat -> value -> World -> World)
    (self : nat) (name : string) (opts : RestoreOptions) (w : World)
    (saved : obj) :
  Position.dataSaved (positions w self) !! name = Some saved ->
  NoDup (Obj.keys saved) ->
  ro_silent opts = true ->
  exists w',
    restore lerp store_set self (VStr name) opts w
    = Normal (w', Returned (Some saved)) /\
    let p := positions w self in
    let p' := positions w' self in
    (forall k,
       getf (Position.data p') k =
       match ro_properties opts with
       | Some properties =>
           if bool_decide (k ∈ properties) then Obj.read saved k
           else getf (Position.data p) k
       | None =>
           match Obj.lookup saved k with
           | Some v => v
           | None => getf (Position.data p) k
           end
       end) /\
    Position.positionChangeSet p' = Position.positionChangeSet p /\
    Position.notified p' = Position.notified p /\
    Position.dataSaved p' =
      (if ro_remove opts then delete name (Position.dataSaved p)
       else Position.dataSaved p) /\
    manager w' = manager w /\
    s_NEW_LIST w' = s_NEW_LIST w /\
    s_ACTIVE_LIST w' = s_ACTIVE_LIST w.
Proof. apply restore_silent_spec. Qed.

Lemma restore_silent_writes_raw_values_witness :
  let kept := snd (Position.save "home" [] bare) in
  let later := Position.r_this
                 (Position.set 0 no_elements [(K_left, VNum (Fin 10))] kept
                               UpdateElementManager.empty) in
  let opts := mkRestoreOptions false (Some [K_left; K_top]) true false false
                               VUndefined Omitted Omitted in
  exists w',
    restore jump (fun _ _ w => w) 0 (VStr "home") opts
            (with_position 0 later idle)
    = Normal (w', Returned (Some (fst (Position.save "home" [] bare)))) /\
    d_left (Position.data later) = VNum (Fin 10) /\
    d_left (Position.data (positions w' 0)) = VNull /\
    Position.notified (positions w' 0) = [].
Proof.
  cbv zeta.
  destruct (restore_silent_writes_raw_values jump (fun _ _ w => w) 0 "home"
              (mkRestoreOptions false (Some [K_left; K_top]) true false false
                                VUndefined Omitted Omitted)
              (with_position 0
                 (Position.r_this
                    (Position.set 0 no_elements [(K_left, VNum (Fin 10))]
                                  (snd (Position.save "home" [] bare))
                                  UpdateElementManager.empty)) idle)
              (fst (Position.save "home" [] bare)))
    as (w' & Hrun & Hdata & _ & Hnotified & _).
  - vm_compute. reflexivity.
  - apply (bool_decide_unpack _). vm_compute. exact I.
  - reflexivity.
  - exists w'. split; [exact Hrun|]. split; [vm_compute; reflexivity|].
    split.
    + exact (Hdata K_left).
    + rewrite Hnotified. vm_compute. reflexivity.
Defined.

(** [save], any later [set] calls on other objects, then a silent
    [restore] of the whole snapshot: the canonical data is exactly what it
    was when [save] was called. *)
Theorem save_restore_silent_round_trip
    (lerp : value -> value -> value -> value)
    (store_set : nat -> value -> World -> World)
    (self : nat) (els : nat -> Element) (name : string) (extra : obj)
    (args : list Position.argument) (u : UpdateElementManager.t)
    (opts : RestoreOptions) (w : World) :
  NoDup (Obj.keys extra) ->
  (forall a, a ∈ args -> a <> Position.Snapshot name) ->
  ro_silent opts = true ->
  ro_properties opts = None ->
  let p := positions w self in
  let saved := fst (Position.save name extra p) in
  let later := fst (set_all self els args (snd (Position.save name extra p)) u) in
  exists w',
    restore lerp store_set self (VStr name) opts (with_position self later w)
    = Normal (w', Returned (Some saved)) /\
    Position.data (positions w' self) = Position.data p.
Proof.
  intros Hextra Hargs Hsilent Hprops. cbv zeta.
  set (p := positions w self).
  set (saved := fst (Position.save name extra p)).
  set (later := fst (set_all self els args (snd (Position.save name extra p)) u)).
  assert (Hkept : Position.dataSaved later !! name = Some saved).
  { change (Position.getSave name later = Some saved). unfold later.
    rewrite set_all_keeps_snapshot by exact Hargs.
    unfold Position.getSave, Position.save.
    cbn [snd Position.dataSaved Position.with_dataSaved].
    apply lookup_insert_eq. }
  assert (Hnd : NoDup (Obj.keys saved)).
  { unfold saved, Position.save, Position.get. cbn [fst].
    apply assign_NoDup. exact Hextra. }
  destruct (restore_silent_spec lerp store_set self name opts
              (with_position self later w) saved)
    as (w' & Hrun & Hdata & _); try assumption.
  { cbn [positions with_position]. rewrite upd_eq. exact Hkept. }
  exists w'. split; [exact Hrun|].
  apply PositionData_ext. intros k.
  cbv zeta in Hdata. rewrite Hdata, Hprops.
  unfold saved, Position.save, Position.get. cbn [fst].
  rewrite lookup_assign_of_data. reflexivity.
Qed.

Lemma save_restore_silent_round_trip_witness :
  let opts := mkRestoreOptions false None true false false
                               VUndefined Omitted Omitted in
  let later :=
    fst (set_all 0 no_elements
           [Position.Literal [(K_left, VNum (Fin 10))];
            Position.Literal [(K_scale, VNum (Fin 2))]]
           (snd (Position.save "home" [] (positions idle 0)))
           UpdateElementManager.empty) in
  exists w',
    restore jump (fun _ _ w => w) 0 (VStr "home") opts
            (with_position 0 later idle)
    = Normal (w', Returned (Some (fst (Position.save "home" []
                                        (positions idle 0))))) /\
    Position.data (positions w' 0) = Position.data (positions idle 0).
Proof.
  apply (save_restore_silent_round_trip jump (fun _ _ w => w) 0 no_elements
           "home" []
           [Position.Literal [(K_left, VNum (Fin 10))];
            Position.Literal [(K_scale, VNum (Fin 2))]]
           UpdateElementManager.empty
           (mkRestoreOptions false None true false false
                             VUndefined Omitted Omitted) idle).
  - constructor.
  - intros a Ha.
    apply elem_of_cons in Ha as [->|Ha]; [discriminate|].
    apply elem_of_cons in Ha as [->|Ha]; [discriminate|].
    inversion Ha.
  - reflexivity.
  - reflexivity.
Defined.

Lemma set_field_position_same (k : key) (s : Position.SetState) :
  Obj.read (Position.ss_position (Position.set_field k s)) k =
  match accepted k (Obj.read (Position.ss_position s) k) with
  | Some v => v
  | None => Obj.read (Position.ss_position s) k
  end.
Proof.
  rewrite set_field_spec.
  destruct (accepted k _) as [v|]; [|reflexivity].
  rewrite store_assign_position. apply read_put_eq.
Qed.

Lemma set_fields_fold_position (l : list key) (k : key)
    (s : Position.SetState) :
  NoDup l ->
  Obj.read (Position.ss_position
              (fold_left (fun s k => Position.set_field k s) l s)) k =
  if bool_decide (k ∈ l)
  then match accepted k (Obj.read (Position.ss_position s) k) with
       | Some v => v
       | None => Obj.read (Position.ss_position s) k
       end
  else Obj.read (Position.ss_position s) k.
Proof.
  intros Hnd. revert s.
  induction Hnd as [|k0 l Hnotin Hnd IH]; intros s; simpl.
  - reflexivity.
  - rewrite IH. destruct (decide (k = k0)) as [->|Hne].
    + rewrite bool_decide_eq_false_2 by exact Hnotin.
      rewrite bool_decide_eq_true_2 by apply list_elem_of_here.
      apply set_field_position_same.
    + rewrite set_field_position_other by exact Hne.
      destruct (bool_decide (k ∈ l)) eqn:E.
      * apply bool_decide_eq_true_1 in E.
        rewrite bool_decide_eq_true_2 by (apply list_elem_of_further; exact E).
        reflexivity.
      * apply bool_decide_eq_false_1 in E.
        rewrite bool_decide_eq_false_2; [reflexivity|].
        rewrite elem_of_cons. intros [H|H]; congruence.
Qed.

(** What the blocks of [set] leave in the [position] object they were
    given: each accepted entry in its stored form. *)
Lemma set_fields_position (k : key) (s : Position.SetState) :
  Obj.read (Position.ss_position (Position.set_fields s)) k =
  match accepted k (Obj.read (Position.ss_position s) k) with
  | Some v => v
  | None => Obj.read (Position.ss_position s) k
  end.
Proof.
  unfold Position.set_fields.
  rewrite set_fields_fold_position by apply set_order_NoDup.
  rewrite bool_decide_eq_true_2 by apply set_order_all. reflexivity.
Qed.

(** The default branch of [restore], as one expression. *)
Lemma restore_default_eq (lerp : value -> value -> value -> value)
    (store_set : nat -> value -> World -> World)
    (self : nat) (name : string) (opts : RestoreOptions) (w : World)
    (saved : obj) :
  Position.dataSaved (positions w self) !! name = Some saved ->
  ro_silent opts = false ->
  ro_animateTo opts = false ->
  ro_properties opts = None ->
  restore lerp store_set self (VStr name) opts w =
  let w0 :=
    if ro_remove opts
    then with_position self
           (Position.with_dataSaved
              (delete name (Position.dataSaved (positions w self)))
              (positions w self)) w
    else w in
  let r := Position.set self (elements w0) saved (positions w0 self)
                        (manager w0) in
  let w1 := with_manager (Position.r_manager r)
              (with_position self (Position.r_this r) w0) in
  Normal (if ro_remove opts then w1
          else with_position self
                 (Position.with_dataSaved
                    (<[name := Position.r_position r]>
                       (Position.dataSaved (positions w1 self)))
                    (positions w1 self)) w1,
          Returned (Some (Position.r_position r))).
Proof.
  intros Hsaved Hsilent Hanim Hprops. unfold restore.
  rewrite Hsaved, Hsilent, Hanim, Hprops.
  destruct (ro_remove opts); reflexivity.
Qed.

(** [restore] in its default mode hands the stored object itself to
    [set].  On a Position without a connected target element every field
    ends at the value the block of [set] accepts for the stored entry, and
    a field whose stored entry the block does not accept (a [null] [left],
    [top] or [zIndex]) keeps its current value.  [set] normalises the
    stored object in place: the object returned, and the one still found
    under the name, have the accepted entries in their stored form. *)
Theorem restore_by_set (lerp : value -> value -> value -> value)
    (store_set : nat -> value -> World -> World)
    (self : nat) (name : string) (opts : RestoreOptions) (w : World)
    (saved : obj) :
  Position.dataSaved (positions w self) !! name = Some saved ->
  ro_silent opts = false ->
  ro_animateTo opts = false ->
  ro_properties opts = None ->
  Position.not_positionable (Position.parent (positions w self)) = false ->
  Position.target_element (elements w) (Position.parent (positions w self))
  = None ->
  exists w' o,
    restore lerp store_set self (VStr name) opts w
    = Normal (w', Returned (Some o)) /\
    let p := positions w self in
    let p' := positions w' self in
    (forall k,
       getf (Position.data p') k =
       match accepted k (Obj.read saved k) with
       | Some v => if Js.strict_ne (getf (Position.data p) k) v then v
                   else getf (Position.data p) k
       | None => getf (Position.data p) k
       end) /\
    (forall k,
       Obj.read o k =
       match accepted k (Obj.read saved k) with
       | Some v => v
       | None => Obj.read saved k
       end) /\
    Position.getSave name p' = (if ro_remove opts then None else Some o).
Proof.
  intros Hsaved Hsilent Hanim Hprops Hp Ht.
  rewrite (restore_default_eq lerp store_set self name opts w saved)
    by assumption.
  cbv zeta.
  set (p := positions w self) in *.
  set (s := Position.set_fields
              (Position.mkSetState saved (Position.data p)
                                   (Position.positionChangeSet p))).
  assert (Hset : forall q : Position.t,
            Position.parent q = Position.parent p ->
            Position.data q = Position.data p ->
            Position.positionChangeSet q = Position.positionChangeSet p ->
            forall u,
              Position.r_position (Position.set self (elements w) saved q u)
              = Position.ss_position s /\
              Position.data
                (Position.r_this (Position.set self (elements w) saved q u))
              = Position.ss_data s /\
              Position.dataSaved
                (Position.r_this (Position.set self (elements w) saved q u))
              = Position.dataSaved q).
  { intros q Hq Hd Hc u.
    destruct (set_frame self (elements w) saved q u) as (Hds & _).
    split; [|split; [|exact Hds]].
    - rewrite set_no_element by (rewrite Hq; assumption).
      cbv zeta. cbn [Position.r_position]. rewrite Hd, Hc. reflexivity.
    - rewrite set_no_element by (rewrite Hq; assumption).
      cbv zeta. cbn [Position.r_this]. rewrite updateSubscribers_data.
      cbn [Position.data Position.with_positionChangeSet Position.with_data].
      rewrite Hd, Hc. reflexivity. }
  destruct (ro_remove opts).
  - cbn [elements manager positions with_position]. rewrite upd_eq.
    destruct (Hset (Position.with_dataSaved
                      (delete name (Position.dataSaved p)) p)
                   eq_refl eq_refl eq_refl (manager w)) as (Ho & Hd & Hds).
    eexists. eexists. split; [reflexivity|].
    cbn [positions with_position with_manager]. rewrite upd_eq.
    rewrite Ho, Hd. split; [intros k; apply set_fields_data|].
    split; [intros k; apply set_fields_position|].
    unfold Position.getSave. rewrite Hds.
    cbn [Position.dataSaved Position.with_dataSaved].
    apply lookup_delete_eq.
  - destruct (Hset p eq_refl eq_refl eq_refl (manager w)) as (Ho & Hd & Hds).
    fold p.
    eexists. eexists. split; [reflexivity|].
    cbn [positions with_position with_manager]. rewrite !upd_eq.
    cbn [Position.data Position.with_dataSaved].
    rewrite Ho, Hd. split; [intros k; apply set_fields_data|].
    split; [intros k; apply set_fields_position|].
    unfold Position.getSave. cbn [Position.dataSaved Position.with_dataSaved].
    apply lookup_insert_eq.
Qed.

Lemma restore_by_set_witness :
  let kept := snd (Position.save "home" [] bare) in
  let later := Position.r_this
                 (Position.set 0 no_elements [(K_left, VNum (Fin 10))] kept
                               UpdateElementManager.empty) in
  let opts := mkRestoreOptions true None false false false
                               VUndefined Omitted Omitted in
  exists w' o,
    restore jump (fun _ _ w => w) 0 (VStr "home") opts
            (with_position 0 later idle)
    = Normal (w', Returned (Some o)) /\
    d_left (Position.data (positions w' 0)) = VNum (Fin 10) /\
    Position.getSave "home" (positions w' 0) = None.
Proof.
  cbv zeta.
  destruct (restore_by_set jump (fun _ _ w => w) 0 "home"
              (mkRestoreOptions true None false false false
                                VUndefined Omitted Omitted)
              (with_position 0
                 (Position.r_this
                    (Position.set 0 no_elements [(K_left, VNum (Fin 10))]
                                  (snd (Position.save "home" [] bare))
                                  UpdateElementManager.empty)) idle)
              (fst (Position.save "home" [] bare)))
    as (w' & o & Hrun & Hdata & _ & Hsave).
  - vm_compute. reflexivity.
  - reflexivity.
  - reflexivity.
  - reflexivity.
  - vm_compute. reflexivity.
  - vm_compute. reflexivity.
  - exists w', o. split; [exact Hrun|]. split.
    + change (getf (Position.data (positions w' 0)) K_left = VNum (Fin 10)).
      rewrite (Hdata K_left). vm_compute. reflexivity.
    + exact Hsave.
Defined.

(** A snapshot taken while [left] is [null] does not bring [left] back:
    after [save], [set({ left: 10 })] and [restore], [left] is still 10. *)
Example restore_keeps_left_over_null :
  let p1 := snd (Position.save "x" [] bare) in
  let p2 := Position.r_this
              (Position.set 0 no_elements [(K_left, VNum (Fin 10))] p1
                            UpdateElementManager.empty) in
  exists w' o,
    restore jump (fun _ _ w => w) 0 (VStr "x")
            (mkRestoreOptions false None false false false VUndefined
                              Omitted Omitted)
            (with_position 0 p2 idle)
    = Normal (w', Returned (Some o)) /\
    Obj.read o K_left = VNull /\
    d_left (Position.data p2) = VNum (Fin 10) /\
    d_left (Position.data (positions w' 0)) = VNum (Fin 10).
Proof.
  eexists. eexists. split; [vm_compute; reflexivity|].
  repeat split; vm_compute; reflexivity.
Qed.

(** A name that is not stored: [restore] returns [undefined] and changes
    nothing, whatever its other parameters, also with [remove: true];
    [remove] returns [undefined].  A name that is not a string makes both
    throw a [TypeError]. *)
Theorem missing_snapshot_is_undefined
    (lerp : value -> value -> value -> value)
    (store_set : nat -> value -> World -> World)
    (self : nat) (name : string) (opts : RestoreOptions) (w : World) :
  Position.dataSaved (positions w self) !! name = None ->
  restore lerp store_set self (VStr name) opts w = Normal (w, Returned None) /\
  Position.getSave name (positions w self) = None /\
  (exists p', Position.remove (VStr name) (positions w self) = Normal (None, p')
              /\ Position.dataSaved p' = Position.dataSaved (positions w self)) /\
  forall bad, Js.is_string bad = false ->
    (exists message,
       restore lerp store_set self bad opts w = Throw (TypeError message)) /\
    (exists message,
       Position.remove bad (positions w self) = Throw (TypeError message)).
Proof.
  intros Hnone. split; [unfold restore; rewrite Hnone; reflexivity|].
  split; [exact Hnone|]. split.
  - unfold Position.remove. rewrite Hnone. eexists. split; [reflexivity|].
    cbn [Position.dataSaved Position.with_dataSaved].
    apply delete_id. exact Hnone.
  - intros bad Hbad. destruct bad; try discriminate Hbad;
      split; eexists; reflexivity.
Qed.

Lemma missing_snapshot_is_undefined_witness :
  let opts := mkRestoreOptions false None false false true
                               VUndefined Omitted Omitted in
  restore jump (fun _ _ w => w) 0 (VStr "home") opts resting
  = Normal (resting, Returned None) /\
  exists message,
    restore jump (fun _ _ w => w) 0 VUndefined opts resting
    = Throw (TypeError message).
Proof.
  cbv zeta.
  destruct (missing_snapshot_is_undefined jump (fun _ _ w => w) 0 "home"
              (mkRestoreOptions false None false false true
                                VUndefined Omitted Omitted) resting)
    as (Hrun & _ & _ & Hbad).
  - vm_compute. reflexivity.
  - split; [exact Hrun|].
    destruct (Hbad VUndefined eq_refl) as [Hthrow _]. exact Hthrow.
Defined.

(** ** The setter [parent] *)

Lemma setf_setf (k : key) (v v' : value) (d : PositionData) :
  setf k v (setf k v' d) = setf k v d.
Proof. destruct k; reflexivity. Qed.

Lemma setf_getf (k : key) (d : PositionData) : setf k (getf d k) d = d.
Proof. destruct d, k; reflexivity. Qed.

(** With [position] and [data] one object, a block writes the accepted
    value and raises its flag only when that value is NaN. *)
Lemma set_field_own_spec (k : key) (d : PositionData)
    (c : PositionChangeSet) :
  Position.set_field_own k (d, c) =
  match accepted k (getf d k) with
  | Some v => (setf k v d,
               if Js.strict_ne v v then ChangeSet.flag (Position.bit_of k) c
               else c)
  | None => (d, c)
  end.
Proof.
  assert (Hstore : forall v,
            Position.store_own k (Position.assign_own k v (d, c)) =
            (setf k v d,
             if Js.strict_ne v v then ChangeSet.flag (Position.bit_of k) c
             else c)).
  { intros v. unfold Position.store_own, Position.assign_own.
    cbn [fst snd]. rewrite getf_setf_eq.
    destruct (Js.strict_ne v v); [rewrite setf_setf|]; reflexivity. }
  assert (Hsame : Position.store_own k (d, c) =
            (setf k (getf d k) d,
             if Js.strict_ne (getf d k) (getf d k)
             then ChangeSet.flag (Position.bit_of k) c else c)).
  { unfold Position.store_own. cbn [fst snd].
    destruct (Js.strict_ne _ _); [reflexivity|].
    rewrite setf_getf. reflexivity. }
  destruct k; unfold Position.set_field_own, accepted; cbn [fst];
    match goal with
    | |- context [if ?b then Position.store_own _ _ else _] =>
        destruct b; [|reflexivity]
    end;
    first [apply Hstore | exact Hsame].
Qed.

Lemma set_fields_own_fold (l : list key) (d : PositionData)
    (c : PositionChangeSet) (k : key) :
  NoDup l ->
  let r := fold_left (fun s k => Position.set_field_own k s) l (d, c) in
  getf (fst r) k =
    (if bool_decide (k ∈ l)
     then match accepted k (getf d k) with
          | Some v => v
          | None => getf d k
          end
     else getf d k) /\
  ((forall k v, k ∈ l -> accepted k (getf d k) = Some v ->
                Js.strict_ne v v = false) ->
   snd r = c).
Proof.
  intros Hnd. revert d c.
  induction Hnd as [|k0 l Hnotin Hnd IH]; intros d c; cbv zeta.
  - split; [reflexivity | intros _; reflexivity].
  - cbn [fold_left]. rewrite set_field_own_spec.
    assert (Hother : forall k', k' <> k0 ->
              getf (fst match accepted k0 (getf d k0) with
                        | Some v =>
                            (setf k0 v d,
                             if Js.strict_ne v v
                             then ChangeSet.flag (Position.bit_of k0) c else c)
                        | None => (d, c)
                        end) k' = getf d k').
    { intros k' Hne. destruct (accepted k0 _); [|reflexivity].
      cbn [fst]. apply getf_setf_ne. exact Hne. }
    destruct (accepted k0 (getf d k0)) as [v0|] eqn:E0.
    + destruct (IH (setf k0 v0 d)
                   (if Js.strict_ne v0 v0
                    then ChangeSet.flag (Position.bit_of k0) c else c))
        as [Hd Hc].
      cbv zeta in Hd, Hc. split.
      * rewrite Hd. destruct (decide (k = k0)) as [->|Hne].
        -- rewrite bool_decide_eq_false_2 by exact Hnotin.
           rewrite bool_decide_eq_true_2 by apply list_elem_of_here.
           rewrite E0. apply getf_setf_eq.
        -- rewrite getf_setf_ne by exact Hne.
           destruct (bool_decide (k ∈ l)) eqn:E.
           ++ apply bool_decide_eq_true_1 in E.
              rewrite bool_decide_eq_true_2
                by (apply list_elem_of_further; exact E).
              reflexivity.
           ++ apply bool_decide_eq_false_1 in E.
              rewrite bool_decide_eq_false_2; [reflexivity|].
              rewrite elem_of_cons. intros [H|H]; congruence.
      * intros Hq. rewrite Hc.
        -- rewrite (Hq k0 v0); [reflexivity | apply list_elem_of_here | exact E0].
        -- intros k' v' Hk' Hv'. apply (Hq k' v').
           ++ apply list_elem_of_further. exact Hk'.
           ++ rewrite getf_setf_ne in Hv'; [exact Hv'|].
              intros ->. contradiction.
    + destruct (IH d c) as [Hd Hc]. cbv zeta in Hd, Hc. split.
      * rewrite Hd. destruct (decide (k = k0)) as [->|Hne].
        -- rewrite bool_decide_eq_false_2 by exact Hnotin.
           rewrite bool_decide_eq_true_2 by apply list_elem_of_here.
           rewrite E0. reflexivity.
        -- destruct (bool_decide (k ∈ l)) eqn:E.
           ++ apply bool_decide_eq_true_1 in E.
              rewrite bool_decide_eq_true_2
                by (apply list_elem_of_further; exact E).
              reflexivity.
           ++ apply bool_decide_eq_false_1 in E.
              rewrite bool_decide_eq_false_2; [reflexivity|].
              rewrite elem_of_cons. intros [H|H]; congruence.
      * intros Hq. apply Hc. intros k' v' Hk' Hv'. apply (Hq k' v').
        -- apply list_elem_of_further. exact Hk'.
        -- exact Hv'.
Qed.

Lemma round_not_NaN (v : value) :
  v <> VNum NaN -> Js.round v <> VNum NaN \/ Js.is_number v = false.
Proof.
  destruct v as [| |b|n|s|i]; try (right; reflexivity).
  intros H. left. destruct n; [congruence | | |]; discriminate.
Qed.

Lemma clamp_not_NaN (v : value) :
  v <> VNum NaN -> Js.clamp_scale v <> VNum NaN \/ Js.is_number v = false.
Proof.
  destruct v as [| |b|n|s|i]; try (right; reflexivity).
  intros H. left. destruct n as [| | |q]; [congruence | | |].
  - vm_compute. discriminate.
  - vm_compute. discriminate.
  - unfold Js.clamp_scale, Num.min, Num.max, Num.ltb, Num.of_Z, Num.zero.
    destruct (Qle_bool q (inject_Z 1000)); cbn [negb];
      [destruct (Qle_bool q 0); cbn [negb]|]; discriminate.
Qed.

(** A value that is not NaN is accepted as a value that is not NaN. *)
Lemma accepted_not_NaN (k : key) (v v' : value) :
  accepted k v = Some v' -> v <> VNum NaN -> Js.strict_ne v' v' = false.
Proof.
  intros Ha Hv. unfold Js.strict_ne. apply negb_false_iff.
  apply strict_eq_refl. intros ->.
  destruct k; unfold accepted in Ha;
    match type of Ha with
    | (if ?c then _ else _) = _ => destruct c eqn:E
    end; try discriminate; injection Ha as Ha;
    try (destruct (round_not_NaN v Hv) as [H|H];
         [ destruct (Js.is_number v); congruence
         | rewrite ?H in *; try discriminate ]);
    try (destruct (clamp_not_NaN v Hv) as [H|H];
         [ destruct (Js.is_number v); congruence
         | rewrite ?H in *; try discriminate ]);
    try congruence;
    try (destruct (transformOrigins_includes v); congruence).
Qed.

Lemma set_element_frame (self : nat) (els : nat -> Element) (position : obj)
    (p : Position.t) (u : UpdateElementManager.t) (el : nat)
    (validated : obj) :
  Position.not_positionable (Position.parent p) = false ->
  Position.target_element els (Position.parent p) = Some el ->
  Position.updatePosition els position el (Position.cache_style els el p)
  = Some validated ->
  let p' := Position.r_this (Position.set self els position p u) in
  Position.defaultData p' =
    match Position.defaultData p with
    | Some d => Some d
    | None => Some (Obj.of_data (Position.data p'))
    end /\
  StyleCache.hasData el (Position.styleCache p') = true /\
  Position.updateElementPromise p' = Some (UpdateElementManager.promises u) /\
  (StyleCache.hasData el (Position.styleCache p) = false ->
   Position.positionChangeSet p' = ChangeSet.set true).
Proof.
  intros Hp Ht Hup. cbv zeta.
  rewrite (set_element_result self els position p u el validated Hp Ht Hup).
  cbv zeta. cbn [Position.r_this].
  destruct (cache_style_frame els el p) as (_ & _ & _ & _ & Hdef & _).
  destruct (cache_style_more els el p) as (_ & _ & Hcs & Hhas).
  set (c := Position.cache_style els el p) in *.
  set (s := Position.set_fields _).
  assert (Hq : Position.defaultData
                 (Position.with_positionChangeSet (Position.ss_changeSet s)
                    (Position.with_data (Position.ss_data s) c))
               = Position.defaultData p).
  { cbn [Position.defaultData Position.with_positionChangeSet
         Position.with_data]. exact Hdef. }
  rewrite Hq.
  assert (Hall : StyleCache.hasData el (Position.styleCache p) = false ->
                 Position.ss_changeSet s = ChangeSet.set true).
  { intros Hno. rewrite Hno in Hcs. apply set_fields_all_flags. exact Hcs. }
  destruct (Position.defaultData p) as [d|];
    cbn [Position.defaultData Position.styleCache Position.data
         Position.updateElementPromise Position.positionChangeSet
         Position.with_updateElementPromise Position.with_defaultData
         Position.with_positionChangeSet Position.with_data].
  - split; [exact Hq|]. split; [exact Hhas|]. split; [reflexivity|exact Hall].
  - split; [reflexivity|]. split; [exact Hhas|].
    split; [reflexivity|exact Hall].
Qed.

(** Assigning a parent whose target element is connected forgets the old
    default and, unless a validator vetoes, captures a new one: the data as
    the assignment leaves it.  The style cache then holds the new element,
    every change flag is raised for the next frame, and [reset] is
    available again as soon as no field is being animated. *)
Theorem parent_setter_recaptures_default (self : nat) (els : nat -> Element)
    (parent : Parent) (p : Position.t) (u : UpdateElementManager.t)
    (el : nat) (validated : obj) :
  Position.not_positionable parent = false ->
  Position.target_element els parent = Some el ->
  let p0 := Position.with_styleCache StyleCache.empty
              (Position.with_defaultData None
                 (Position.with_parent parent p)) in
  Position.updatePosition els (Obj.of_data (Position.data p)) el
                          (Position.cache_style els el p0) = Some validated ->
  let p' := fst (Position.set_parent self els parent p u) in
  let u' := snd (Position.set_parent self els parent p u) in
  Position.parent p' = parent /\
  Position.defaultData p' = Some (Obj.of_data (Position.data p')) /\
  StyleCache.hasData el (Position.styleCache p') = true /\
  Position.positionChangeSet p' = ChangeSet.set true /\
  Position.updateElementPromise p' = Some (UpdateElementManager.promises u) /\
  (Position.currentAnimationKeys p = [] ->
   forall keepZIndex invokeSet,
     fst (fst (Position.reset keepZIndex invokeSet self els p' u')) = true).
Proof.
  intros Hp Ht. cbv zeta. intros Hup.
  unfold Position.set_parent. cbv zeta.
  set (p0 := Position.with_styleCache StyleCache.empty
               (Position.with_defaultData None
                  (Position.with_parent parent p))) in *.
  assert (Hpar0 : Position.parent p0 = parent) by reflexivity.
  assert (Hdat0 : Position.data p0 = Position.data p) by reflexivity.
  assert (Hdef0 : Position.defaultData p0 = None) by reflexivity.
  assert (Hsty0 : StyleCache.hasData el (Position.styleCache p0) = false)
    by reflexivity.
  assert (Hkey0 : Position.currentAnimationKeys p0
                  = Position.currentAnimationKeys p) by reflexivity.
  clearbody p0.
  unfold Position.set_own. rewrite Hpar0, Hp, Ht, Hdat0. cbv zeta.
  cbn [fst snd].
  destruct (set_element_frame self els (Obj.of_data (Position.data p)) p0 u
              el validated) as (Hdef & Hhas & Hprom & Hflags);
    rewrite ?Hpar0; try assumption.
  destruct (set_frame self els (Obj.of_data (Position.data p)) p0 u)
    as (_ & Hkeys & Hparent).
  cbv zeta in Hdef, Hhas, Hprom, Hflags, Hkeys, Hparent.
  rewrite Hdef0 in Hdef.
  split; [rewrite Hparent; exact Hpar0|].
  split; [exact Hdef|]. split; [exact Hhas|].
  split; [apply Hflags; exact Hsty0|]. split; [exact Hprom|].
  intros Hnokeys keepZIndex invokeSet.
  unfold Position.reset. rewrite Hdef, Hkeys, Hkey0, Hnokeys.
  cbn [length Nat.eqb negb]. destruct invokeSet; reflexivity.
Qed.

Lemma parent_setter_recaptures_default_witness :
  let r := Position.set_parent 0 one_box host bare
                               UpdateElementManager.empty in
  Position.parent (fst r) = host /\
  Position.defaultData (fst r) = Some (Obj.of_data (Position.data (fst r))) /\
  fst (fst (Position.reset false false 0 one_box (fst r) (snd r))) = true.
Proof.
  cbv zeta.
  destruct (Position.updatePosition one_box (Obj.of_data (Position.data bare))
              0
              (Position.cache_style one_box 0
                 (Position.with_styleCache StyleCache.empty
                    (Position.with_defaultData None
                       (Position.with_parent host bare)))))
    as [validated|] eqn:Hup; [|vm_compute in Hup; discriminate Hup].
  destruct (parent_setter_recaptures_default 0 one_box host bare
              UpdateElementManager.empty 0 validated eq_refl eq_refl Hup)
    as (Hparent & Hdefault & _ & _ & _ & Hreset).
  split; [exact Hparent|]. split; [exact Hdefault|].
  apply Hreset. reflexivity.
Defined.

(** Assigning a parent without a connected target element leaves the
    Position without default data, so that [reset] returns [false].  The
    [set] it ends with runs on the canonical object itself: every field is
    put in the form its block stores (numbers rounded, [scale] clamped),
    and as long as no field is NaN this happens without a change flag
    and without a call to any subscriber. *)
Theorem parent_setter_without_element (self : nat) (els : nat -> Element)
    (parent : Parent) (p : Position.t) (u : UpdateElementManager.t) :
  Position.not_positionable parent = false ->
  Position.target_element els parent = None ->
  let p' := fst (Position.set_parent self els parent p u) in
  let u' := snd (Position.set_parent self els parent p u) in
  Position.parent p' = parent /\
  Position.defaultData p' = None /\
  u' = u /\
  (forall keepZIndex invokeSet,
     Position.reset keepZIndex invokeSet self els p' u' = (false, p', u')) /\
  (forall k,
     getf (Position.data p') k =
     match accepted k (getf (Position.data p) k) with
     | Some v => v
     | None => getf (Position.data p) k
     end) /\
  ((forall k, getf (Position.data p) k <> VNum NaN) ->
   ChangeSet.hasChange (Position.positionChangeSet p) = false ->
   Position.notified p' = Position.notified p /\
   Position.positionChangeSet p' = Position.positionChangeSet p).
Proof.
  intros Hp Ht. cbv zeta.
  unfold Position.set_parent. cbv zeta.
  set (p0 := Position.with_styleCache StyleCache.empty
               (Position.with_defaultData None
                  (Position.with_parent parent p))).
  assert (Hpar0 : Position.parent p0 = parent) by reflexivity.
  assert (Hdat0 : Position.data p0 = Position.data p) by reflexivity.
  assert (Hdef0 : Position.defaultData p0 = None) by reflexivity.
  assert (Hcs0 : Position.positionChangeSet p0 = Position.positionChangeSet p)
    by reflexivity.
  assert (Hnot0 : Position.notified p0 = Position.notified p) by reflexivity.
  clearbody p0.
  unfold Position.set_own. rewrite Hpar0, Hp, Ht, Hdat0, Hcs0. cbv zeta.
  cbn [fst snd].
  set (r := fold_left (fun s k => Position.set_field_own k s)
                      Position.set_order
                      (Position.data p, Position.positionChangeSet p)).
  set (q := Position.with_positionChangeSet (snd r)
              (Position.with_data (fst r) p0)).
  assert (Hqd : Position.data q = fst r) by reflexivity.
  assert (Hqc : Position.positionChangeSet q = snd r) by reflexivity.
  assert (Hqn : Position.notified q = Position.notified p) by exact Hnot0.
  assert (Hqp : Position.parent q = parent) by exact Hpar0.
  assert (Hqdef : Position.defaultData q = None) by exact Hdef0.
  clearbody q.
  destruct (updateSubscribers_frame q) as (_ & _ & Hparent & Hdef & _).
  split; [rewrite Hparent; exact Hqp|].
  split; [rewrite Hdef; exact Hqdef|].
  split; [reflexivity|]. split.
  { intros keepZIndex invokeSet. unfold Position.reset.
    rewrite Hdef, Hqdef. reflexivity. }
  split.
  - intros k. rewrite updateSubscribers_data, Hqd.
    destruct (set_fields_own_fold Position.set_order (Position.data p)
                (Position.positionChangeSet p) k set_order_NoDup) as [Hd _].
    cbv zeta in Hd. fold r in Hd. rewrite Hd.
    rewrite bool_decide_eq_true_2 by apply set_order_all. reflexivity.
  - intros Hnan Hclear.
    destruct (set_fields_own_fold Position.set_order (Position.data p)
                (Position.positionChangeSet p) K_left set_order_NoDup)
      as [_ Hc].
    cbv zeta in Hc. fold r in Hc.
    assert (Hsnd : snd r = Position.positionChangeSet p).
    { apply Hc. intros k v _ Hv.
      apply (accepted_not_NaN k (getf (Position.data p) k) v Hv (Hnan k)). }
    assert (Hidle : ChangeSet.hasChange (Position.positionChangeSet q) = false)
      by (rewrite Hqc, Hsnd; exact Hclear).
    rewrite (updateSubscribers_idle q Hidle).
    split; [exact Hqn | rewrite Hqc; exact Hsnd].
Qed.

Lemma parent_setter_without_element_witness :
  let r := Position.set_parent 0 no_elements host bare
                               UpdateElementManager.empty in
  Position.parent (fst r) = host /\
  Position.defaultData (fst r) = None /\
  Position.notified (fst r) = [] /\
  Position.reset false true 0 no_elements (fst r) (snd r)
  = (false, fst r, snd r).
Proof.
  cbv zeta.
  destruct (parent_setter_without_element 0 no_elements host bare
              UpdateElementManager.empty eq_refl eq_refl)
    as (Hparent & Hdefault & _ & Hreset & _ & Hquiet).
  split; [exact Hparent|]. split; [exact Hdefault|]. split.
  - destruct Hquiet as [Hnotified _].
    + intros k. destruct k; discriminate.
    + reflexivity.
    + exact Hnotified.
  - apply Hreset.
Defined.

(** ** The animation loop *)




Lemma upd_cases {A : Type} (i j : nat) (x : A) (h : nat -> A) :
  upd i x h j = x \/ upd i x h j = h j.
Proof. unfold upd. destruct (Nat.eqb j i); auto. Qed.

(** [position.set] in the world: only the instance and the update manager
    change, and the instance keeps its currently-animating keys. *)
Lemma position_set_frame (i : nat) (o : obj) (w : World) :
  let w' := snd (position_set i o w) in
  tasks w' = tasks w /\ elements w' = elements w /\
  s_ACTIVE_LIST w' = s_ACTIVE_LIST w /\ s_NEW_LIST w' = s_NEW_LIST w /\
  s_PROMISE w' = s_PROMISE w /\
  (forall j, Position.currentAnimationKeys (positions w' j)
             = Position.currentAnimationKeys (positions w j)) /\
  positions w' i = Position.r_this (Position.set i (elements w) o (positions w i)
                                                 (manager w)).
Proof.
  unfold position_set. cbn [snd tasks elements s_ACTIVE_LIST s_NEW_LIST
                            s_PROMISE positions with_manager with_position].
  repeat split; try reflexivity.
  - intros j. destruct (Nat.eq_dec j i) as [->|Hne].
    + rewrite upd_eq.
      destruct (set_frame i (elements w) o (positions w i) (manager w))
        as (_ & Hk & _). exact Hk.
    + rewrite upd_ne by exact Hne. reflexivity.
  - apply upd_eq.
Qed.

(** The three ways a turn of the loop over [s_ACTIVE_LIST] can go. *)
Lemma process_evict_eq (current : num) (cntr id e : nat) (w : World) :
  s_ACTIVE_LIST w !! cntr = Some id ->
  a_el (tasks w id) = Some e ->
  negb (el_isConnected (elements w e)) || a_finished (tasks w id) = true ->
  AnimationManager.process current cntr w =
  Normal (AnimationManager.resolve id
            (AnimationManager.clear_keys (tasks w id)
               (with_lists (splice1 cntr (s_ACTIVE_LIST w)) (s_NEW_LIST w) w))).
Proof.
  intros Hat Hel Hgone. unfold AnimationManager.process.
  rewrite Hat, Hel, Hgone. reflexivity.
Qed.

Lemma process_final_eq (current : num) (cntr id e : nat) (w : World) :
  s_ACTIVE_LIST w !! cntr = Some id ->
  a_el (tasks w id) = Some e ->
  negb (el_isConnected (elements w e)) || a_finished (tasks w id) = false ->
  let elapsed := match a_start (tasks w id) with
                 | Some start => Num.sub current start
                 | None => NaN
                 end in
  Num.geb elapsed (a_duration (tasks w id)) = true ->
  let data := with_a_timing (a_start (tasks w id)) elapsed (tasks w id) in
  let data := with_a_newData (AnimationManager.final_newData data) data in
  let w1 := AnimationManager.release_keys data (with_task id data w) in
  let ps := position_set (a_position data) (a_newData data) w1 in
  AnimationManager.process current cntr w =
  Normal (AnimationManager.resolve id
            (with_task id (with_a_finished true (with_a_newData (fst ps) data))
               (with_lists (splice1 cntr (s_ACTIVE_LIST (snd ps)))
                           (s_NEW_LIST (snd ps)) (snd ps)))).
Proof.
  intros Hat Hel Hgone. cbv zeta. intros Hdone.
  unfold AnimationManager.process. rewrite Hat, Hel, Hgone.
  cbn [a_current a_duration with_a_timing]. rewrite Hdone.
  unfold position_set. reflexivity.
Qed.

Lemma process_frame_eq (current : num) (cntr id e : nat) (w : World) :
  s_ACTIVE_LIST w !! cntr = Some id ->
  a_el (tasks w id) = Some e ->
  negb (el_isConnected (elements w e)) || a_finished (tasks w id) = false ->
  let elapsed := match a_start (tasks w id) with
                 | Some start => Num.sub current start
                 | None => NaN
                 end in
  Num.geb elapsed (a_duration (tasks w id)) = false ->
  let data := with_a_timing (a_start (tasks w id)) elapsed (tasks w id) in
  let easedTime :=
    a_easing data (VNum (Num.div elapsed (a_duration data))) in
  let data :=
    with_a_newData
      (fold_left
         (fun o k =>
            Obj.put k (a_interpolate data (Obj.read (a_initial data) k)
                                     (Obj.read (a_destination data) k)
                                     easedTime) o)
         (rev (a_keys data)) (a_newData data)) data in
  let ps := position_set (a_position data) (a_newData data)
                         (with_task id data w) in
  AnimationManager.process current cntr w =
  Normal (with_task id (with_a_newData (fst ps) data) (snd ps)).
Proof.
  intros Hat Hel Hgone. cbv zeta. intros Hdone.
  unfold AnimationManager.process. rewrite Hat, Hel, Hgone.
  cbn [a_current a_duration with_a_timing]. rewrite Hdone.
  unfold position_set. reflexivity.
Qed.

Ltac world_simpl :=
  cbn [tasks positions elements s_ACTIVE_LIST s_NEW_LIST s_PROMISE manager
       with_task with_lists with_position with_manager
       AnimationManager.resolve AnimationManager.clear_keys
       AnimationManager.release_keys
       a_el a_keys a_position a_resolved a_finished a_newData
       with_a_timing with_a_newData with_a_finished with_a_resolved
       Position.currentAnimationKeys Position.with_currentAnimationKeys].

Ltac world_simpl_in H :=
  cbn [tasks positions elements s_ACTIVE_LIST s_NEW_LIST s_PROMISE manager
       with_task with_lists with_position with_manager
       AnimationManager.resolve AnimationManager.clear_keys
       AnimationManager.release_keys
       a_el a_keys a_position a_resolved a_finished a_newData
       with_a_timing with_a_newData with_a_finished with_a_resolved
       Position.currentAnimationKeys Position.with_currentAnimationKeys] in H.

(** A turn of the loop for a task that has its element: the turn
    completes, and either the task stays in the list or it is taken off
    and is over. *)
Lemma process_spec (current : num) (cntr id e : nat) (w : World) :
  s_ACTIVE_LIST w !! cntr = Some id ->
  a_el (tasks w id) = Some e ->
  exists w',
    AnimationManager.process current cntr w = Normal w' /\
    advances w w' /\
    s_NEW_LIST w' = s_NEW_LIST w /\
    s_PROMISE w' = s_PROMISE w /\
    (s_ACTIVE_LIST w' = s_ACTIVE_LIST w \/
     (s_ACTIVE_LIST w' = splice1 cntr (s_ACTIVE_LIST w) /\ released w' id)).
Proof.
  intros Hat Hel.
  destruct (negb (el_isConnected (elements w e)) || a_finished (tasks w id))
    eqn:Hgone.
  - rewrite (process_evict_eq current cntr id e w Hat Hel Hgone).
    eexists. split; [reflexivity|].
    split; [|split; [reflexivity|]; split; [reflexivity|]; right; split;
             [reflexivity|]].
    + split; [reflexivity|]. split; [|split].
      * intros j. world_simpl. unfold upd.
        destruct (Nat.eqb j id) eqn:E; [|repeat split; reflexivity].
        apply Nat.eqb_eq in E. subst j. rewrite ?Nat.eqb_refl.
        repeat split; reflexivity.
      * intros j Hj. world_simpl. unfold upd.
        destruct (Nat.eqb j id); [reflexivity | exact Hj].
      * intros i k. world_simpl. unfold upd.
        destruct (Nat.eqb i (a_position (tasks w id))); [|auto].
        cbn. intros H. apply elem_of_nil in H. contradiction.
    + split.
      * world_simpl. rewrite !upd_eq. reflexivity.
      * intros k _. world_simpl. rewrite ?upd_eq. world_simpl.
        rewrite ?upd_eq. cbn. apply not_elem_of_nil.
  - destruct (Num.geb
                match a_start (tasks w id) with
                | Some start => Num.sub current start
                | None => NaN
                end (a_duration (tasks w id))) eqn:Hdone.
    + rewrite (process_final_eq current cntr id e w Hat Hel Hgone Hdone).
      cbv zeta.
      match goal with
      | |- context [position_set ?i ?o ?w1] =>
          destruct (position_set_frame i o w1)
            as (Ht & He & Ha & Hn & Hp & Hk & _);
          set (ps := position_set i o w1) in *
      end.
      cbv zeta in Ht, He, Ha, Hn, Hp, Hk.
      eexists. split; [reflexivity|].
      assert (Hkeys : forall i k,
                k ∈ Position.currentAnimationKeys (positions (snd ps) i) ->
                k ∈ Position.currentAnimationKeys (positions w i)
                /\ (i = a_position (tasks w id) -> k ∉ a_keys (tasks w id))).
      { intros i k. rewrite Hk. world_simpl. unfold upd.
        destruct (Nat.eqb i (a_position (tasks w id))) eqn:E.
        - apply Nat.eqb_eq in E. subst i. rewrite ?Nat.eqb_refl.
          cbn [Position.currentAnimationKeys
               Position.with_currentAnimationKeys].
          rewrite released_keys. intros [H1 H2]. split; [exact H1|].
          intros _. rewrite elem_of_rev in H2. exact H2.
        - intros H. split; [exact H|]. intros ->.
          rewrite Nat.eqb_refl in E. discriminate. }
      split; [|split; [world_simpl; exact Hn|]; split;
               [world_simpl; exact Hp|]; right; split;
               [world_simpl; rewrite Ha; reflexivity|]].
      * split; [world_simpl; exact He|]. split; [|split].
        -- intros j. world_simpl. rewrite Ht. world_simpl. unfold upd.
           destruct (Nat.eqb j id) eqn:E; [|repeat split; reflexivity].
           apply Nat.eqb_eq in E. subst j. rewrite ?Nat.eqb_refl.
           repeat split; reflexivity.
        -- intros j Hj. world_simpl. rewrite Ht. world_simpl. unfold upd.
           destruct (Nat.eqb j id); [reflexivity | exact Hj].
        -- intros i k H. world_simpl_in H. apply (Hkeys i k H).
      * split.
        -- world_simpl. rewrite !upd_eq. reflexivity.
        -- intros k Hin. world_simpl. world_simpl_in Hin.
           rewrite !upd_eq in *. world_simpl. world_simpl_in Hin.
           intros H. destruct (Hkeys _ _ H) as [_ Hno].
           apply (Hno eq_refl). exact Hin.
    + rewrite (process_frame_eq current cntr id e w Hat Hel Hgone Hdone).
      cbv zeta.
      match goal with
      | |- context [position_set ?i ?o ?w1] =>
          destruct (position_set_frame i o w1)
            as (Ht & He & Ha & Hn & Hp & Hk & _);
          set (ps := position_set i o w1) in *
      end.
      cbv zeta in Ht, He, Ha, Hn, Hp, Hk.
      eexists. split; [reflexivity|].
      split; [|split; [world_simpl; exact Hn|]; split;
               [world_simpl; exact Hp|]; left; world_simpl; exact Ha].
      split; [world_simpl; exact He|]. split; [|split].
      * intros j. world_simpl. rewrite Ht. world_simpl. unfold upd.
        destruct (Nat.eqb j id) eqn:E; [|repeat split; reflexivity].
        apply Nat.eqb_eq in E. subst j. repeat split; reflexivity.
      * intros j Hj. world_simpl. rewrite Ht. world_simpl. unfold upd.
        destruct (Nat.eqb j id) eqn:E; [|exact Hj].
        apply Nat.eqb_eq in E. subst j. exact Hj.
      * intros i k H. world_simpl_in H. rewrite Hk in H. exact H.
Qed.






Lemma splice1_lookup_lt {A : Type} (i cntr : nat) (l : list A) :
  i < cntr -> splice1 cntr l !! i = l !! i.
Proof.
  intros H. unfold splice1.
  destruct (decide (cntr <= length l)) as [Hle|Hgt].
  - rewrite lookup_app_l by (rewrite length_take; lia).
    apply lookup_take_lt. exact H.
  - rewrite take_ge, drop_ge by lia. rewrite app_nil_r. reflexivity.
Qed.



Lemma with_a_timing_twice (start : option num) (current : num)
    (a : AnimationData) :
  with_a_timing start current (with_a_timing start current a)
  = with_a_timing start current a.
Proof. reflexivity. Qed.

Lemma promote_fold (current : num) (l : list nat) (w : World) :
  let w' := fold_left
              (fun w id =>
                 with_lists (s_ACTIVE_LIST w ++ [id])%list (s_NEW_LIST w)
                   (with_task id
                      (with_a_timing (Some current) Num.zero (tasks w id)) w))
              l w in
  s_ACTIVE_LIST w' = (s_ACTIVE_LIST w ++ l)%list /\
  s_NEW_LIST w' = s_NEW_LIST w /\
  positions w' = positions w /\
  elements w' = elements w /\
  s_PROMISE w' = s_PROMISE w /\
  manager w' = manager w /\
  forall id,
    tasks w' id =
    if bool_decide (id ∈ l)
    then with_a_timing (Some current) Num.zero (tasks w id)
    else tasks w id.
Proof.
  revert w. induction l as [|k l IH]; intros w; cbv zeta.
  - cbn [fold_left]. rewrite app_nil_r. repeat split; reflexivity.
  - cbn [fold_left].
    destruct (IH (with_lists (s_ACTIVE_LIST w ++ [k])%list (s_NEW_LIST w)
                    (with_task k
                       (with_a_timing (Some current) Num.zero (tasks w k)) w)))
      as (Ha & Hn & Hp & He & Hpr & Hm & Ht).
    cbv zeta in Ha, Hn, Hp, He, Hpr, Hm, Ht.
    cbn [s_ACTIVE_LIST s_NEW_LIST positions elements s_PROMISE manager tasks
         with_lists with_task] in Ha, Hn, Hp, He, Hpr, Hm, Ht.
    split; [rewrite Ha, <- app_assoc; reflexivity|].
    split; [exact Hn|]. split; [exact Hp|]. split; [exact He|].
    split; [exact Hpr|]. split; [exact Hm|].
    intros id. rewrite Ht. unfold upd.
    destruct (Nat.eqb id k) eqn:E.
    + apply Nat.eqb_eq in E. subst id.
      rewrite (bool_decide_eq_true_2 (k ∈ k :: l)) by apply list_elem_of_here.
      destruct (bool_decide (k ∈ l)); reflexivity.
    + apply Nat.eqb_neq in E.
      destruct (bool_decide (id ∈ l)) eqn:El.
      * apply bool_decide_eq_true_1 in El.
        rewrite bool_decide_eq_true_2
          by (apply list_elem_of_further; exact El).
        reflexivity.
      * apply bool_decide_eq_false_1 in El.
        rewrite bool_decide_eq_false_2; [reflexivity|].
        rewrite elem_of_cons. intros [H|H]; congruence.
Qed.

Lemma promote_spec (current : num) (w : World) :
  let w' := AnimationManager.promote current w in
  s_ACTIVE_LIST w' = (s_ACTIVE_LIST w ++ rev (s_NEW_LIST w))%list /\
  s_NEW_LIST w' = [] /\
  positions w' = positions w /\
  elements w' = elements w /\
  s_PROMISE w' = s_PROMISE w /\
  manager w' = manager w /\
  forall id,
    tasks w' id =
    if bool_decide (id ∈ s_NEW_LIST w)
    then with_a_timing (Some current) Num.zero (tasks w id)
    else tasks w id.
Proof.
  cbv zeta. unfold AnimationManager.promote. cbv zeta.
  destruct (promote_fold current (rev (s_NEW_LIST w)) w)
    as (Ha & Hn & Hp & He & Hpr & Hm & Ht).
  cbv zeta in Ha, Hn, Hp, He, Hpr, Hm, Ht.
  cbn [s_ACTIVE_LIST s_NEW_LIST positions elements s_PROMISE manager tasks
       with_lists].
  split; [exact Ha|]. split; [reflexivity|]. split; [exact Hp|].
  split; [exact He|]. split; [exact Hpr|]. split; [exact Hm|].
  intros id. rewrite Ht.
  rewrite (bool_decide_ext (id ∈ rev (s_NEW_LIST w)) (id ∈ s_NEW_LIST w))
    by apply elem_of_rev.
  reflexivity.
Qed.

Lemma promote_advances (current : num) (w : World) :
  advances w (AnimationManager.promote current w).
Proof.
  destruct (promote_spec current w) as (_ & _ & Hp & He & _ & _ & Ht).
  cbv zeta in Hp, He, Ht.
  split; [exact He|]. split; [|split].
  - intros id. rewrite Ht. destruct (bool_decide _); repeat split; reflexivity.
  - intros id H. rewrite Ht. destruct (bool_decide _); exact H.
  - intros i k H. rewrite Hp in H. exact H.
Qed.

(** Pending tasks become active at the start of a turn: the queue is
    emptied onto the end of the active list, newest first, and each task
    moved gets the frame time as [start] and 0 as [current]; the other
    tasks and every Position are untouched.  A task handed to [add] is
    therefore active after the next turn began, and [add] leaves the loop
    marked as running. *)
Theorem promote_moves_pending_tasks (current : num) (id : nat) (w : World) :
  let queued := AnimationManager.add id w in
  let w' := AnimationManager.promote current queued in
  s_NEW_LIST queued = (s_NEW_LIST w ++ [id])%list /\
  s_PROMISE queued = true /\
  s_ACTIVE_LIST w' = (s_ACTIVE_LIST w ++ id :: rev (s_NEW_LIST w))%list /\
  s_NEW_LIST w' = [] /\
  s_PROMISE w' = true /\
  positions w' = positions w /\
  (forall j,
     tasks w' j =
     if bool_decide (j ∈ (s_NEW_LIST w ++ [id])%list)
     then with_a_timing (Some current) Num.zero (tasks w j)
     else tasks w j) /\
  a_start (tasks w' id) = Some current /\
  a_current (tasks w' id) = Num.zero.
Proof.
  cbv zeta.
  assert (Hadd : s_NEW_LIST (AnimationManager.add id w)
                 = (s_NEW_LIST w ++ [id])%list
                 /\ s_PROMISE (AnimationManager.add id w) = true
                 /\ s_ACTIVE_LIST (AnimationManager.add id w) = s_ACTIVE_LIST w
                 /\ positions (AnimationManager.add id w) = positions w
                 /\ tasks (AnimationManager.add id w) = tasks w).
  { unfold AnimationManager.add. cbv zeta.
    cbn [s_PROMISE with_lists].
    destruct (s_PROMISE w) eqn:E; cbn; rewrite ?E; repeat split; reflexivity. }
  destruct Hadd as (Hn & Hpr & Ha & Hp & Ht).
  destruct (promote_spec current (AnimationManager.add id w))
    as (Ha' & Hn' & Hp' & _ & Hpr' & _ & Ht').
  cbv zeta in Ha', Hn', Hp', Hpr', Ht'.
  rewrite Hn, Ha in Ha'. rewrite rev_app_distr in Ha'. cbn [rev app] in Ha'.
  split; [exact Hn|]. split; [exact Hpr|]. split; [exact Ha'|].
  split; [exact Hn'|]. split; [congruence|]. split; [congruence|].
  assert (Htasks : forall j,
            tasks (AnimationManager.promote current (AnimationManager.add id w)) j
            = if bool_decide (j ∈ (s_NEW_LIST w ++ [id])%list)
              then with_a_timing (Some current) Num.zero (tasks w j)
              else tasks w j).
  { intros j. rewrite Ht', Hn, Ht. reflexivity. }
  split; [exact Htasks|].
  rewrite Htasks.
  rewrite bool_decide_eq_true_2
    by (apply elem_of_app; right; apply list_elem_of_here).
  split; reflexivity.
Qed.

Lemma animate_turn_eq (current : num) (newCurrent : value) (w : World) :
  s_ACTIVE_LIST w <> [] \/ s_NEW_LIST w <> [] ->
  AnimationManager.animate_turn current newCurrent w =
  let w := AnimationManager.promote current w in
  match AnimationManager.process_from current (length (s_ACTIVE_LIST w)) w with
  | Throw e => Throw e
  | Normal w =>
      if stalled current newCurrent
      then
        match AnimationManager.quit_from (length (s_ACTIVE_LIST w)) w with
        | Throw e => Throw e
        | Normal w =>
            Normal (with_s_PROMISE false (with_lists [] (s_NEW_LIST w) w), None)
        end
      else
        Normal (w, match newCurrent with
                   | VNum n => Some n
                   | _ => Some NaN
                   end)
  end.
Proof.
  intros H. unfold AnimationManager.animate_turn, stalled.
  destruct (s_ACTIVE_LIST w) as [|a l] eqn:Ea;
    destruct (s_NEW_LIST w) as [|b l'] eqn:En;
    try reflexivity.
  destruct H; congruence.
Qed.



Lemma process_no_el (current : num) (cntr id : nat) (w : World) :
  s_ACTIVE_LIST w !! cntr = Some id ->
  a_el (tasks w id) = None ->
  AnimationManager.process current cntr w =
  Throw (TypeError "Cannot read properties of undefined (reading 'isConnected')").
Proof.
  intros Hat Hel. unfold AnimationManager.process. rewrite Hat, Hel.
  reflexivity.
Qed.

Lemma process_from_throws (current : num) (n i id : nat) (w : World) :
  i < n ->
  s_ACTIVE_LIST w !! i = Some id ->
  a_el (tasks w id) = None ->
  AnimationManager.process_from current n w =
  Throw (TypeError "Cannot read properties of undefined (reading 'isConnected')").
Proof.
  revert w. induction n as [|cntr IH]; intros w Hi Hat Hel; [lia|].
  cbn [AnimationManager.process_from].
  destruct (s_ACTIVE_LIST w !! cntr) as [id'|] eqn:Hat'.
  - destruct (a_el (tasks w id')) as [e|] eqn:He.
    + destruct (process_spec current cntr id' e w Hat' He)
        as (w1 & Hrun & Hadv & _ & _ & Hlist).
      rewrite Hrun.
      assert (Hlt : i < cntr).
      { destruct (decide (i = cntr)) as [->|Hne]; [|lia].
        rewrite Hat in Hat'. injection Hat' as ->. congruence. }
      apply IH; [exact Hlt | |].
      * destruct Hlist as [Hl | [Hl _]]; rewrite Hl;
          [exact Hat | rewrite splice1_lookup_lt by exact Hlt; exact Hat].
      * destruct Hadv as (_ & Ht & _). destruct (Ht id) as (Hsame & _).
        rewrite Hsame. exact Hel.
    + rewrite (process_no_el current cntr id' w Hat' He). reflexivity.
  - assert (Hrun : AnimationManager.process current cntr w = Normal w).
    { unfold AnimationManager.process. rewrite Hat'. reflexivity. }
    rewrite Hrun. apply IH; [|exact Hat|exact Hel].
    destruct (decide (i = cntr)) as [->|Hne]; [congruence | lia].
Qed.

(** The loop reads [data.el.isConnected] of every listed task: a task
    without an [el] property, pending or active, makes the turn throw a
    [TypeError], whatever the other tasks are. *)
Theorem animate_requires_el (current : num) (newCurrent : value)
    (id : nat) (w : World) :
  id ∈ s_ACTIVE_LIST w \/ id ∈ s_NEW_LIST w ->
  a_el (tasks w id) = None ->
  AnimationManager.animate_turn current newCurrent w =
  Throw (TypeError "Cannot read properties of undefined (reading 'isConnected')").
Proof.
  intros Hin Hel. rewrite animate_turn_eq.
  2:{ destruct Hin as [H|H]; [left | right]; intros E; rewrite E in H;
        apply elem_of_nil in H; contradiction. }
  cbv zeta.
  destruct (promote_spec current w) as (Ha0 & _).
  pose proof (promote_advances current w) as (_ & Ht & _).
  cbv zeta in Ha0.
  set (w0 := AnimationManager.promote current w) in *.
  assert (Hin0 : id ∈ s_ACTIVE_LIST w0).
  { rewrite Ha0, elem_of_app, elem_of_rev. exact Hin. }
  apply list_elem_of_lookup in Hin0 as [i Hi].
  rewrite (process_from_throws current (length (s_ACTIVE_LIST w0)) i id w0).
  - reflexivity.
  - apply lookup_lt_Some in Hi. exact Hi.
  - exact Hi.
  - destruct (Ht id) as (Hsame & _). rewrite Hsame. exact Hel.
Qed.

Lemma animate_requires_el_witness :
  let orphan := mkAnimationData Num.zero [] (Num.of_Z 100) linear None false
                                [] jump [] [] 0 false None in
  AnimationManager.animate_turn (Fin 50) (VNum (Fin 66))
    (AnimationManager.add 1 (with_task 1 orphan (sliding hosted (VNum (Fin 300)))))
  = Throw (TypeError "Cannot read properties of undefined (reading 'isConnected')").
Proof.
  cbv zeta.
  apply (animate_requires_el (Fin 50) (VNum (Fin 66)) 1).
  - right. apply list_elem_of_here.
  - reflexivity.
Defined.

(** A task whose element left the document, or which is already marked
    finished, is taken off the active list without a last update:
    [position.set] is not called, so no canonical data changes and nothing
    is scheduled; its promise is resolved, it is not marked finished by
    this, and the whole currently-animating set of its Position is
    cleared, the keys of other tasks of that Position included. *)
Theorem process_evicts_gone_task (current : num) (cntr id e : nat)
    (w : World) :
  s_ACTIVE_LIST w !! cntr = Some id ->
  a_el (tasks w id) = Some e ->
  el_isConnected (elements w e) = false \/ a_finished (tasks w id) = true ->
  exists w',
    AnimationManager.process current cntr w = Normal w' /\
    s_ACTIVE_LIST w' = splice1 cntr (s_ACTIVE_LIST w) /\
    a_resolved (tasks w' id) = true /\
    a_finished (tasks w' id) = a_finished (tasks w id) /\
    a_newData (tasks w' id) = a_newData (tasks w id) /\
    Position.currentAnimationKeys
      (positions w' (a_position (tasks w id))) = [] /\
    (forall i, Position.data (positions w' i) = Position.data (positions w i)) /\
    manager w' = manager w.
Proof.
  intros Hat Hel Hgone.
  assert (Hg : negb (el_isConnected (elements w e))
               || a_finished (tasks w id) = true).
  { destruct Hgone as [H|H]; rewrite H; [reflexivity | apply orb_true_r]. }
  rewrite (process_evict_eq current cntr id e w Hat Hel Hg).
  eexists. split; [reflexivity|]. world_simpl. rewrite ?upd_eq. world_simpl.
  rewrite ?upd_eq.
  split; [reflexivity|]. split; [reflexivity|]. split; [reflexivity|].
  split; [reflexivity|]. split; [reflexivity|]. split; [|reflexivity].
  intros i. unfold upd. destruct (Nat.eqb i _) eqn:E; [|reflexivity].
  apply Nat.eqb_eq in E. subst i. reflexivity.
Qed.

Lemma process_evicts_gone_task_witness :
  let w := mkWorld (positions (sliding hosted (VNum (Fin 300)))) no_elements
                   (tasks (sliding hosted (VNum (Fin 300)))) 1 [0] [] true
                   UpdateElementManager.empty in
  exists w',
    AnimationManager.process (Fin 50) 0 w = Normal w' /\
    s_ACTIVE_LIST w' = [] /\
    a_resolved (tasks w' 0) = true /\
    Position.currentAnimationKeys (positions w' 0) = [] /\
    Position.data (positions w' 0) = Position.data (positions w 0).
Proof.
  cbv zeta.
  destruct (process_evicts_gone_task (Fin 50) 0 0 0
              (mkWorld (positions (sliding hosted (VNum (Fin 300))))
                       no_elements
                       (tasks (sliding hosted (VNum (Fin 300)))) 1 [0] []
                       true UpdateElementManager.empty))
    as (w' & Hrun & Hactive & Hresolved & _ & _ & Hkeys & Hdata & _).
  - reflexivity.
  - reflexivity.
  - left. reflexivity.
  - exists w'. split; [exact Hrun|]. split; [exact Hactive|].
    split; [exact Hresolved|]. split; [exact Hkeys | exact (Hdata 0)].
Defined.

Lemma interpolate_fold (f : key -> value) (l : list key) (o : obj) (k : key) :
  Obj.read (fold_left (fun o k => Obj.put k (f k) o) l o) k =
  if bool_decide (k ∈ l) then f k else Obj.read o k.
Proof.
  revert o. induction l as [|k0 l IH]; intros o; [reflexivity|].
  cbn [fold_left]. rewrite IH.
  destruct (bool_decide (k ∈ l)) eqn:E.
  - apply bool_decide_eq_true_1 in E.
    rewrite bool_decide_eq_true_2 by (apply list_elem_of_further; exact E).
    reflexivity.
  - apply bool_decide_eq_false_1 in E.
    destruct (decide (k0 = k)) as [->|Hne].
    + rewrite bool_decide_eq_true_2 by apply list_elem_of_here.
      apply read_put_eq.
    + rewrite read_put_ne by exact Hne.
      rewrite bool_decide_eq_false_2; [reflexivity|].
      rewrite elem_of_cons. intros [H|H]; congruence.
Qed.

(** A frame in the middle of an animation: for a task whose element is
    connected, which is not finished and whose elapsed time is below its
    duration, every animated key of [newData] becomes
    [interpolate(initial[key], destination[key], easing(elapsed / duration))],
    the other entries of [newData] stay, and the result is handed to [set]
    of the owning Position.  The task stays in the active list, unresolved
    and unfinished, with [current] the elapsed time, and its keys stay
    reserved. *)
Theorem process_interpolates (current start : num) (cntr id e : nat)
    (w : World) :
  s_ACTIVE_LIST w !! cntr = Some id ->
  a_el (tasks w id) = Some e ->
  el_isConnected (elements w e) = true ->
  a_finished (tasks w id) = false ->
  a_start (tasks w id) = Some start ->
  Num.geb (Num.sub current start) (a_duration (tasks w id)) = false ->
  let task := tasks w id in
  let owner := a_position task in
  let easedTime :=
    a_easing task (VNum (Num.div (Num.sub current start) (a_duration task))) in
  exists w' newData,
    AnimationManager.process current cntr w = Normal w' /\
    (forall k,
       Obj.read newData k =
       if bool_decide (k ∈ a_keys task)
       then a_interpolate task (Obj.read (a_initial task) k)
                          (Obj.read (a_destination task) k) easedTime
       else Obj.read (a_newData task) k) /\
    positions w' owner =
      Position.r_this
        (Position.set owner (elements w) newData (positions w owner)
                      (manager w)) /\
    s_ACTIVE_LIST w' = s_ACTIVE_LIST w /\
    a_current (tasks w' id) = Num.sub current start /\
    a_finished (tasks w' id) = false /\
    a_resolved (tasks w' id) = a_resolved task /\
    Position.currentAnimationKeys (positions w' owner)
      = Position.currentAnimationKeys (positions w owner).
Proof.
  intros Hat Hel Hcon Hfin Hstart Hshort. cbv zeta.
  assert (Hg : negb (el_isConnected (elements w e))
               || a_finished (tasks w id) = false)
    by (rewrite Hcon, Hfin; reflexivity).
  assert (Hd : Num.geb
                 match a_start (tasks w id) with
                 | Some start => Num.sub current start
                 | None => NaN
                 end (a_duration (tasks w id)) = false)
    by (rewrite Hstart; exact Hshort).
  rewrite (process_frame_eq current cntr id e w Hat Hel Hg Hd).
  cbv zeta. rewrite Hstart.
  cbn [a_easing a_duration a_keys a_newData a_initial a_destination
       a_interpolate a_position with_a_timing with_a_newData].
  match goal with
  | |- context [position_set ?i ?o ?w1] =>
      destruct (position_set_frame i o w1)
        as (Ht & _ & Ha & _ & _ & Hk & Hpos);
      set (ps := position_set i o w1) in *;
      exists (with_task id
                (with_a_newData (fst ps)
                   (with_a_newData o
                      (with_a_timing (Some start) (Num.sub current start)
                                     (tasks w id))))
                (snd ps)), o
  end.
  cbv zeta in Ht, Ha, Hk, Hpos.
  split; [reflexivity|]. split.
  { intros k. rewrite interpolate_fold.
    rewrite (bool_decide_ext (k ∈ rev (a_keys (tasks w id)))
                             (k ∈ a_keys (tasks w id)))
      by apply elem_of_rev.
    reflexivity. }
  world_simpl. split; [exact Hpos|]. split; [exact Ha|].
  rewrite upd_eq. cbn [a_current a_finished a_resolved with_a_newData
                       with_a_timing].
  split; [reflexivity|]. split; [exact Hfin|]. split; [reflexivity|].
  rewrite Hk. reflexivity.
Qed.

Lemma process_interpolates_witness :
  let w := with_task 0
             (mkAnimationData Num.zero [(K_left, VNum (Fin 300))]
                (Num.of_Z 100) linear (Some 0) false
                [(K_left, VNum Num.zero)] jump [K_left]
                [(K_left, VNum Num.zero)] 0 false (Some Num.zero))
             (sliding hosted (VNum (Fin 300))) in
  exists w' newData,
    AnimationManager.process (Fin 50) 0 w = Normal w' /\
    Obj.read newData K_left = VNum (Fin 300) /\
    positions w' 0 =
      Position.r_this
        (Position.set 0 (elements w) newData (positions w 0) (manager w)) /\
    s_ACTIVE_LIST w' = [0] /\
    a_finished (tasks w' 0) = false.
Proof.
  cbv zeta.
  destruct (process_interpolates (Fin 50) Num.zero 0 0 0
              (with_task 0
                 (mkAnimationData Num.zero [(K_left, VNum (Fin 300))]
                    (Num.of_Z 100) linear (Some 0) false
                    [(K_left, VNum Num.zero)] jump [K_left]
                    [(K_left, VNum Num.zero)] 0 false (Some Num.zero))
                 (sliding hosted (VNum (Fin 300)))))
    as (w' & newData & Hrun & Hnew & Hset & Hactive & _ & Hfinished & _).
  - reflexivity.
  - reflexivity.
  - reflexivity.
  - reflexivity.
  - reflexivity.
  - vm_compute. reflexivity.
  - exists w', newData. split; [exact Hrun|]. split; [exact (Hnew K_left)|].
    split; [exact Hset|]. split; [exact Hactive | exact Hfinished].
Defined.

(** The elapsed time and the fraction handed to [easing] are doubles.  With
    [start] 0.1 and the frame time 100.1, each the double nearest to it,
    the exact difference is below 100 while [current - start] is 100: a
    task of duration 100 takes its final frame there. *)
Example elapsed_time_is_a_double :
  let start := Fin (3602879701896397 # 36028797018963968) in
  let current := Fin (3521955646092083 # 35184372088832) in
  Qlt ((3521955646092083 # 35184372088832)
       - (3602879701896397 # 36028797018963968)) 100 /\
  Num.sub current start = Fin 100 /\
  Num.div (Fin 1) (Fin 3) = Fin (6004799503160661 # 18014398509481984) /\
  exists w',
    AnimationManager.process current 0
      (with_task 0
         (with_a_timing (Some start) Num.zero (slide (VNum (Fin 300))))
         (sliding hosted (VNum (Fin 300))))
    = Normal w' /\
    a_finished (tasks w' 0) = true /\
    s_ACTIVE_LIST w' = [].
Proof.
  cbv zeta. split; [vm_compute; reflexivity|].
  split; [vm_compute; reflexivity|]. split; [vm_compute; reflexivity|].
  eexists. split; [vm_compute; reflexivity|]. split; vm_compute; reflexivity.
Qed.

(** ** [cancelAll] and [reset] *)

Lemma cancel_fold_defaultData (l : list nat) (w : World) (i : nat) :
  Position.defaultData
    (positions (fold_left (fun w id => AnimationManager.cancel id w) l w) i)
  = Position.defaultData (positions w i).
Proof.
  revert w. induction l as [|id l IH]; intros w; [reflexivity|].
  cbn [fold_left]. rewrite IH, cancel_positions.
  destruct (Nat.eqb i _); reflexivity.
Qed.

(** [reset] refuses while a field of the Position is being animated;
    [cancelAll] makes it available again: for the Position of any task
    that was pending or active, with its default data captured, [reset]
    returns [true] after [cancelAll], while it returned [false] before as
    long as a key was reserved. *)
Theorem cancelAll_unblocks_reset (id : nat) (w : World) (default : obj)
    (keepZIndex invokeSet : bool) (els : nat -> Element)
    (u : UpdateElementManager.t) :
  id ∈ s_ACTIVE_LIST w \/ id ∈ s_NEW_LIST w ->
  let owner := a_position (tasks w id) in
  Position.defaultData (positions w owner) = Some default ->
  (Position.currentAnimationKeys (positions w owner) <> [] ->
   Position.reset keepZIndex invokeSet owner els (positions w owner) u
   = (false, positions w owner, u)) /\
  fst (fst (Position.reset keepZIndex invokeSet owner els
              (positions (AnimationManager.cancelAll w) owner) u)) = true.
Proof.
  intros Hin. cbv zeta. intros Hdef. split.
  - intros Hkeys. unfold Position.reset. rewrite Hdef.
    destruct (Position.currentAnimationKeys _); [congruence | reflexivity].
  - unfold AnimationManager.cancelAll. cbv zeta.
    set (w1 := fold_left (fun w id => AnimationManager.cancel id w)
                         (rev (s_ACTIVE_LIST w)) w).
    destruct (cancel_list_effect (rev (s_ACTIVE_LIST w)) w)
      as (_ & Hn1 & _ & _ & Hp1 & _ & _ & Hin1).
    fold w1 in Hn1, Hp1, Hin1.
    destruct (cancel_list_effect (rev (s_NEW_LIST w1)) w1)
      as (_ & _ & _ & Hk2 & _ & _ & _ & Hin2).
    cbn [positions with_lists].
    set (w2 := fold_left (fun w id => AnimationManager.cancel id w)
                         (rev (s_NEW_LIST w1)) w1) in *.
    assert (Hkeys : Position.currentAnimationKeys
                      (positions w2 (a_position (tasks w id))) = []).
    { destruct Hin as [Hid|Hid].
      - apply Hk2. apply (Hin1 id). apply elem_of_rev. exact Hid.
      - destruct (Hin2 id) as (_ & _ & H).
        { apply elem_of_rev. rewrite Hn1. exact Hid. }
        rewrite Hp1 in H. exact H. }
    assert (Hd2 : Position.defaultData (positions w2 (a_position (tasks w id)))
                  = Some default).
    { unfold w2, w1. rewrite !cancel_fold_defaultData. exact Hdef. }
    unfold Position.reset. rewrite Hd2, Hkeys.
    cbn [length Nat.eqb negb]. destruct invokeSet; reflexivity.
Qed.

Lemma cancelAll_unblocks_reset_witness :
  let w := sliding rendered (VNum (Fin 300)) in
  Position.reset false false 0 one_box (positions w 0)
                 UpdateElementManager.empty
  = (false, positions w 0, UpdateElementManager.empty) /\
  fst (fst (Position.reset false false 0 one_box
              (positions (AnimationManager.cancelAll w) 0)
              UpdateElementManager.empty)) = true.
Proof.
  cbv zeta.
  destruct (Position.defaultData rendered) as [default|] eqn:Hdefault;
    [|vm_compute in Hdefault; discriminate Hdefault].
  destruct (cancelAll_unblocks_reset 0 (sliding rendered (VNum (Fin 300)))
              default false false one_box UpdateElementManager.empty)
    as [Hblocked Hfree].
  - left. apply list_elem_of_here.
  - exact Hdefault.
  - split; [|exact Hfree]. apply Hblocked. discriminate.
Defined.

Arguments changed : simpl never.

(** ** Which inline styles a [set] makes the next frame write *)

Lemma get_flag (b b' : csbit) (c : PositionChangeSet) :
  ChangeSet.get (ChangeSet.flag b c) b' =
  if decide (b' = b) then true else ChangeSet.get c b'.
Proof. destruct b, b'; reflexivity. Qed.

Lemma set_fields_fold_get (l : list key) (s : Position.SetState) (b : csbit) :
  NoDup l ->
  ChangeSet.get
    (Position.ss_changeSet (fold_left (fun s k => Position.set_field k s) l s)) b
  = ChangeSet.get (Position.ss_changeSet s) b
    || existsb (fun k => bool_decide (Position.bit_of k = b) && changed k s) l.
Proof.
  intros Hnd. revert s.
  induction Hnd as [|k0 l Hnotin Hnd IH]; intros s; cbn [fold_left existsb].
  - rewrite orb_false_r. reflexivity.
  - rewrite IH, set_field_changeSet.
    assert (Hl : existsb (fun k => bool_decide (Position.bit_of k = b)
                                   && changed k (Position.set_field k0 s)) l
                 = existsb (fun k => bool_decide (Position.bit_of k = b)
                                     && changed k s) l).
    { clear IH Hnd. induction l as [|k l IHl]; [reflexivity|].
      apply not_elem_of_cons in Hnotin as [Hne Hn].
      cbn [existsb]. rewrite changed_set_field_other by congruence.
      rewrite IHl by exact Hn. reflexivity. }
    rewrite Hl.
    destruct (changed k0 s); [|rewrite andb_false_r; reflexivity].
    rewrite get_flag, andb_true_r.
    destruct (decide (b = Position.bit_of k0)) as [->|Hne].
    + rewrite bool_decide_eq_true_2 by reflexivity.
      rewrite orb_true_r. reflexivity.
    + rewrite bool_decide_eq_false_2 by congruence. reflexivity.
Qed.

Lemma bits_of_blocks (f : key -> bool) (b : csbit) :
  existsb (fun k => bool_decide (Position.bit_of k = b) && f k)
          Position.set_order =
  match b with
  | CS_left => f K_left
  | CS_top => f K_top
  | CS_width => f K_width
  | CS_height => f K_height
  | CS_maxWidth => f K_maxWidth
  | CS_maxHeight => f K_maxHeight
  | CS_minWidth => f K_minWidth
  | CS_minHeight => f K_minHeight
  | CS_zIndex => f K_zIndex
  | CS_transform =>
      f K_rotateX || f K_rotateY || f K_rotateZ || f K_scale
      || f K_translateX || f K_translateY || f K_translateZ
  | CS_transformOrigin => f K_transformOrigin
  end.
Proof.
  destruct b; vm_compute;
    repeat match goal with
           | |- context [f ?k] => destruct (f k)
           end; reflexivity.
Qed.

(** Starting from clear flags, each flag tells whether a block that raises
    it stored a value. *)
Lemma flag_after_blocks (s : Position.SetState) (b : csbit) :
  Position.ss_changeSet s = ChangeSet.set false ->
  ChangeSet.get (Position.ss_changeSet (Position.set_fields s)) b =
  match b with
  | CS_left => changed K_left s
  | CS_top => changed K_top s
  | CS_width => changed K_width s
  | CS_height => changed K_height s
  | CS_maxWidth => changed K_maxWidth s
  | CS_maxHeight => changed K_maxHeight s
  | CS_minWidth => changed K_minWidth s
  | CS_minHeight => changed K_minHeight s
  | CS_zIndex => changed K_zIndex s
  | CS_transform =>
      changed K_rotateX s || changed K_rotateY s || changed K_rotateZ s
      || changed K_scale s || changed K_translateX s || changed K_translateY s
      || changed K_translateZ s
  | CS_transformOrigin => changed K_transformOrigin s
  end.
Proof.
  intros H0. unfold Position.set_fields.
  rewrite set_fields_fold_get by apply set_order_NoDup.
  rewrite H0.
  rewrite (bits_of_blocks (fun k => changed k s) b).
  destruct b; reflexivity.
Qed.

Lemma cache_style_cached (els : nat -> Element) (el : nat) (p : Position.t) :
  StyleCache.hasData el (Position.styleCache p) = true ->
  Position.cache_style els el p = p.
Proof. intros H. unfold Position.cache_style. rewrite H. reflexivity. Qed.

Lemma flags_of_get (c : PositionChangeSet) (f : csbit -> bool) :
  (forall b, ChangeSet.get c b = f b) ->
  cs_zIndex c = f CS_zIndex /\
  cs_width c = f CS_width /\
  cs_height c = f CS_height /\
  cs_transformOrigin c = f CS_transformOrigin /\
  cs_left c = f CS_left /\
  cs_top c = f CS_top /\
  cs_transform c = f CS_transform.
Proof.
  intros H.
  repeat split;
    [exact (H CS_zIndex)|exact (H CS_width)|exact (H CS_height)
    |exact (H CS_transformOrigin)|exact (H CS_left)|exact (H CS_top)
    |exact (H CS_transform)].
Qed.

Lemma flags_after_blocks (s : Position.SetState) :
  Position.ss_changeSet s = ChangeSet.set false ->
  let c := Position.ss_changeSet (Position.set_fields s) in
  cs_zIndex c = changed K_zIndex s /\
  cs_width c = changed K_width s /\
  cs_height c = changed K_height s /\
  cs_transformOrigin c = changed K_transformOrigin s /\
  cs_left c = changed K_left s /\
  cs_top c = changed K_top s /\
  cs_transform c =
    (changed K_rotateX s || changed K_rotateY s || changed K_rotateZ s
     || changed K_scale s || changed K_translateX s || changed K_translateY s
     || changed K_translateZ s).
Proof.
  intros H0.
  exact (flags_of_get _ _ (fun b => flag_after_blocks s b H0)).
Qed.

Lemma updateElementNew_connected (els : nat -> Element) (el : nat)
    (p : Position.t) :
  el_isConnected (els el) = true ->
  Position.updateElementNew els el p =
  let changeSet := Position.positionChangeSet p in
  let d := Position.data p in
  (((if cs_zIndex changeSet
     then [(Position.S_zIndex,
            if Js.is_number (d_zIndex d) then Position.CssNumber (d_zIndex d)
            else Position.CssNull)]
     else [])
    ++ (if cs_width changeSet
        then [(Position.S_width,
               if Js.is_number (d_width d) then Position.CssPx (d_width d)
               else Position.CssValue (d_width d))]
        else [])
    ++ (if cs_height changeSet
        then [(Position.S_height,
               if Js.is_number (d_height d) then Position.CssPx (d_height d)
               else Position.CssValue (d_height d))]
        else [])
    ++ (if cs_transformOrigin changeSet
        then [(Position.S_transformOrigin,
               if Js.strict_eq (d_transformOrigin d) (VStr "center")
               then Position.CssNull
               else Position.CssValue (d_transformOrigin d))]
        else [])
    ++ (if cs_left changeSet || cs_top changeSet || cs_transform changeSet
        then [(Position.S_transform, Position.CssOrtho d)]
        else []))%list,
   Position.updateSubscribers p).
Proof.
  intros Hcon. unfold Position.updateElementNew. rewrite Hcon. reflexivity.
Qed.

Lemma set_element_cached (self : nat) (els : nat -> Element) (position : obj)
    (p : Position.t) (u : UpdateElementManager.t) (el : nat)
    (validated : obj) :
  Position.not_positionable (Position.parent p) = false ->
  Position.target_element els (Position.parent p) = Some el ->
  StyleCache.hasData el (Position.styleCache p) = true ->
  Position.updatePosition els position el p = Some validated ->
  let s := Position.set_fields
             (Position.mkSetState validated (Position.data p)
                                  (Position.positionChangeSet p)) in
  let p' := Position.r_this (Position.set self els position p u) in
  Position.data p' = Position.ss_data s /\
  Position.positionChangeSet p' = Position.ss_changeSet s.
Proof.
  intros Hp Ht Hcache Hup. cbv zeta.
  unfold Position.set. rewrite Hp, Ht.
  rewrite (cache_style_cached els el p Hcache), Hup.
  destruct (UpdateElementManager.add el self u) as [u' promise].
  cbn [Position.r_this].
  destruct (Position.defaultData _); split; reflexivity.
Qed.

(** With the style of the target element cached and no change pending, a
    [set] that is not vetoed makes the next frame write exactly the styles
    whose fields it changed: [z-index], [width], [height] and
    [transform-origin] when their own field changed, and [transform] when
    [left], [top], a rotation, the scale or a translation changed.  A
    change of a min/max field alone writes no inline style. *)
Theorem set_then_frame_writes_changed_styles (self : nat)
    (els : nat -> Element) (position : obj) (p : Position.t)
    (u : UpdateElementManager.t) (el : nat) (validated : obj) :
  Position.not_positionable (Position.parent p) = false ->
  Position.target_element els (Position.parent p) = Some el ->
  StyleCache.hasData el (Position.styleCache p) = true ->
  ChangeSet.hasChange (Position.positionChangeSet p) = false ->
  Position.updatePosition els position el p = Some validated ->
  let s := Position.mkSetState validated (Position.data p)
                               (Position.positionChangeSet p) in
  let p' := Position.r_this (Position.set self els position p u) in
  let d := Position.data p' in
  fst (Position.updateElementNew els el p') =
    ((if changed K_zIndex s
      then [(Position.S_zIndex,
             if Js.is_number (d_zIndex d) then Position.CssNumber (d_zIndex d)
             else Position.CssNull)]
      else [])
     ++ (if changed K_width s
         then [(Position.S_width,
                if Js.is_number (d_width d) then Position.CssPx (d_width d)
                else Position.CssValue (d_width d))]
         else [])
     ++ (if changed K_height s
         then [(Position.S_height,
                if Js.is_number (d_height d) then Position.CssPx (d_height d)
                else Position.CssValue (d_height d))]
         else [])
     ++ (if changed K_transformOrigin s
         then [(Position.S_transformOrigin,
                if Js.strict_eq (d_transformOrigin d) (VStr "center")
                then Position.CssNull
                else Position.CssValue (d_transformOrigin d))]
         else [])
     ++ (if changed K_left s || changed K_top s
            || (changed K_rotateX s || changed K_rotateY s
                || changed K_rotateZ s || changed K_scale s
                || changed K_translateX s || changed K_translateY s
                || changed K_translateZ s)
         then [(Position.S_transform, Position.CssOrtho d)]
         else []))%list.
Proof.
  intros Hp Ht Hcache Hclear Hup. cbv zeta.
  pose proof (target_element_connected els _ el Ht) as Hcon.
  destruct (set_element_cached self els position p u el validated
              Hp Ht Hcache Hup) as [Hd' Hc'].
  set (s := Position.mkSetState validated (Position.data p)
                                (Position.positionChangeSet p)) in *.
  assert (H0 : Position.ss_changeSet s = ChangeSet.set false)
    by (apply hasChange_false; exact Hclear).
  destruct (flags_after_blocks s H0) as (F1 & F2 & F3 & F4 & F5 & F6 & F7).
  cbv zeta in F1, F2, F3, F4, F5, F6, F7.
  set (p' := Position.r_this (Position.set self els position p u)) in *.
  clearbody p'.
  rewrite (updateElementNew_connected els el p' Hcon). cbn [fst].
  rewrite Hc', Hd', F1, F2, F3, F4, F5, F6, F7. reflexivity.
Qed.

Lemma set_then_frame_writes_changed_styles_witness :
  let p' := Position.r_this
              (Position.set 0 one_box
                 [(K_left, VNum (Fin 150)); (K_minWidth, VNum (Fin 20))]
                 rendered UpdateElementManager.empty) in
  map fst (fst (Position.updateElementNew one_box 0 p'))
  = [Position.S_transform].
Proof.
  cbv zeta.
  destruct (Position.updatePosition one_box
              [(K_left, VNum (Fin 150)); (K_minWidth, VNum (Fin 20))] 0
              rendered)
    as [validated|] eqn:Hup; [|vm_compute in Hup; discriminate Hup].
  rewrite (set_then_frame_writes_changed_styles 0 one_box
             [(K_left, VNum (Fin 150)); (K_minWidth, VNum (Fin 20))]
             rendered UpdateElementManager.empty 0 validated).
  - vm_compute in Hup. injection Hup as <-. vm_compute. reflexivity.
  - vm_compute. reflexivity.
  - vm_compute. reflexivity.
  - vm_compute. reflexivity.
  - vm_compute. reflexivity.
  - exact Hup.
Defined.

(** * Animations side by side, and snapshots handed to [set] *)

(** ** C4: one animation per field *)












(** The other way the code departs from C4 is left out of the amended
    statement: the task built by this [animateTo] has no [el] property, so
    that the next turn of the loop throws when it reads
    [data.el.isConnected] and neither animation goes on. *)
Example animateTo_then_turn_throws :
  let w := sliding hosted (VNum (Fin 300)) in
  exists w',
    animateTo jump 0
      (AnObject [(K_left, VNum (Fin 500)); (K_top, VNum (Fin 50))])
      (mkAnimateOptions VUndefined Omitted Omitted) w
    = Normal (w', Pending 1) /\
    a_el (tasks w' 1) = None /\
    AnimationManager.animate_turn (Fin 16) (VNum (Fin 33)) w'
    = Throw (TypeError "Cannot read properties of undefined (reading 'isConnected')").
Proof. eexists. split; [reflexivity|]. split; vm_compute; reflexivity. Qed.

(** ** C10: a saved snapshot and later [set] calls, the snapshot included *)

Lemma strict_eq_cases (a b : value) :
  Js.strict_eq a b = true ->
  a = b \/ exists x y, a = VNum (Fin x) /\ b = VNum (Fin y) /\ Qeq x y.
Proof.
  destruct a as [| |x|x|x|x], b as [| |y|y|y|y]; try discriminate;
    cbn [Js.strict_eq]; intros H.
  - left. reflexivity.
  - left. reflexivity.
  - left. apply Bool.eqb_prop in H. congruence.
  - destruct x as [| | |x], y as [| | |y]; try discriminate H.
    + left. reflexivity.
    + left. reflexivity.
    + right. exists x, y. repeat split. apply Qeq_bool_iff. exact H.
  - left. apply String.eqb_eq in H. congruence.
  - left. apply Nat.eqb_eq in H. congruence.
Qed.

Lemma same_value_sym (a b : value) : same_value a b -> same_value b a.
Proof.
  intros [->|H]; [left; reflexivity|].
  destruct (strict_eq_cases a b H) as [->|(x & y & -> & -> & E)];
    [left; reflexivity|].
  right. cbn. apply Qeq_bool_iff. symmetry. exact E.
Qed.

Lemma same_value_trans (a b c : value) :
  same_value a b -> same_value b c -> same_value a c.
Proof.
  intros [->|H1] H2; [exact H2|].
  destruct H2 as [<-|H2]; [right; exact H1|].
  destruct (strict_eq_cases a b H1) as [->|(x & y & -> & -> & E1)];
    [right; exact H2|].
  destruct (strict_eq_cases _ c H2) as [<-|(y' & z & Ey & -> & E2)];
    [right; exact H1|].
  injection Ey as <-. right. cbn. apply Qeq_bool_iff.
  rewrite E1. exact E2.
Qed.

Lemma round_fin_comp (x y : Q) :
  Qeq x y -> Num.round (Fin x) = Num.round (Fin y).
Proof.
  intros E. cbn [Num.round].
  rewrite (Qfloor_comp (x + (1 # 2)) (y + (1 # 2))); [reflexivity|].
  rewrite E. reflexivity.
Qed.

Lemma Qle_bool_comp (a b c d : Q) :
  Qeq a b -> Qeq c d -> Qle_bool a c = Qle_bool b d.
Proof.
  intros E1 E2.
  destruct (Qle_bool a c) eqn:H1, (Qle_bool b d) eqn:H2; try reflexivity.
  - apply Qle_bool_iff in H1. rewrite E1, E2 in H1.
    apply Qle_bool_iff in H1. congruence.
  - apply Qle_bool_iff in H2. rewrite <- E1, <- E2 in H2.
    apply Qle_bool_iff in H2. congruence.
Qed.

Lemma clamp_fin_comp (x y : Q) :
  Qeq x y ->
  same_value (Js.clamp_scale (VNum (Fin x))) (Js.clamp_scale (VNum (Fin y))).
Proof.
  intros E. unfold Js.clamp_scale, Num.max, Num.min, Num.ltb, Num.zero,
    Num.of_Z.
  rewrite (Qle_bool_comp x y (inject_Z 1000) (inject_Z 1000) E (Qeq_refl _)).
  destruct (Qle_bool y (inject_Z 1000)); cbn [negb].
  - rewrite (Qle_bool_comp x y 0 0 E (Qeq_refl _)).
    destruct (Qle_bool y 0); cbn [negb].
    + left. reflexivity.
    + right. cbn. apply Qeq_bool_iff. exact E.
  - left. reflexivity.
Qed.

(** The block of [set] for a key treats equal numbers alike. *)
Lemma accepted_same (k : key) (a b : value) :
  same_value a b ->
  match accepted k a, accepted k b with
  | Some x, Some y => same_value x y
  | None, None => True
  | _, _ => False
  end.
Proof.
  intros [->|H].
  - destruct (accepted k b); [left; reflexivity | exact I].
  - destruct (strict_eq_cases a b H) as [->|(x & y & -> & -> & E)].
    + destruct (accepted k b); [left; reflexivity | exact I].
    + pose proof (round_fin_comp x y E) as Hr.
      pose proof (clamp_fin_comp x y E) as Hc.
      assert (Hn : same_value (VNum (Fin x)) (VNum (Fin y)))
        by (right; exact H).
      destruct k; unfold accepted, Js.round;
        cbn [Js.is_number Js.isFinite Js.is_null Js.is_string Js.is_auto
             Num.isFinite orb];
        try exact I; try exact Hn; try exact Hc;
        rewrite Hr; left; reflexivity.
Qed.

(** The object handed to [set], as the call leaves it: only without a
    connected target element do the blocks work on the object itself. *)
Lemma set_r_position (self : nat) (els : nat -> Element) (o : obj)
    (p : Position.t) (u : UpdateElementManager.t) :
  Position.r_position (Position.set self els o p u) =
  if Position.not_positionable (Position.parent p) then o
  else match Position.target_element els (Position.parent p) with
       | Some _ => o
       | None =>
           Position.ss_position
             (Position.set_fields
                (Position.mkSetState o (Position.data p)
                                     (Position.positionChangeSet p)))
       end.
Proof.
  unfold Position.set.
  destruct (Position.not_positionable _); [reflexivity|].
  destruct (Position.target_element _ _) as [el|]; [|reflexivity].
  destruct (Position.updatePosition _ _ _ _); [|reflexivity].
  destruct (UpdateElementManager.add _ _ _). reflexivity.
Qed.

Lemma set_settled_argument (self : nat) (els : nat -> Element) (o : obj)
    (p : Position.t) (u : UpdateElementManager.t) (d : PositionData) :
  settled d ->
  (forall k, same_value (Obj.read o k) (getf d k)) ->
  forall k,
    same_value (Obj.read (Position.r_position (Position.set self els o p u)) k)
               (getf d k).
Proof.
  intros Hd Ho k. rewrite set_r_position.
  destruct (Position.not_positionable _); [apply Ho|].
  destruct (Position.target_element _ _); [apply Ho|].
  rewrite set_fields_position. cbn [Position.ss_position].
  pose proof (accepted_same k _ _ (Ho k)) as Hacc.
  pose proof (Hd k) as Hk.
  destruct (accepted k (Obj.read o k)) as [x|];
    destruct (accepted k (getf d k)) as [y|]; try contradiction.
  - eapply same_value_trans; [exact Hacc|].
    apply same_value_sym. right. exact Hk.
  - apply Ho.
Qed.

Lemma set_argument_settled_snapshot (self : nat) (els : nat -> Element)
    (a : Position.argument) (p : Position.t) (u : UpdateElementManager.t)
    (name : string) (d : PositionData) :
  settled d ->
  (exists o, Position.getSave name p = Some o /\
             forall k, same_value (Obj.read o k) (getf d k)) ->
  exists o, Position.getSave name (fst (Position.set_argument self els a p u))
            = Some o /\
            forall k, same_value (Obj.read o k) (getf d k).
Proof.
  intros Hd (o & Hsave & Ho).
  assert (Hdec : a = Position.Snapshot name \/ a <> Position.Snapshot name).
  { destruct a as [l|name']; [right; discriminate|].
    destruct (decide (name' = name)) as [->|Hn];
      [left; reflexivity | right; congruence]. }
  destruct Hdec as [->|Hne].
  - unfold Position.set_argument. rewrite Hsave. cbn [fst].
    unfold Position.getSave.
    cbn [Position.dataSaved Position.with_dataSaved].
    rewrite lookup_insert_eq. eexists. split; [reflexivity|].
    apply set_settled_argument; assumption.
  - exists o. split; [|exact Ho].
    rewrite set_argument_keeps_snapshot by exact Hne. exact Hsave.
Qed.

Lemma set_all_settled_snapshot (self : nat) (els : nat -> Element)
    (args : list Position.argument) (p : Position.t)
    (u : UpdateElementManager.t) (name : string) (d : PositionData) :
  settled d ->
  (exists o, Position.getSave name p = Some o /\
             forall k, same_value (Obj.read o k) (getf d k)) ->
  exists o, Position.getSave name (fst (set_all self els args p u)) = Some o /\
            forall k, same_value (Obj.read o k) (getf d k).
Proof.
  intros Hd. unfold set_all. revert p u.
  induction args as [|a args IH]; intros p u Hp; cbn [fold_left fst snd];
    [exact Hp|].
  destruct (Position.set_argument self els a p u) as [p' u'] eqn:E.
  apply IH. change p' with (fst (p', u')). rewrite <- E.
  apply set_argument_settled_snapshot; assumption.
Qed.

(** [set(getSave({ name }))] without a connected target element: every
    entry of the snapshot becomes what its block accepts for it. *)
Lemma set_snapshot_in_place (self : nat) (els : nat -> Element)
    (name : string) (o : obj) (p : Position.t) (u : UpdateElementManager.t) :
  Position.getSave name p = Some o ->
  Position.not_positionable (Position.parent p) = false ->
  Position.target_element els (Position.parent p) = None ->
  exists o',
    Position.getSave name (fst (set_all self els [Position.Snapshot name] p u))
    = Some o' /\
    forall k, Obj.read o' k = match accepted k (Obj.read o k) with
                              | Some v => v
                              | None => Obj.read o k
                              end.
Proof.
  intros Hsave Hp Ht. unfold set_all. cbn [fold_left fst snd].
  unfold Position.set_argument. rewrite Hsave. cbn [fst].
  unfold Position.getSave. cbn [Position.dataSaved Position.with_dataSaved].
  rewrite lookup_insert_eq. eexists. split; [reflexivity|].
  intros k. rewrite set_r_position, Hp, Ht, set_fields_position.
  reflexivity.
Qed.

(** C10.  [save(name)] stores a fresh object holding the canonical values
    of that moment, and [getSave] hands out that object itself.  After any
    run of later [set] calls that are not handed the object, [getSave]
    still returns it unchanged.  When the data was in the form [set]
    produces at the time of the save, this holds for every run of [set]
    calls, those handed the stored object included: each field of what
    [getSave] returns is still the value saved.  It fails only for a value
    that a block of [set] would change: handed the stored object on a
    Position without a connected target element, [set] rewrites each entry
    to what its block accepts, so a [scale] outside [0, 1000], as the
    constructor leaves it in the data, comes back clamped. *)
Theorem save_survives_set (self : nat) (els : nat -> Element) (name : string)
    (extra : obj) (args : list Position.argument) (p : Position.t)
    (u : UpdateElementManager.t) :
  let saved := fst (Position.save name extra p) in
  let kept := snd (Position.save name extra p) in
  (forall k, Obj.lookup saved k = Some (getf (Position.data p) k)) /\
  ((forall a, a ∈ args -> a <> Position.Snapshot name) ->
   Position.getSave name (fst (set_all self els args kept u)) = Some saved) /\
  (settled (Position.data p) ->
   (forall k, getf (Position.data p) k <> VNum NaN) ->
   exists o,
     Position.getSave name (fst (set_all self els args kept u)) = Some o /\
     forall k, Js.strict_eq (Obj.read o k) (getf (Position.data p) k) = true) /\
  (Position.not_positionable (Position.parent p) = false ->
   Position.target_element els (Position.parent p) = None ->
   exists o,
     Position.getSave name
       (fst (set_all self els [Position.Snapshot name] kept u)) = Some o /\
     forall k, Obj.read o k =
               match accepted k (getf (Position.data p) k) with
               | Some v => v
               | None => getf (Position.data p) k
               end).
Proof.
  cbv zeta.
  assert (Hsaved : forall k,
            Obj.lookup (fst (Position.save name extra p)) k
            = Some (getf (Position.data p) k))
    by (intros k; apply lookup_assign_of_data).
  assert (Hread : forall k,
            Obj.read (fst (Position.save name extra p)) k
            = getf (Position.data p) k)
    by (intros k; unfold Obj.read; rewrite Hsaved; reflexivity).
  assert (Hget : Position.getSave name (snd (Position.save name extra p))
                 = Some (fst (Position.save name extra p))).
  { unfold Position.getSave, Position.save. cbn. apply lookup_insert_eq. }
  split; [exact Hsaved|]. split; [|split].
  - intros Hargs. rewrite set_all_keeps_snapshot by exact Hargs. exact Hget.
  - intros Hd Hnan.
    destruct (set_all_settled_snapshot self els args
                (snd (Position.save name extra p)) u name (Position.data p) Hd)
      as (o & Ho & Hsame).
    { eexists. split; [exact Hget|]. intros k. left. apply Hread. }
    exists o. split; [exact Ho|]. intros k.
    destruct (Hsame k) as [->|H]; [|exact H].
    apply strict_eq_refl. apply Hnan.
  - intros Hp Ht.
    destruct (set_snapshot_in_place self els name
                (fst (Position.save name extra p))
                (snd (Position.save name extra p)) u Hget)
      as (o & Ho & Hval).
    + unfold Position.save. cbn. exact Hp.
    + unfold Position.save. cbn. exact Ht.
    + exists o. split; [exact Ho|]. intros k. rewrite Hval, Hread.
      reflexivity.
Qed.

Lemma save_survives_set_witness :
  (exists o,
     Position.getSave "x"
       (fst (set_all 0 no_elements [Position.Snapshot "x"]
                     (snd (Position.save "x" [] oversized))
                     UpdateElementManager.empty)) = Some o /\
     Obj.read (fst (Position.save "x" [] oversized)) K_scale
       = VNum (Fin 5000) /\
     Obj.read o K_scale = VNum (Fin 1000)) /\
  (exists o,
     Position.getSave "x"
       (fst (set_all 0 no_elements
                     [Position.Literal [(K_left, VNum (Fin 150))];
                      Position.Snapshot "x";
                      Position.Literal [(K_scale, VNum (Fin 2))]]
                     (snd (Position.save "x" [] rendered))
                     UpdateElementManager.empty)) = Some o /\
     forall k, Js.strict_eq (Obj.read o k) (getf (Position.data rendered) k)
               = true).
Proof.
  split.
  - destruct (save_survives_set 0 no_elements "x" [] [] oversized
                UpdateElementManager.empty) as (_ & _ & _ & Hin).
    destruct (Hin eq_refl eq_refl) as (o & Ho & Hval).
    exists o. split; [exact Ho|]. split; [reflexivity|].
    rewrite (Hval K_scale). reflexivity.
  - destruct (save_survives_set 0 no_elements "x" []
                [Position.Literal [(K_left, VNum (Fin 150))];
                 Position.Snapshot "x";
                 Position.Literal [(K_scale, VNum (Fin 2))]]
                rendered UpdateElementManager.empty) as (_ & _ & Hkeep & _).
    apply Hkeep.
    + intros k. destruct k; vm_compute; try reflexivity; exact I.
    + intros k. destruct k; vm_compute; discriminate.
Defined.

(** The failing input in full: the Position that the constructor builds
    from [{ scale: 5000 }] keeps that scale, [save] copies it, and
    [set(getSave(...))] clamps it inside the stored object. *)
Example save_aliased_by_set_oversized :
  Position.new ParentUndefined [(K_scale, VNum (Fin 5000))] None
               Position.InitialAbsent [] = Normal oversized /\
  let saved := fst (Position.save "x" [] oversized) in
  let later := fst (set_all 0 no_elements [Position.Snapshot "x"]
                            (snd (Position.save "x" [] oversized))
                            UpdateElementManager.empty) in
  getf (Position.data oversized) K_scale = VNum (Fin 5000) /\
  Obj.read saved K_scale = VNum (Fin 5000) /\
  exists o, Position.getSave "x" later = Some o /\
            Obj.read o K_scale = VNum (Fin 1000) /\
            Js.strict_eq (Obj.read o K_scale)
                         (getf (Position.data oversized) K_scale) = false.
Proof.
  split; [reflexivity|].
  split; [reflexivity|]. split; [reflexivity|].
  eexists. split; [|split]; vm_compute; reflexivity.
Qed.
